(** * static/js/main.js: the page script of the resource-booking gateway

    A shallow embedding of the DOMContentLoaded handler of [main.js]: the
    resource filter, the cost calculator of the borrowing modal, the metric
    animation of the dashboard and the toolkit initialisation, together with
    the parts of the JavaScript runtime they call (strings, the Number type,
    [parseFloat], [toFixed], the rate pattern).

    Strings are sequences of code units; the embedding covers code units
    below 256 (Latin-1), which is what [Stdlib.Strings.String] offers. *)

From Stdlib Require Import ZArith QArith Qround Qabs Qpower Qminmax Lqa Lia.
From Stdlib Require Import List Bool Ascii String.
Import ListNotations.
Local Open Scope string_scope.
Local Open Scope Z_scope.

(** ** Strings of the runtime *)

Module JSString.

Definition code (c : ascii) : Z := Z.of_N (N_of_ascii c).

Definition isDigit (c : ascii) : bool := (48 <=? code c) && (code c <=? 57).

Definition digitValue (c : ascii) : Z := code c - 48.

Definition digitChar (d : Z) : ascii := ascii_of_N (Z.to_N (48 + d)).

(** WhiteSpace and LineTerminator code points below 256: TAB, LF, VT, FF,
    CR, SP and NBSP. *)
Definition isWhiteSpace (c : ascii) : bool :=
  let n := code c in
  ((9 <=? n) && (n <=? 13)) || (n =? 32) || (n =? 160).

(** [String.prototype.toLowerCase] on Latin-1: A-Z, and the upper-case
    letters U+00C0..U+00DE except the multiplication sign U+00D7. *)
Definition lowerChar (c : ascii) : ascii :=
  let n := code c in
  if ((65 <=? n) && (n <=? 90)) || ((192 <=? n) && (n <=? 222) && negb (n =? 215))
  then ascii_of_N (Z.to_N (n + 32))
  else c.

Fixpoint toLowerCase (s : string) : string :=
  match s with
  | EmptyString => EmptyString
  | String c r => String (lowerChar c) (toLowerCase r)
  end.

Fixpoint startsWith (s p : string) {struct p} : bool :=
  match p, s with
  | EmptyString, _ => true
  | String _ _, EmptyString => false
  | String a p', String b s' => Ascii.eqb a b && startsWith s' p'
  end.

(** [s.includes(t)]: [t] occurs in [s] at some position. *)
Fixpoint includes (s t : string) : bool :=
  startsWith s t ||
  match s with
  | EmptyString => false
  | String _ r => includes r t
  end.

Fixpoint drop (n : nat) (s : string) : string :=
  match n, s with
  | O, _ => s
  | S _, EmptyString => EmptyString
  | S k, String _ r => drop k r
  end.

Fixpoint take (n : nat) (s : string) : string :=
  match n, s with
  | O, _ => EmptyString
  | S _, EmptyString => EmptyString
  | S k, String c r => String c (take k r)
  end.

Fixpoint repeat (c : ascii) (n : nat) : string :=
  match n with
  | O => EmptyString
  | S k => String c (repeat c k)
  end.

Fixpoint trimStart (s : string) : string :=
  match s with
  | EmptyString => EmptyString
  | String c r => if isWhiteSpace c then trimStart r else s
  end.

Fixpoint trimEnd (s : string) : string :=
  match s with
  | EmptyString => EmptyString
  | String c r =>
      match trimEnd r with
      | EmptyString => if isWhiteSpace c then EmptyString else String c EmptyString
      | r' => String c r'
      end
  end.

Definition trim (s : string) : string := trimEnd (trimStart s).

(** The longest run of decimal digits at the head of [s], and what follows. *)
Fixpoint spanDigits (s : string) : string * string :=
  match s with
  | EmptyString => (EmptyString, EmptyString)
  | String c r =>
      if isDigit c
      then let (d, rest) := spanDigits r in (String c d, rest)
      else (EmptyString, s)
  end.

Fixpoint allDigits (s : string) : bool :=
  match s with
  | EmptyString => true
  | String c r => isDigit c && allDigits r
  end.

(** The mathematical value of a run of digits in radix [b]. *)
Fixpoint valueFrom (b : Z) (digit : ascii -> Z) (acc : Z) (s : string) : Z :=
  match s with
  | EmptyString => acc
  | String c r => valueFrom b digit (b * acc + digit c) r
  end.

Definition digitsValue (s : string) : Z := valueFrom 10 digitValue 0 s.

(** The decimal digits of a non-negative integer, most significant first;
    each round divides by ten, so [Z.log2 n + 1] rounds are enough. *)
Fixpoint toDigitsFuel (fuel : nat) (n : Z) (acc : string) : string :=
  match fuel with
  | O => acc
  | S k =>
      let acc' := String (digitChar (n mod 10)) acc in
      if n <? 10 then acc' else toDigitsFuel k (n / 10) acc'
  end.

Definition toDigits (n : Z) : string :=
  toDigitsFuel (S (Z.to_nat (Z.log2 n))) n EmptyString.

End JSString.

(** ** The Number type

    A Number is an IEEE 754 binary64 value.  Following the formulation of
    ECMA-262, a finite Number other than -0 is identified with the rational
    it denotes, and an arithmetic operation is the exact operation on the
    rationals followed by rounding to the nearest representable value, ties
    to even. *)

Module JSNumber.
Import JSString.

Inductive Number : Type :=
| NaN
| Infinity (neg : bool)
| NegZero
| Real (v : Q).

(** floor (log2 q), for 0 < q. *)
Definition ilog2 (q : Q) : Z :=
  let d := Z.log2 (Qnum q) - Z.log2 (Zpos (Qden q)) in
  if Qle_bool (2 ^ d) q then d else d - 1.

(** The exponent of the unit in the last place of the binade of [q]:
    53 bits of precision, and the subnormal grid 2^-1074 at the bottom. *)
Definition ulp_exp (q : Q) : Z := Z.max (ilog2 q - 52) (-1074).

(** Nearest integer, ties to even. *)
Definition rne (q : Q) : Z :=
  let n := Qfloor q in
  match Qcompare (q - inject_Z n) (1 # 2) with
  | Lt => n
  | Gt => n + 1
  | Eq => if Z.even n then n else n + 1
  end.

(** The binary64 magnitude nearest to [q]; [None] when that is 2^1024,
    which stands for an infinity. *)
Definition round64 (q : Q) : option Q :=
  if Qle_bool q 0 then Some 0%Q
  else
    let e := ulp_exp q in
    let r := (inject_Z (rne (q / 2 ^ e)) * 2 ^ e)%Q in
    if Qle_bool (2 ^ 1024) r then None else Some (Qred r).

Definition signed (neg : bool) (m : option Q) : Number :=
  match m with
  | None => Infinity neg
  | Some m =>
      if neg then (if Qeq_bool m 0 then NegZero else Real (- m)) else Real m
  end.

(** The Number value for a real: a negative real that rounds to zero
    gives -0. *)
Definition F (x : Q) : Number :=
  signed (negb (Qle_bool 0 x)) (round64 (Qabs x)).

(** The real a finite Number denotes. *)
Definition realOf (x : Number) : Q :=
  match x with
  | Real v => v
  | _ => 0%Q
  end.

Definition isFinite (x : Number) : bool :=
  match x with
  | NegZero | Real _ => true
  | _ => false
  end.

Definition isZero (x : Number) : bool :=
  match x with
  | NegZero => true
  | Real v => Qeq_bool v 0
  | _ => false
  end.

Definition isNegative (x : Number) : bool :=
  match x with
  | NaN => false
  | Infinity neg => neg
  | NegZero => true
  | Real v => negb (Qle_bool 0 v)
  end.

(** Number::unaryMinus *)
Definition negate (x : Number) : Number :=
  match x with
  | NaN => NaN
  | Infinity neg => Infinity (negb neg)
  | NegZero => Real 0
  | Real v => if Qeq_bool v 0 then NegZero else Real (- v)
  end.

(** Number::add *)
Definition add (x y : Number) : Number :=
  match x, y with
  | NaN, _ | _, NaN => NaN
  | Infinity a, Infinity b => if Bool.eqb a b then Infinity a else NaN
  | Infinity a, _ => Infinity a
  | _, Infinity b => Infinity b
  | NegZero, NegZero => NegZero
  | _, _ => F (realOf x + realOf y)
  end.

(** Number::subtract *)
Definition subtract (x y : Number) : Number := add x (negate y).

(** Number::multiply; the sign of the product is the exclusive or of the
    signs of the factors. *)
Definition multiply (x y : Number) : Number :=
  match x, y with
  | NaN, _ | _, NaN => NaN
  | Infinity a, Infinity b => Infinity (xorb a b)
  | Infinity a, _ => if isZero y then NaN else Infinity (xorb a (isNegative y))
  | _, Infinity b => if isZero x then NaN else Infinity (xorb (isNegative x) b)
  | _, _ =>
      signed (xorb (isNegative x) (isNegative y))
             (round64 (Qabs (realOf x) * Qabs (realOf y)))
  end.

(** [x < y] on Numbers; false when either is NaN. *)
Definition lessThan (x y : Number) : bool :=
  match x, y with
  | NaN, _ | _, NaN => false
  | Infinity true, Infinity true => false
  | Infinity true, _ => true
  | _, Infinity true => false
  | Infinity false, _ => false
  | _, Infinity false => true
  | _, _ => negb (Qle_bool (realOf y) (realOf x))
  end.

(** [Math.max(...args)]: NaN is contagious, and +0 is above -0. *)
Fixpoint Math_max_from (highest : Number) (args : list Number) : Number :=
  match args with
  | [] => highest
  | NaN :: _ => NaN
  | number :: rest =>
      let highest :=
        match number, highest with
        | Real v, NegZero => if Qeq_bool v 0 then number else highest
        | _, _ => highest
        end in
      Math_max_from (if lessThan highest number then number else highest) rest
  end.

Definition Math_max (args : list Number) : Number :=
  Math_max_from (Infinity true) args.

End JSNumber.

(** ** Conversions between strings and Numbers *)

Module JSConvert.
Import JSString JSNumber.

(** The mathematical value of the literal [ip.fp e ex]. *)
Definition MV (ip fp : string) (ex : Z) : Q :=
  ((inject_Z (digitsValue ip)
    + inject_Z (digitsValue fp) / inject_Z (10 ^ Z.of_nat (length fp)))
   * 10 ^ ex)%Q.

Definition isEmpty (s : string) : bool :=
  match s with
  | EmptyString => true
  | String _ _ => false
  end.

(** ExponentPart, when one is there: [e] or [E], an optional sign and at
    least one digit. *)
Definition scanExponent (s : string) : Z * string :=
  match s with
  | String c r =>
      if Ascii.eqb c "e" || Ascii.eqb c "E" then
        let (neg, r1) :=
          match r with
          | String d u =>
              if Ascii.eqb d "+" then (false, u)
              else if Ascii.eqb d "-" then (true, u)
              else (false, r)
          | EmptyString => (false, r)
          end in
        let (ds, r2) := spanDigits r1 in
        if isEmpty ds then (0, s)
        else ((if neg : bool then - digitsValue ds else digitsValue ds), r2)
      else (0, s)
  | EmptyString => (0, s)
  end.

(** The longest prefix that is a StrUnsignedDecimalLiteral: its Number
    value and the rest of the string. The value is the Number value for
    the mathematical value of the literal, rounded once, as engines do for
    literals of any length. *)
Definition scanUnsigned (s : string) : option (Number * string) :=
  if startsWith s "Infinity" then Some (Infinity false, drop 8 s)
  else
    let (ip, r1) := spanDigits s in
    if startsWith r1 "." then
      let (fp, r3) := spanDigits (drop 1 r1) in
      if isEmpty ip && isEmpty fp then None
      else let (ex, r4) := scanExponent r3 in Some (F (MV ip fp ex), r4)
    else
      if isEmpty ip then None
      else let (ex, r4) := scanExponent r1 in Some (F (MV ip "" ex), r4).

(** The longest prefix that is a StrDecimalLiteral. *)
Definition scanStrDecimalLiteral (s : string) : option (Number * string) :=
  if startsWith s "+" then scanUnsigned (drop 1 s)
  else if startsWith s "-" then
    match scanUnsigned (drop 1 s) with
    | Some (v, rest) => Some (negate v, rest)
    | None => None
    end
  else scanUnsigned s.

(** [parseFloat(string)] *)
Definition parseFloat (s : string) : Number :=
  match scanStrDecimalLiteral (trimStart s) with
  | Some (v, _) => v
  | None => NaN
  end.

Definition radixDigit (radix : Z) (c : ascii) : option Z :=
  let n := code c in
  let d :=
    if isDigit c then n - 48
    else if (97 <=? n) && (n <=? 102) then n - 87
    else if (65 <=? n) && (n <=? 70) then n - 55
    else radix in
  if d <? radix then Some d else None.

Fixpoint allRadixDigits (radix : Z) (s : string) : bool :=
  match s with
  | EmptyString => true
  | String c r =>
      match radixDigit radix c with
      | Some _ => allRadixDigits radix r
      | None => false
      end
  end.

Definition radixValue (radix : Z) (s : string) : Z :=
  valueFrom radix
    (fun c => match radixDigit radix c with Some d => d | None => 0 end) 0 s.

(** NonDecimalIntegerLiteral: 0b, 0o and 0x literals, without a sign. *)
Definition nonDecimalLiteral (s : string) : Number :=
  let ds := drop 2 s in
  let radix :=
    if startsWith s "0x" || startsWith s "0X" then 16
    else if startsWith s "0o" || startsWith s "0O" then 8
    else if startsWith s "0b" || startsWith s "0B" then 2
    else 0 in
  if negb (isEmpty ds) && allRadixDigits radix ds
  then F (inject_Z (radixValue radix ds))
  else NaN.

(** StringToNumber: what [ToNumber] does to a string, and with it the
    coercion of a string operand of [*]. *)
Definition StringToNumber (s : string) : Number :=
  let t := trim s in
  if isEmpty t then Real 0
  else
    match scanStrDecimalLiteral t with
    | Some (v, EmptyString) => v
    | _ => nonDecimalLiteral t
    end.

(** The digits of [n] with a decimal point before the last [f] of them,
    padded with zeros on the left to [f + 1] digits. *)
Definition fixedDigits (f : nat) (n : Z) : string :=
  let m := toDigits n in
  match f with
  | O => m
  | S _ =>
      let m := if (length m <=? f)%nat
               then repeat "0" (f + 1 - length m) ++ m else m in
      let k := length m in
      take (k - f) m ++ "." ++ drop (k - f) m
  end.

Definition isNumberValue (x : Number) (v : Q) : bool :=
  match x with
  | Real w => Qeq_bool w v
  | _ => false
  end.

(** Number::toString for a finite [v] that is at least 10^21, where the
    result is in exponent notation: the shortest digit string [s] (of [k]
    digits) with [F (s * 10^(n-k)) = v], the closest to [v] if several,
    the even one on a tie. Seventeen digits identify any binary64 value. *)
Fixpoint shortestDigits (fuel : nat) (k : Z) (n0 : Z) (v : Q) : Z :=
  let scale := inject_Z (10 ^ (n0 - k)) in
  let lo := Qfloor (v / scale) in
  let hi := lo + 1 in
  let ok s := (s <? 10 ^ k) && isNumberValue (F (inject_Z s * scale)) v in
  match fuel with
  | O => lo
  | S fuel' =>
      match ok lo, ok hi with
      | true, true =>
          match Qcompare (v - inject_Z lo * scale) (inject_Z hi * scale - v) with
          | Lt => lo
          | Gt => hi
          | Eq => if Z.even lo then lo else hi
          end
      | true, false => lo
      | false, true => hi
      | false, false => shortestDigits fuel' (k + 1) n0 v
      end
  end.

Definition toStringLarge (v : Q) : string :=
  let n0 := Z.of_nat (length (toDigits (Qfloor v))) in
  if isNumberValue (F (inject_Z (10 ^ n0))) v
  then "1e+" ++ toDigits n0
  else
    let ds := toDigits (shortestDigits 17 1 n0 v) in
    match ds with
    | String d EmptyString => String d ("e+" ++ toDigits (n0 - 1))
    | String d r => String d ("." ++ r ++ "e+" ++ toDigits (n0 - 1))
    | EmptyString => EmptyString
    end.

(** [Number.prototype.toFixed(f)], for [f] between 0 and 100. *)
Definition toFixed (f : nat) (x : Number) : string :=
  match x with
  | NaN => "NaN"
  | Infinity false => "Infinity"
  | Infinity true => "-Infinity"
  | NegZero => fixedDigits f 0
  | Real v =>
      let s := if Qle_bool 0 v then "" else "-" in
      let a := Qabs v in
      if Qle_bool (inject_Z (10 ^ 21)) a
      then s ++ toStringLarge a
      else s ++ fixedDigits f
                  (Qfloor (a * inject_Z (10 ^ Z.of_nat f) + (1 # 2)))
  end.

End JSConvert.


(** ** The rate pattern  [/Cost: (\d+(?:\.\d+)?) credits\/hour/] *)

Module RatePattern.
Import JSString JSConvert.

(** A match that starts at the head of [s]: the text of group 1.  [\d+]
    and the optional group are greedy; giving back a digit leaves a digit
    where the pattern wants a point or a space, so the greedy choice is
    the only one that can succeed. When the optional group cannot be
    followed by the tail of the pattern, the pattern is tried without it. *)
Definition matchHere (s : string) : option string :=
  if startsWith s "Cost: " then
    let (ip, r1) := spanDigits (drop 6 s) in
    if isEmpty ip then None
    else
      let withGroup :=
        if startsWith r1 "." then
          let (fp, r3) := spanDigits (drop 1 r1) in
          if negb (isEmpty fp) && startsWith r3 " credits/hour"
          then Some (ip ++ "." ++ fp) else None
        else None in
      match withGroup with
      | Some m => Some m
      | None => if startsWith r1 " credits/hour" then Some ip else None
      end
  else None.

(** [text.match(pattern)]: the leftmost match, [None] for [null]. *)
Fixpoint exec (s : string) : option string :=
  match matchHere s with
  | Some m => Some m
  | None =>
      match s with
      | EmptyString => None
      | String _ r => exec r
      end
  end.

End RatePattern.

(** ** The page and the handler of DOMContentLoaded *)

Module Page.
Import JSString JSNumber JSConvert.

Inductive Error : Type := TypeError.

(** A [.resource-card]: the text of its first [.card-title] descendant
    ([None] when it has none), [dataset.type] and [style.display]. *)
Record Card : Type := mkCard {
  cardTitle : option string;
  dataType : option string;
  display : string
}.

(** A [.modal]: the text of its first [.alert-info] and of its first
    [.calculated-cost] descendant, [None] for a descendant that is not
    there; the two are taken to be apart, neither inside the other. *)
Record Modal : Type := mkModal {
  alertInfo : option string;
  calculatedCost : option string
}.

(** An [input[name="hours"]]: its value and the index of the modal that
    [closest('.modal')] finds. *)
Record HoursInput : Type := mkHoursInput {
  hoursValue : string;
  closestModal : option nat
}.

(** A [.resource-metric]. *)
Record Metric : Type := mkMetric {
  textContent : string;
  classList : list string
}.

Inductive Target : Type :=
| SearchButtonEl
| SearchInputEl
| TypeFilterEl
| HoursInputEl (i : nat).

Inductive EventType : Type := click | keyup | change | input.

Record Event : Type := mkEvent {
  target : Target;
  type : EventType;
  key : string
}.

(** The three functions the script registers as listeners. *)
Inductive Listener : Type :=
| filterResourcesFn
| enterKeyFn
| hoursInputFn (i : nat).

(** The functions the script hands to [setInterval] and [setTimeout]. *)
Inductive Callback : Type :=
| updateResourceMetricsFn
| removeUpdatedFn (i : nat).

(** The page and what the script has set up on it. The lists of elements
    are those of [querySelectorAll]; nothing here adds or removes an
    element, so the lists the script captured at load and the ones it
    queries at each round are the lists of the page. [bootstrap] tells
    whether the toolkit global is defined; a toolkit that is there has its
    two constructors, whose calls are recorded in [tooltipInstances] and
    [popoverInstances]. [prng] is the sequence of values [Math.random()]
    is going to return, and [randomCalls] how many of them were taken. *)
Record State : Type := mkState {
  searchInput : option string;
  searchButton : bool;
  typeFilter : option string;
  resourceCards : list Card;
  hoursInputs : list HoursInput;
  modals : list Modal;
  metricElements : list Metric;
  tooltips : list nat;
  popovers : list nat;
  bootstrap : bool;
  listeners : list (Target * EventType * Listener);
  intervals : list (Callback * Z);
  timeouts : list (Callback * Z);
  tooltipInstances : list nat;
  popoverInstances : list nat;
  prng : nat -> Number;
  randomCalls : nat
}.

Definition withSearchInput v s :=
  mkState v (searchButton s) (typeFilter s) (resourceCards s)
    (hoursInputs s) (modals s) (metricElements s) (tooltips s) (popovers s)
    (bootstrap s) (listeners s) (intervals s) (timeouts s)
    (tooltipInstances s) (popoverInstances s) (prng s) (randomCalls s).

Definition withTypeFilter v s :=
  mkState (searchInput s) (searchButton s) v (resourceCards s)
    (hoursInputs s) (modals s) (metricElements s) (tooltips s) (popovers s)
    (bootstrap s) (listeners s) (intervals s) (timeouts s)
    (tooltipInstances s) (popoverInstances s) (prng s) (randomCalls s).

Definition withResourceCards v s :=
  mkState (searchInput s) (searchButton s) (typeFilter s) v
    (hoursInputs s) (modals s) (metricElements s) (tooltips s) (popovers s)
    (bootstrap s) (listeners s) (intervals s) (timeouts s)
    (tooltipInstances s) (popoverInstances s) (prng s) (randomCalls s).

Definition withHoursInputs v s :=
  mkState (searchInput s) (searchButton s) (typeFilter s) (resourceCards s)
    v (modals s) (metricElements s) (tooltips s) (popovers s)
    (bootstrap s) (listeners s) (intervals s) (timeouts s)
    (tooltipInstances s) (popoverInstances s) (prng s) (randomCalls s).

Definition withModals v s :=
  mkState (searchInput s) (searchButton s) (typeFilter s) (resourceCards s)
    (hoursInputs s) v (metricElements s) (tooltips s) (popovers s)
    (bootstrap s) (listeners s) (intervals s) (timeouts s)
    (tooltipInstances s) (popoverInstances s) (prng s) (randomCalls s).

Definition withMetricElements v s :=
  mkState (searchInput s) (searchButton s) (typeFilter s) (resourceCards s)
    (hoursInputs s) (modals s) v (tooltips s) (popovers s)
    (bootstrap s) (listeners s) (intervals s) (timeouts s)
    (tooltipInstances s) (popoverInstances s) (prng s) (randomCalls s).

Definition withListeners v s :=
  mkState (searchInput s) (searchButton s) (typeFilter s) (resourceCards s)
    (hoursInputs s) (modals s) (metricElements s) (tooltips s) (popovers s)
    (bootstrap s) v (intervals s) (timeouts s)
    (tooltipInstances s) (popoverInstances s) (prng s) (randomCalls s).

Definition withIntervals v s :=
  mkState (searchInput s) (searchButton s) (typeFilter s) (resourceCards s)
    (hoursInputs s) (modals s) (metricElements s) (tooltips s) (popovers s)
    (bootstrap s) (listeners s) v (timeouts s)
    (tooltipInstances s) (popoverInstances s) (prng s) (randomCalls s).

Definition withTimeouts v s :=
  mkState (searchInput s) (searchButton s) (typeFilter s) (resourceCards s)
    (hoursInputs s) (modals s) (metricElements s) (tooltips s) (popovers s)
    (bootstrap s) (listeners s) (intervals s) v
    (tooltipInstances s) (popoverInstances s) (prng s) (randomCalls s).

Definition withTooltipInstances v s :=
  mkState (searchInput s) (searchButton s) (typeFilter s) (resourceCards s)
    (hoursInputs s) (modals s) (metricElements s) (tooltips s) (popovers s)
    (bootstrap s) (listeners s) (intervals s) (timeouts s)
    v (popoverInstances s) (prng s) (randomCalls s).

Definition withPopoverInstances v s :=
  mkState (searchInput s) (searchButton s) (typeFilter s) (resourceCards s)
    (hoursInputs s) (modals s) (metricElements s) (tooltips s) (popovers s)
    (bootstrap s) (listeners s) (intervals s) (timeouts s)
    (tooltipInstances s) v (prng s) (randomCalls s).

Definition withRandomCalls v s :=
  mkState (searchInput s) (searchButton s) (typeFilter s) (resourceCards s)
    (hoursInputs s) (modals s) (metricElements s) (tooltips s) (popovers s)
    (bootstrap s) (listeners s) (intervals s) (timeouts s)
    (tooltipInstances s) (popoverInstances s) (prng s) v.

(** *** Completions: a handler returns or throws, and keeps what it has
    written to the page either way. *)

Inductive Completion (A : Type) : Type :=
| Normal (a : A) (s : State)
| Throw (e : Error) (s : State).
Arguments Normal {A} a s.
Arguments Throw {A} e s.

Definition JS (A : Type) : Type := State -> Completion A.

Definition ret {A} (a : A) : JS A := fun s => Normal a s.

Definition bind {A B} (m : JS A) (k : A -> JS B) : JS B :=
  fun s =>
    match m s with
    | Normal a s' => k a s'
    | Throw e s' => Throw e s'
    end.

Definition throw {A} (e : Error) : JS A := fun s => Throw e s.

Definition gets {A} (f : State -> A) : JS A := fun s => Normal (f s) s.

Definition modify (f : State -> State) : JS unit := fun s => Normal tt (f s).

Notation "x <- m ;; k" := (bind m (fun x => k))
  (at level 61, m at next level, right associativity).
Notation "m ;;; k" := (bind m (fun _ => k))
  (at level 61, right associativity).

(** Reading a property of what may be [null]. *)
Definition nonNull {A} (o : option A) : JS A :=
  match o with
  | Some a => ret a
  | None => throw TypeError
  end.

Definition when (b : bool) (m : JS unit) : JS unit := if b then m else ret tt.

Definition isSome {A} (o : option A) : bool :=
  match o with
  | Some _ => true
  | None => false
  end.

(** [list.forEach((element, index) => body)] *)
Fixpoint forEachFrom {A} (i : nat) (l : list A) (body : A -> nat -> JS unit)
  : JS unit :=
  match l with
  | [] => ret tt
  | a :: r => body a i ;;; forEachFrom (S i) r body
  end.

Definition forEach {A} (l : list A) (body : A -> nat -> JS unit) : JS unit :=
  forEachFrom 0 l body.

Fixpoint updateNth {A} (i : nat) (f : A -> A) (l : list A) {struct l}
  : list A :=
  match l, i with
  | [], _ => []
  | a :: r, O => f a :: r
  | a :: r, S k => a :: updateNth k f r
  end.

(** *** Resource search *)

Definition setDisplay (v : string) (c : Card) : Card :=
  mkCard (cardTitle c) (dataType c) v.

Definition matchesType (filterType : string) (cardType : option string) : bool :=
  (filterType =? "")%string ||
  match cardType with
  | Some t => (t =? filterType)%string
  | None => false
  end.

(** The body of [resourceCards.forEach]. *)
Definition filterCard (searchTerm filterType : string) (card : Card) (i : nat)
  : JS unit :=
  titleText <- nonNull (cardTitle card) ;;
  let cardTitle := toLowerCase titleText in
  let cardType := dataType card in
  let matchesSearch := includes cardTitle searchTerm in
  let matchesType := matchesType filterType cardType in
  if matchesSearch && matchesType
  then modify (fun s => withResourceCards
                          (updateNth i (setDisplay "block") (resourceCards s)) s)
  else modify (fun s => withResourceCards
                          (updateNth i (setDisplay "none") (resourceCards s)) s).

Definition filterResources : JS unit :=
  searchInputEl <- gets searchInput ;;
  value <- nonNull searchInputEl ;;
  let searchTerm := toLowerCase value in
  typeFilterEl <- gets typeFilter ;;
  filterType <- nonNull typeFilterEl ;;
  cards <- gets resourceCards ;;
  forEach cards (filterCard searchTerm filterType).

(** *** Hours input calculation for the borrowing modal *)

Definition setCost (v : string) (m : Modal) : Modal :=
  mkModal (alertInfo m) (Some v).

Definition closest (this : HoursInput) (s : State) : option (nat * Modal) :=
  match closestModal this with
  | Some j =>
      match nth_error (modals s) j with
      | Some m => Some (j, m)
      | None => None
      end
  | None => None
  end.

(** The listener of the [input] event of the [i]-th hours field. *)
Definition hoursInputListener (i : nat) : JS unit :=
  inputs <- gets hoursInputs ;;
  match nth_error inputs i with
  | None => ret tt
  | Some this =>
      modal <- gets (closest this) ;;
      match modal with
      | None => ret tt
      | Some (j, modal) =>
          info <- nonNull (alertInfo modal) ;;
          groups <- nonNull (RatePattern.exec info) ;;
          let creditRate := parseFloat groups in
          let totalCost := multiply (StringToNumber (hoursValue this)) creditRate in
          let costElement := calculatedCost modal in
          when (isSome costElement)
            (modify (fun s =>
               withModals
                 (updateNth j
                    (setCost ("Total cost: " ++ toFixed 2 totalCost ++ " credits"))
                    (modals s)) s))
      end
  end.

(** *** Resource monitoring simulation *)

(** [Math.random()]: the next value of the generator. *)
Definition Math_random : JS Number :=
  fun s => Normal (prng s (randomCalls s)) (withRandomCalls (S (randomCalls s)) s).

Definition setTextContent (v : string) (m : Metric) : Metric :=
  mkMetric v (classList m).

Definition classListAdd (c : string) (m : Metric) : Metric :=
  mkMetric (textContent m)
    (if existsb (String.eqb c) (classList m) then classList m
     else (classList m ++ [c])%list).

Definition classListRemove (c : string) (m : Metric) : Metric :=
  mkMetric (textContent m)
    (filter (fun d => negb (String.eqb c d)) (classList m)).

Definition updateMetric (f : Metric -> Metric) (i : nat) : JS unit :=
  modify (fun s => withMetricElements (updateNth i f (metricElements s)) s).

Definition setTimeout (c : Callback) (ms : Z) : JS unit :=
  modify (fun s => withTimeouts (timeouts s ++ [(c, ms)])%list s).

Definition setInterval (c : Callback) (ms : Z) : JS unit :=
  modify (fun s => withIntervals (intervals s ++ [(c, ms)])%list s).

Definition fluctuationOf (random : Number) : Number :=
  multiply (subtract random (Real (1 # 2))) (Real 10).

Definition newValueOf (currentValue fluctuation : Number) : string :=
  toFixed 1 (Math_max [Real 0; add currentValue fluctuation]).

(** The body of [metricElements.forEach]. *)
Definition updateElement (element : Metric) (i : nat) : JS unit :=
  let currentValue := parseFloat (textContent element) in
  random <- Math_random ;;
  let fluctuation := fluctuationOf random in
  let newValue := newValueOf currentValue fluctuation in
  updateMetric (setTextContent newValue) i ;;;
  updateMetric (classListAdd "updated") i ;;;
  setTimeout (removeUpdatedFn i) 1000.

Definition updateResourceMetrics : JS unit :=
  metricElements <- gets metricElements ;;
  forEach metricElements updateElement.

(** *** The handler of DOMContentLoaded *)

Definition addEventListener (t : Target) (ty : EventType) (l : Listener)
  : JS unit :=
  modify (fun s => withListeners (listeners s ++ [(t, ty, l)])%list s).

Definition newTooltip (el : nat) : JS unit :=
  modify (fun s => withTooltipInstances (tooltipInstances s ++ [el])%list s).

Definition newPopover (el : nat) : JS unit :=
  modify (fun s => withPopoverInstances (popoverInstances s ++ [el])%list s).

Definition isNil {A} (l : list A) : bool :=
  match l with
  | [] => true
  | _ :: _ => false
  end.

Definition DOMContentLoaded : JS unit :=
  searchButton <- gets searchButton ;;
  when searchButton (addEventListener SearchButtonEl click filterResourcesFn) ;;;
  searchInput <- gets searchInput ;;
  when (isSome searchInput) (addEventListener SearchInputEl keyup enterKeyFn) ;;;
  typeFilter <- gets typeFilter ;;
  when (isSome typeFilter) (addEventListener TypeFilterEl change filterResourcesFn) ;;;
  hoursInputs <- gets hoursInputs ;;
  forEach hoursInputs
    (fun _ i => addEventListener (HoursInputEl i) input (hoursInputFn i)) ;;;
  metricElements <- gets metricElements ;;
  when (negb (isNil metricElements))
    (setInterval updateResourceMetricsFn 10000) ;;;
  bootstrap <- gets bootstrap ;;
  when bootstrap
    (tooltips <- gets tooltips ;;
     forEach tooltips (fun tooltip _ => newTooltip tooltip) ;;;
     popovers <- gets popovers ;;
     forEach popovers (fun popover _ => newPopover popover)).

(** *** Events and timers *)

Definition callListener (l : Listener) (event : Event) : JS unit :=
  match l with
  | filterResourcesFn => filterResources
  | enterKeyFn => when (key event =? "Enter")%string filterResources
  | hoursInputFn i => hoursInputListener i
  end.

Definition callCallback (c : Callback) : JS unit :=
  match c with
  | updateResourceMetricsFn => updateResourceMetrics
  | removeUpdatedFn i => updateMetric (classListRemove "updated") i
  end.

Definition Target_eqb (a b : Target) : bool :=
  match a, b with
  | SearchButtonEl, SearchButtonEl => true
  | SearchInputEl, SearchInputEl => true
  | TypeFilterEl, TypeFilterEl => true
  | HoursInputEl i, HoursInputEl j => Nat.eqb i j
  | _, _ => false
  end.

Definition EventType_eqb (a b : EventType) : bool :=
  match a, b with
  | click, click | keyup, keyup | change, change | input, input => true
  | _, _ => false
  end.

(** What the event loop ran, and the error it reported when the function
    threw. *)
Inductive Ran : Type :=
| RanListener (l : Listener) (error : option Error)
| RanCallback (c : Callback) (error : option Error).

Definition outcome {A} (r : Completion A) : State * option Error :=
  match r with
  | Normal _ s => (s, None)
  | Throw e s => (s, Some e)
  end.

(** The listeners of the target of [event] for its type, in the order of
    their registration; an exception of one is reported and the next
    runs. *)
Fixpoint dispatchTo (ls : list (Target * EventType * Listener)) (event : Event)
  (s : State) : State * list Ran :=
  match ls with
  | [] => (s, [])
  | (t, ty, l) :: rest =>
      if Target_eqb t (target event) && EventType_eqb ty (type event) then
        let (s1, err) := outcome (callListener l event s) in
        let (s2, log) := dispatchTo rest event s1 in
        (s2, RanListener l err :: log)
      else dispatchTo rest event s
  end.

Definition dispatchEvent (event : Event) (s : State) : State * list Ran :=
  dispatchTo (listeners s) event s.

Fixpoint removeNth {A} (k : nat) (l : list A) {struct l} : list A :=
  match l, k with
  | [], _ => []
  | _ :: r, O => r
  | a :: r, S k' => a :: removeNth k' r
  end.

(** What happens to the page after it has loaded. *)
Inductive Action : Type :=
| Dispatch (event : Event)
| IntervalFires (k : nat)
| TimeoutFires (k : nat)
| EditSearch (text : string)
| SelectType (category : string)
| EditHours (i : nat) (text : string).

Definition setHours (v : string) (h : HoursInput) : HoursInput :=
  mkHoursInput v (closestModal h).

Definition step (a : Action) (s : State) : State * list Ran :=
  match a with
  | Dispatch event => dispatchEvent event s
  | IntervalFires k =>
      match nth_error (intervals s) k with
      | Some (c, _) =>
          let (s', err) := outcome (callCallback c s) in (s', [RanCallback c err])
      | None => (s, [])
      end
  | TimeoutFires k =>
      match nth_error (timeouts s) k with
      | Some (c, _) =>
          let (s', err) :=
            outcome (callCallback c (withTimeouts (removeNth k (timeouts s)) s)) in
          (s', [RanCallback c err])
      | None => (s, [])
      end
  | EditSearch text =>
      (match searchInput s with
       | Some _ => withSearchInput (Some text) s
       | None => s
       end, [])
  | SelectType category =>
      (match typeFilter s with
       | Some _ => withTypeFilter (Some category) s
       | None => s
       end, [])
  | EditHours i text =>
      (withHoursInputs (updateNth i (setHours text) (hoursInputs s)) s, [])
  end.

Fixpoint run (actions : list Action) (s : State) : State * list Ran :=
  match actions with
  | [] => (s, [])
  | a :: rest =>
      let (s1, log1) := step a s in
      let (s2, log2) := run rest s1 in
      (s2, (log1 ++ log2)%list)
  end.

(** The page as the browser hands it to the script: nothing registered,
    nothing constructed, no random number drawn. *)
Definition fresh (s : State) : State :=
  mkState (searchInput s) (searchButton s) (typeFilter s) (resourceCards s)
    (hoursInputs s) (modals s) (metricElements s) (tooltips s) (popovers s)
    (bootstrap s) [] [] [] [] [] (prng s) 0.

(** The page after its script has run at load. *)
Definition loaded (s : State) : State :=
  fst (outcome (DOMContentLoaded (fresh s))).

Definition stateOf {A} (r : Completion A) : State := fst (outcome r).

End Page.

Import JSString JSNumber JSConvert Page.

(** ** The notions the properties are stated with *)

(** [t] occurs in [s]. *)
Definition occursIn (t s : string) : Prop :=
  exists pre post, s = pre ++ t ++ post.

(** The title contains the search text, letter case apart. *)
Definition containsIgnoringCase (title query : string) : Prop :=
  occursIn (toLowerCase query) (toLowerCase title).

Definition visible (c : Card) : Prop := display c = "block".

(** [num] is the numeral [ip] or [ip.fp]: digits, and after an optional
    point more digits. *)
Definition isNumeral (num ip fp : string) : Prop :=
  ip <> "" /\ allDigits ip = true /\ allDigits fp = true /\
  ((fp = "" /\ num = ip) \/ (fp <> "" /\ num = ip ++ "." ++ fp)).

(** The rate sentence with the numeral [num] stands in [info] after [pre]. *)
Definition rateSentenceAfter (pre num info : string) : Prop :=
  exists ip fp rest,
    isNumeral num ip fp /\ info = pre ++ "Cost: " ++ num ++ " credits/hour" ++ rest.

(** [info] holds a rate sentence, and the first one has the numeral [num]. *)
Definition firstRateSentence (info num : string) : Prop :=
  exists pre,
    rateSentenceAfter pre num info /\
    forall pre' num', rateSentenceAfter pre' num' info ->
                      (length pre <= length pre')%nat.

(** [s] does not begin with a digit. *)
Definition headNotDigit (s : string) : Prop :=
  match s with
  | EmptyString => True
  | String c _ => isDigit c = false
  end.

(** A decimal with exactly [f] fraction digits: an optional minus sign, at
    least one digit, a point and [f] digits. *)
Definition isFixedDecimal (f : nat) (s : string) : bool :=
  let u := if startsWith s "-" then drop 1 s else s in
  let (ip, rest) := spanDigits u in
  let fp := drop 1 rest in
  negb (isEmpty ip) && startsWith rest "." && allDigits fp
  && Nat.eqb (length fp) f.

(** What [Math.random()] may return: a Number from +0 up to, and not
    including, 1. *)
Definition unitInterval (r : Number) : Prop :=
  exists q, r = Real q /\ (0 <= q)%Q /\ (q < 1)%Q.

(** The cards as [filterResources] leaves them, and the error that stopped
    it: a card without a title stops the loop, with the cards before it
    already written. *)
Fixpoint filteredCards (searchTerm filterType : string) (cards : list Card)
  : list Card * option Error :=
  match cards with
  | [] => ([], None)
  | c :: rest =>
      match cardTitle c with
      | None => (c :: rest, Some TypeError)
      | Some t =>
          let shown := includes (toLowerCase t) searchTerm
                       && matchesType filterType (dataType c) in
          let (rest', e) := filteredCards searchTerm filterType rest in
          (setDisplay (if shown then "block" else "none") c :: rest', e)
      end
  end.

(** Whether [filterResources] shows the card [c]. *)
Definition shownBy (searchTerm filterType : string) (c : Card) : bool :=
  match cardTitle c with
  | Some t => includes (toLowerCase t) searchTerm
              && matchesType filterType (dataType c)
  | None => false
  end.

(** A metric element after one round of [updateResourceMetrics] that drew
    [random] for it. *)
Definition tickElement (random : Number) (element : Metric) : Metric :=
  classListAdd "updated"
    (setTextContent
       (newValueOf (parseFloat (textContent element)) (fluctuationOf random))
       element).

(** The metric elements after one round, the [k]-th draw of the generator
    being the one for the first of them. *)
Fixpoint tickElements (prng : nat -> Number) (k : nat) (l : list Metric)
  : list Metric :=
  match l with
  | [] => []
  | element :: rest => tickElement (prng k) element :: tickElements prng (S k) rest
  end.

(** The text parses to a Number that is not NaN, not +Infinity and below
    10^21, the bound from which [toFixed] writes exponent notation. *)
Definition parsesBelowLimit (text : string) : Prop :=
  match parseFloat text with
  | NaN => False
  | Infinity neg => neg = true
  | NegZero => True
  | Real v => (v < inject_Z (10 ^ 21))%Q
  end.

(** The largest binary64 value below 10^21. *)
Definition maxFixed : Q := inject_Z (10 ^ 21 - 2 ^ 17).

Definition parsesUpToMaxFixed (text : string) : Prop :=
  match parseFloat text with
  | NaN => False
  | Infinity neg => neg = true
  | NegZero => True
  | Real v => (v <= maxFixed)%Q
  end.

(** The timer of the metric animation is in place, when there is a metric
    to animate. *)
Definition tickInstalled (s : State) : Prop :=
  metricElements s = [] \/
  nth_error (intervals s) 0 = Some (updateResourceMetricsFn, 10000).

(** The magnitude of a Number that came out of rounding. *)
Definition rounded (x : Number) : Prop :=
  match x with
  | Real v => exists a m, round64 a = Some m /\ (Qabs v == m)%Q
  | _ => True
  end.

Definition allMetricTexts (P : string -> Prop) (s : State) : Prop :=
  Forall (fun element => P (textContent element)) (metricElements s).

(** What a round of the metric animation needs of the page: draws of the
    generator in the unit interval, texts that parse up to [maxFixed], and
    the timer in place. *)
Definition metricsReady (s : State) : Prop :=
  (forall n, unitInterval (prng s n)) /\
  allMetricTexts parsesUpToMaxFixed s /\
  tickInstalled s.

(** And what a round leaves: decimals with one fraction digit. *)
Definition metricsShown (s : State) : Prop :=
  metricsReady s /\ allMetricTexts (fun t => isFixedDecimal 1 t = true) s.

(** The configuration the resource filter is written for: the search input
    and the category selector are on the page, and every card has a
    title. *)
Definition filterReady (s : State) : Prop :=
  searchInput s <> None /\ typeFilter s <> None /\
  forall c, In c (resourceCards s) -> cardTitle c <> None.

(** The elements whose events trigger the resource filter. *)
Definition isFilterTarget (t : Target) : bool :=
  match t with
  | HoursInputEl _ => false
  | _ => true
  end.

(** The listeners that run the resource filter. *)
Definition isFilterListener (l : Listener) : bool :=
  match l with
  | hoursInputFn _ => false
  | _ => true
  end.

(** Nothing the event loop ran has thrown. *)
Definition noError (log : list Ran) : Prop :=
  forall r, In r log ->
    match r with
    | RanListener _ e | RanCallback _ e => e = None
    end.

(** Reduction of the projections of a state that was built with the
    [with...] functions, and of nothing else. *)
Ltac state_simpl :=
  cbn [searchInput searchButton typeFilter resourceCards hoursInputs modals
       metricElements tooltips popovers bootstrap listeners intervals timeouts
       tooltipInstances popoverInstances prng randomCalls
       withSearchInput withTypeFilter withResourceCards withHoursInputs
       withModals withMetricElements withListeners withIntervals withTimeouts
       withTooltipInstances withPopoverInstances withRandomCalls fresh].

(** ** Example pages *)

Definition noRandom : nat -> Number := fun _ => Real (1 # 4).

(** Three cards, a search for "gpu" among the compute resources. *)
Definition catalogPage : State :=
  mkState (Some "GPU") true (Some "compute")
    [mkCard (Some "Fast gpu node") (Some "compute") "";
     mkCard (Some "GPU archive") (Some "storage") "block";
     mkCard (Some "Tape library") None ""]
    [] [] [] [] [] false [] [] [] [] [] noRandom 0.

(** A page with a search button and a category selector, and no search
    input. *)
Definition pageWithoutSearchInput : State :=
  mkState None true (Some "")
    [mkCard (Some "Fast gpu node") (Some "compute") ""]
    [] [] [] [] [] false [] [] [] [] [] noRandom 0.

(** A page whose second card has no [.card-title]. *)
Definition pageWithUntitledCard : State :=
  mkState (Some "") true (Some "")
    [mkCard (Some "Fast gpu node") (Some "compute") "";
     mkCard None (Some "compute") "";
     mkCard (Some "Tape library") (Some "storage") ""]
    [] [] [] [] [] false [] [] [] [] [] noRandom 0.

Definition clickSearch : Event := mkEvent SearchButtonEl click "".

(** A page with one hours field, in a modal with the info text [info] and
    an empty cost element. *)
Definition costPage (hours info : string) : State :=
  mkState None false None [] [mkHoursInput hours (Some 0%nat)]
    [mkModal (Some info) (Some "")]
    [] [] [] false [] [] [] [] [] noRandom 0.

(** A rate of 10^309 credits an hour, written out. *)
Definition hugeRate : string := String "1" (repeat "0" 309).

Definition hugeRateInfo : string := "Cost: " ++ hugeRate ++ " credits/hour".

(** A dashboard with the metrics of the given texts. *)
Definition dashboard (texts : list string) : State :=
  mkState None false None [] [] []
    (map (fun t => mkMetric t []) texts)
    [] [] false [] [] [] [] [] noRandom 0.

(** ** Further notions *)

(** The events the script has a listener for: a click of the search
    button, a keyup of the search input, a change of the category selector
    and an input of an hours field, each when its element is on the page. *)
Definition registered (s : State) (event : Event) : Prop :=
  match target event, type event with
  | SearchButtonEl, click => searchButton s = true
  | SearchInputEl, keyup => searchInput s <> None
  | TypeFilterEl, change => typeFilter s <> None
  | HoursInputEl i, input => (i < List.length (hoursInputs s))%nat
  | _, _ => False
  end.

Definition matches (event : Event) (entry : Target * EventType * Listener) : bool :=
  let '(t, ty, _) := entry in
  Target_eqb t (target event) && EventType_eqb ty (type event).

Definition keyupSearch (key : string) : Event := mkEvent SearchInputEl keyup key.

(** A catalog whose second card has no title, searched for "gpu". *)
Definition tornCatalog : State :=
  mkState (Some "gpu") true (Some "")
    [mkCard (Some "Fast GPU node") (Some "compute") "";
     mkCard None (Some "compute") "block";
     mkCard (Some "GPU archive") (Some "storage") ""]
    [] [] [] [] [] false [] [] [] [] [] noRandom 0.

(** The modal gives no rate: it has no [.alert-info], or the text of it
    holds no rate sentence. *)
Definition rateMissing (modal : Modal) : Prop :=
  match alertInfo modal with
  | None => True
  | Some info => forall pre num, ~ rateSentenceAfter pre num info
  end.

(** The call has thrown. *)
Definition throws {A} (r : Completion A) : Prop := snd (outcome r) <> None.

(** A page with the one hours field [this] and the modals [ms]. *)
Definition hoursPage (this : HoursInput) (ms : list Modal) : State :=
  mkState None false None [] [this] ms [] [] [] false [] [] [] [] [] noRandom 0.

(** The page after a search with the text [Q] in the search input and the
    category [F] selected. *)
Definition searchFor (Q F : string) (s : State) : State :=
  stateOf (filterResources (withTypeFilter (Some F) (withSearchInput (Some Q) s))).

(** What the script sets up at load and the part of the page it reads and
    never writes: the registered listeners, the interval timers, the
    tooltip and popover instances, which search elements there are, the
    titles and categories of the cards, the modal of each hours field, the
    info text of each modal and the presence of its cost element, and the
    number of the metric elements. *)
Definition fixedPart (s : State) :=
  (listeners s, intervals s, tooltipInstances s, popoverInstances s,
   (isSome (searchInput s), searchButton s, isSome (typeFilter s)),
   (map cardTitle (resourceCards s), map dataType (resourceCards s)),
   (map closestModal (hoursInputs s), map alertInfo (modals s),
    map (fun m => isSome (calculatedCost m)) (modals s)),
   List.length (metricElements s)).

(** The class list without the class of the highlight. *)
Definition withoutUpdated (classes : list string) : list string :=
  filter (fun d => negb ("updated" =? d)%string) classes.

Definition inputHours (i : nat) : Event := mkEvent (HoursInputEl i) input "".

(** ** Letter case, decimals and rounding in the terms of the specification *)





(** [a] rounded to [f] decimals, a half rounded up. *)
Definition roundedTo (f : nat) (a : Q) : Q :=
  (inject_Z (Qfloor (a * inject_Z (10 ^ Z.of_nat f) + (1 # 2)))
   / inject_Z (10 ^ Z.of_nat f))%Q.

(** [text] is the decimal with exactly [f] fraction digits for [v] rounded
    to [f] decimals, a half rounded away from zero: a minus sign when [v]
    is negative, at least one digit, a point and [f] digits. *)
Definition isDecimalOf (f : nat) (v : Q) (text : string) : Prop :=
  exists ip fp,
    text = (if Qle_bool 0 v then "" else "-") ++ ip ++ "." ++ fp /\
    ip <> "" /\ allDigits ip = true /\ allDigits fp = true /\
    length fp = f /\
    (MV ip fp 0 == roundedTo f (Qabs v))%Q.

(** [y] is [x] up to the rounding of binary64 arithmetic: within the
    relative error 2^-53, or within 2^-1075 of it near zero. *)
Definition uptoRounding (x y : Q) : Prop :=
  (Qabs (y - x) <= Qabs x / 2 ^ 53 + 2 ^ (-1075))%Q.

(** The numeral of 10^21, written out. *)
Definition sextillion : string := String "1" (repeat "0" 21).

(** ** Strings *)

Lemma startsWith_spec (s p : string) :
  startsWith s p = true <-> exists r, s = p ++ r.
Proof.
  revert s; induction p as [|a p IH]; intros s; simpl.
  - split; [intros _; now exists s | reflexivity].
  - destruct s as [|b s].
    + split; [discriminate | intros [r H]; discriminate].
    + rewrite andb_true_iff, Ascii.eqb_eq, IH. split.
      * intros [-> [r ->]]. now exists r.
      * intros [r H]. injection H as -> ->. split; [reflexivity | now exists r].
Qed.

Lemma startsWith_append (p r : string) : startsWith (p ++ r) p = true.
Proof. apply startsWith_spec. now exists r. Qed.

Lemma append_assoc (a b c : string) : (a ++ b) ++ c = a ++ b ++ c.
Proof. induction a; simpl; congruence. Qed.

Lemma append_nil_r (a : string) : a ++ "" = a.
Proof. induction a; simpl; congruence. Qed.

Lemma length_append (a b : string) :
  length (a ++ b) = (length a + length b)%nat.
Proof. induction a; simpl; congruence. Qed.

Lemma includes_spec (s t : string) : includes s t = true <-> occursIn t s.
Proof.
  unfold occursIn. induction s as [|c s IH].
  - simpl. rewrite orb_false_r, startsWith_spec. split.
    + intros [r H]. exists "", r. exact H.
    + intros [pre [post H]]. destruct pre; [now exists post | discriminate].
  - cbn [includes]. rewrite orb_true_iff, IH, startsWith_spec. split.
    + intros [[r H] | [pre [post H]]].
      * exists "", r. exact H.
      * exists (String c pre), post. simpl. now rewrite H.
    + intros [pre [post H]]. destruct pre as [|d pre].
      * left. now exists post.
      * right. simpl in H. injection H as _ H. now exists pre, post.
Qed.

(** ** The loop of the resource filter *)

Lemma state_eta (s : State) :
  mkState (searchInput s) (searchButton s) (typeFilter s) (resourceCards s)
    (hoursInputs s) (modals s) (metricElements s) (tooltips s) (popovers s)
    (bootstrap s) (listeners s) (intervals s) (timeouts s)
    (tooltipInstances s) (popoverInstances s) (prng s) (randomCalls s) = s.
Proof. now destruct s. Qed.

Lemma withResourceCards_same (s : State) : withResourceCards (resourceCards s) s = s.
Proof. apply state_eta. Qed.

Lemma updateNth_app {A} (f : A -> A) (pre : list A) (a : A) (rest : list A) :
  updateNth (List.length pre) f (pre ++ a :: rest)%list = (pre ++ f a :: rest)%list.
Proof. induction pre; simpl; congruence. Qed.

(** The loop over the cards that are left, the ones before them done. *)
Lemma forEach_filterCard (st ft : string) (todo : list Card) :
  forall (done : list Card) (s : State),
    resourceCards s = (done ++ todo)%list ->
    forEachFrom (List.length done) todo (filterCard st ft) s =
    match filteredCards st ft todo with
    | (todo', None) => Normal tt (withResourceCards (done ++ todo')%list s)
    | (todo', Some e) => Throw e (withResourceCards (done ++ todo')%list s)
    end.
Proof.
  induction todo as [|c todo IH]; intros done s Hs.
  - simpl. rewrite <- Hs, withResourceCards_same. reflexivity.
  - cbn [forEachFrom filteredCards]. unfold bind at 1. unfold filterCard at 1.
    destruct (cardTitle c) as [t|] eqn:Ht.
    + cbn [nonNull]. unfold bind at 1. cbn [ret].
      set (shown := includes (toLowerCase t) st && matchesType ft (dataType c)).
      set (c' := setDisplay (if shown then "block" else "none") c).
      assert (Hstep : (if shown
                       then modify (fun s0 => withResourceCards
                              (updateNth (List.length done) (setDisplay "block") (resourceCards s0)) s0)
                       else modify (fun s0 => withResourceCards
                              (updateNth (List.length done) (setDisplay "none") (resourceCards s0)) s0)) s
                      = Normal tt (withResourceCards (done ++ c' :: todo)%list s)).
      { unfold c'. destruct shown; unfold modify; rewrite Hs, updateNth_app; reflexivity. }
      rewrite Hstep.
      specialize (IH (done ++ [c'])%list (withResourceCards (done ++ c' :: todo)%list s)).
      rewrite length_app, Nat.add_1_r in IH. rewrite IH.
      * destruct (filteredCards st ft todo) as [todo' [e|]];
          rewrite <- app_assoc; reflexivity.
      * simpl. now rewrite <- app_assoc.
    + cbn [nonNull]. unfold bind, throw. rewrite <- Hs, withResourceCards_same.
      reflexivity.
Qed.

(** [filterResources] in closed form. *)
Lemma filterResources_eq (s : State) :
  filterResources s =
  match searchInput s, typeFilter s with
  | Some q, Some f =>
      match filteredCards (toLowerCase q) f (resourceCards s) with
      | (cards, None) => Normal tt (withResourceCards cards s)
      | (cards, Some e) => Throw e (withResourceCards cards s)
      end
  | _, _ => Throw TypeError s
  end.
Proof.
  unfold filterResources, bind, gets.
  destruct (searchInput s) as [q|]; [|reflexivity]. cbn [nonNull ret].
  destruct (typeFilter s) as [f|]; [|reflexivity]. cbn [nonNull ret].
  unfold forEach. apply (forEach_filterCard (toLowerCase q) f (resourceCards s) []).
  reflexivity.
Qed.

(** ** The resource filter *)

Lemma matchesType_spec (F : string) (ty : option string) :
  matchesType F ty = true <-> F = "" \/ ty = Some F.
Proof.
  unfold matchesType. rewrite orb_true_iff, String.eqb_eq.
  destruct ty as [t|].
  - rewrite String.eqb_eq. split; intros [H|H]; auto; [right; congruence|right; congruence].
  - split; intros [H|H]; auto; discriminate.
Qed.

Lemma filteredCards_titled (st ft : string) (cards : list Card) :
  (forall c, In c cards -> cardTitle c <> None) ->
  filteredCards st ft cards =
  (map (fun c => setDisplay (if shownBy st ft c then "block" else "none") c) cards,
   None).
Proof.
  induction cards as [|c cards IH]; intros H; [reflexivity|].
  cbn [filteredCards map]. unfold shownBy at 1.
  destruct (cardTitle c) as [t|] eqn:Ht.
  - rewrite IH by (intros d Hd; apply H; now right). reflexivity.
  - exfalso. apply (H c); [now left | exact Ht].
Qed.

Lemma filteredCards_idempotent (st ft : string) (cards : list Card) :
  filteredCards st ft (fst (filteredCards st ft cards)) = filteredCards st ft cards.
Proof.
  induction cards as [|c cards IH]; [reflexivity|].
  cbn [filteredCards]. destruct (cardTitle c) as [t|] eqn:Ht.
  - destruct (filteredCards st ft cards) as [rest' e] eqn:Hr.
    cbn [fst filteredCards setDisplay cardTitle dataType]. rewrite Ht.
    cbn [fst] in IH. rewrite IH. reflexivity.
  - cbn [fst filteredCards]. rewrite Ht. reflexivity.
Qed.

Example filterResources_catalog :
  map display (resourceCards (stateOf (filterResources catalogPage)))
  = ["block"; "none"; "none"].
Proof. reflexivity. Qed.

(** C6: a second run of [filterResources] with the same search text and
    category ends as the first did and leaves every card as the first left
    it. *)
Theorem filterResources_idempotent (s : State) :
  filterResources (stateOf (filterResources s)) = filterResources s.
Proof.
  rewrite (filterResources_eq s).
  destruct (searchInput s) as [q|] eqn:Hq.
  2:{ cbn [stateOf outcome fst]. rewrite filterResources_eq, Hq. reflexivity. }
  destruct (typeFilter s) as [f|] eqn:Hf.
  2:{ cbn [stateOf outcome fst]. rewrite filterResources_eq, Hq, Hf. reflexivity. }
  pose proof (filteredCards_idempotent (toLowerCase q) f (resourceCards s)) as Hi.
  destruct (filteredCards (toLowerCase q) f (resourceCards s)) as [cards e] eqn:Hc.
  cbn [fst] in Hi.
  assert (Hs : stateOf (match e with
                        | Some e0 => @Throw unit e0 (withResourceCards cards s)
                        | None => Normal tt (withResourceCards cards s)
                        end) = withResourceCards cards s) by now destruct e.
  rewrite Hs, filterResources_eq. cbn [withResourceCards searchInput typeFilter resourceCards].
  rewrite Hq, Hf, Hi. destruct e; reflexivity.
Qed.

(** ** The page after load *)

Lemma forEach_addEventListener {A} (l : list A) :
  forall (i : nat) (s : State),
    forEachFrom i l
      (fun _ k => addEventListener (HoursInputEl k) input (hoursInputFn k)) s
    = Normal tt
        (withListeners
           (listeners s
            ++ map (fun k => (HoursInputEl k, input, hoursInputFn k))
                   (seq i (List.length l)))%list s).
Proof.
  induction l as [|a l IH]; intros i s.
  - simpl. rewrite app_nil_r. unfold ret, withListeners. now rewrite state_eta.
  - cbn [forEachFrom]. unfold bind at 1. unfold addEventListener at 1, modify.
    rewrite IH. cbn [List.length seq map]. unfold withListeners. simpl.
    now rewrite <- app_assoc.
Qed.

Lemma forEach_newTooltip (l : list nat) :
  forall (i : nat) (s : State),
    forEachFrom i l (fun tooltip _ => newTooltip tooltip) s
    = Normal tt (withTooltipInstances (tooltipInstances s ++ l)%list s).
Proof.
  induction l as [|a l IH]; intros i s.
  - simpl. rewrite app_nil_r. unfold ret, withTooltipInstances. now rewrite state_eta.
  - cbn [forEachFrom]. unfold bind at 1. unfold newTooltip at 1, modify.
    rewrite IH. unfold withTooltipInstances. simpl. now rewrite <- app_assoc.
Qed.

Lemma forEach_newPopover (l : list nat) :
  forall (i : nat) (s : State),
    forEachFrom i l (fun popover _ => newPopover popover) s
    = Normal tt (withPopoverInstances (popoverInstances s ++ l)%list s).
Proof.
  induction l as [|a l IH]; intros i s.
  - simpl. rewrite app_nil_r. unfold ret, withPopoverInstances. now rewrite state_eta.
  - cbn [forEachFrom]. unfold bind at 1. unfold newPopover at 1, modify.
    rewrite IH. unfold withPopoverInstances. simpl. now rewrite <- app_assoc.
Qed.

(** The handler of DOMContentLoaded in closed form: it returns, and this is
    what it has registered and constructed. *)
Lemma DOMContentLoaded_eq (s : State) :
  DOMContentLoaded (fresh s) =
  Normal tt
    (mkState (searchInput s) (searchButton s) (typeFilter s) (resourceCards s)
       (hoursInputs s) (modals s) (metricElements s) (tooltips s) (popovers s)
       (bootstrap s)
       ((if searchButton s then [(SearchButtonEl, click, filterResourcesFn)] else [])
        ++ (if isSome (searchInput s) then [(SearchInputEl, keyup, enterKeyFn)] else [])
        ++ (if isSome (typeFilter s) then [(TypeFilterEl, change, filterResourcesFn)] else [])
        ++ map (fun k => (HoursInputEl k, input, hoursInputFn k))
               (seq 0 (List.length (hoursInputs s))))%list
       (if isNil (metricElements s) then [] else [(updateResourceMetricsFn, 10000)])
       []
       (if bootstrap s then tooltips s else [])
       (if bootstrap s then popovers s else [])
       (prng s) 0).
Proof.
  unfold DOMContentLoaded, forEach, bind, gets.
  destruct s as [si sb tf rc hi mo me tt' po bs ls iv tm ti pi pr rcalls].
  destruct sb, si as [q|], tf as [f|], me as [|m me], bs;
    repeat (state_simpl;
            cbn [when isSome isNil negb ret addEventListener setInterval modify app]);
    rewrite forEach_addEventListener;
    repeat (state_simpl;
            cbn [when isSome isNil negb ret addEventListener setInterval modify app]);
    rewrite ?forEach_newTooltip; state_simpl;
    rewrite ?forEach_newPopover; reflexivity.
Qed.

Lemma loaded_eq (s : State) :
  loaded s =
  mkState (searchInput s) (searchButton s) (typeFilter s) (resourceCards s)
    (hoursInputs s) (modals s) (metricElements s) (tooltips s) (popovers s)
    (bootstrap s)
    ((if searchButton s then [(SearchButtonEl, click, filterResourcesFn)] else [])
     ++ (if isSome (searchInput s) then [(SearchInputEl, keyup, enterKeyFn)] else [])
     ++ (if isSome (typeFilter s) then [(TypeFilterEl, change, filterResourcesFn)] else [])
     ++ map (fun k => (HoursInputEl k, input, hoursInputFn k))
            (seq 0 (List.length (hoursInputs s))))%list
    (if isNil (metricElements s) then [] else [(updateResourceMetricsFn, 10000)])
    []
    (if bootstrap s then tooltips s else [])
    (if bootstrap s then popovers s else [])
    (prng s) 0.
Proof. unfold loaded. now rewrite DOMContentLoaded_eq. Qed.

(** C9: the handler of DOMContentLoaded returns without an error; when the
    toolkit global is absent it constructs no tooltip and no popover, and
    when it is present it constructs one on every flagged element. *)
Theorem bootstrap_initialisation (s : State) :
  DOMContentLoaded (fresh s) = Normal tt (loaded s) /\
  (bootstrap s = false ->
   tooltipInstances (loaded s) = [] /\ popoverInstances (loaded s) = []) /\
  (bootstrap s = true ->
   tooltipInstances (loaded s) = tooltips s /\
   popoverInstances (loaded s) = popovers s).
Proof.
  rewrite loaded_eq. split; [apply DOMContentLoaded_eq|].
  cbn [tooltipInstances popoverInstances].
  split; intros ->; split; reflexivity.
Qed.

(** ** What the listeners leave alone *)

Lemma withModals_same (s : State) : withModals (modals s) s = s.
Proof. apply state_eta. Qed.

Lemma filterResources_frame (s : State) :
  exists cards, stateOf (filterResources s) = withResourceCards cards s.
Proof.
  rewrite filterResources_eq.
  destruct (searchInput s); [destruct (typeFilter s)|];
    try (exists (resourceCards s); now rewrite withResourceCards_same).
  destruct (filteredCards _ _ _) as [cards [e|]]; now exists cards.
Qed.

Lemma hoursInputListener_frame (i : nat) (s : State) :
  exists ms, stateOf (hoursInputListener i s) = withModals ms s.
Proof.
  unfold hoursInputListener, bind, gets.
  destruct (nth_error (hoursInputs s) i) as [this|];
    [|exists (modals s); now rewrite withModals_same].
  destruct (closest this s) as [[j modal]|];
    [|exists (modals s); now rewrite withModals_same].
  destruct (alertInfo modal) as [info|];
    [|exists (modals s); now rewrite withModals_same].
  cbn [nonNull ret]. destruct (RatePattern.exec info) as [groups|];
    [|exists (modals s); now rewrite withModals_same].
  cbn [nonNull ret]. destruct (calculatedCost modal);
    [|exists (modals s); now rewrite withModals_same].
  cbn [isSome when modify stateOf outcome fst]. eexists; reflexivity.
Qed.

Lemma callListener_frame (l : Listener) (event : Event) (s : State) :
  exists cards ms,
    stateOf (callListener l event s) = withResourceCards cards (withModals ms s).
Proof.
  destruct l as [| |i]; cbn [callListener].
  - destruct (filterResources_frame s) as [cards H]. exists cards, (modals s).
    now rewrite withModals_same.
  - destruct (key event =? "Enter")%string; cbn [when].
    + destruct (filterResources_frame s) as [cards H]. exists cards, (modals s).
      now rewrite withModals_same.
    + exists (resourceCards s), (modals s).
      now rewrite withModals_same, withResourceCards_same.
  - destruct (hoursInputListener_frame i s) as [ms H]. exists (resourceCards s), ms.
    rewrite H. now destruct s.
Qed.

Lemma outcome_stateOf {A} (r : Completion A) : fst (outcome r) = stateOf r.
Proof. reflexivity. Qed.

Lemma dispatchTo_frame (ls : list (Target * EventType * Listener)) (event : Event) :
  forall s, exists cards ms,
    fst (dispatchTo ls event s) = withResourceCards cards (withModals ms s) /\
    forall c e, ~ In (RanCallback c e) (snd (dispatchTo ls event s)).
Proof.
  induction ls as [|[[t ty] l] ls IH]; intros s.
  - exists (resourceCards s), (modals s). split; [now destruct s | intros c e []].
  - cbn [dispatchTo].
    destruct (Target_eqb t (target event) && EventType_eqb ty (type event)).
    + destruct (callListener_frame l event s) as [c1 [m1 H1]].
      unfold stateOf in H1.
      destruct (outcome (callListener l event s)) as [s1 err]. cbn [fst] in H1.
      destruct (IH s1) as [c2 [m2 [H2 Hlog]]].
      destruct (dispatchTo ls event s1) as [s2 log]. cbn [fst snd] in *.
      exists c2, m2. split; [now rewrite H2, H1|].
      intros c e [H|H]; [discriminate | exact (Hlog c e H)].
    + apply IH.
Qed.

(** ** The listeners of the loaded page *)

Lemma dispatchTo_nomatch (ls : list (Target * EventType * Listener)) (event : Event)
  (s : State) :
  (forall t ty l, In (t, ty, l) ls -> Target_eqb t (target event) = false) ->
  dispatchTo ls event s = (s, []).
Proof.
  induction ls as [|[[t ty] l] ls IH]; intros H; [reflexivity|].
  cbn [dispatchTo]. rewrite (H t ty l (or_introl eq_refl)). cbn [andb].
  apply IH. intros t0 ty0 l0 H0. apply (H t0 ty0 l0). now right.
Qed.

Lemma Target_eqb_eq (a b : Target) : Target_eqb a b = true -> a = b.
Proof.
  destruct a, b; cbn [Target_eqb]; try discriminate; try reflexivity.
  intros H. apply Nat.eqb_eq in H. now subst.
Qed.

(** The listeners of the loaded page, one at a time. *)
Lemma loaded_listeners (s : State) (t : Target) (ty : EventType) (l : Listener) :
  In (t, ty, l) (listeners (loaded s)) ->
  (t = SearchButtonEl /\ l = filterResourcesFn /\ searchButton s = true) \/
  (t = SearchInputEl /\ l = enterKeyFn /\ searchInput s <> None) \/
  (t = TypeFilterEl /\ l = filterResourcesFn /\ typeFilter s <> None) \/
  (exists k, t = HoursInputEl k /\ l = hoursInputFn k).
Proof.
  rewrite loaded_eq. cbn [listeners]. rewrite !in_app_iff.
  intros [H|[H|[H|H]]].
  - destruct (searchButton s); [|contradiction].
    destruct H as [H|[]]. injection H as <- _ <-. auto.
  - destruct (searchInput s); [|contradiction].
    destruct H as [H|[]]. injection H as <- _ <-. right; left. repeat split. discriminate.
  - destruct (typeFilter s); [|contradiction].
    destruct H as [H|[]]. injection H as <- _ <-. right; right; left.
    repeat split. discriminate.
  - apply in_map_iff in H as [k [H _]]. injection H as <- _ <-.
    right; right; right. now exists k.
Qed.

Lemma Target_eqb_refl (t : Target) : Target_eqb t t = true.
Proof. destruct t; cbn [Target_eqb]; try reflexivity. apply Nat.eqb_refl. Qed.

Lemma dispatchTo_hoursInputs (l : list nat) (i : nat) (event : Event) :
  target event = HoursInputEl i -> type event = input ->
  NoDup l -> In i l ->
  forall s,
    dispatchTo (map (fun k => (HoursInputEl k, input, hoursInputFn k)) l) event s
    = (stateOf (hoursInputListener i s),
       [RanListener (hoursInputFn i) (snd (outcome (hoursInputListener i s)))]).
Proof.
  intros Ht Hy. induction l as [|a l IH]; intros Hnd Hin s; [contradiction|].
  apply NoDup_cons_iff in Hnd as [Hna Hnd]. cbn [map dispatchTo].
  rewrite Ht, Hy. cbn [Target_eqb EventType_eqb].
  destruct (Nat.eqb a i) eqn:E; cbn [andb].
  - apply Nat.eqb_eq in E. subst a. cbn [callListener]. unfold stateOf.
    destruct (outcome (hoursInputListener i s)) as [s1 err]. cbn [fst snd].
    rewrite dispatchTo_nomatch; [reflexivity|].
    intros t ty0 l0 H. apply in_map_iff in H as [k [H Hk]]. injection H as <- _ _.
    rewrite Ht. cbn [Target_eqb]. apply Nat.eqb_neq. intros ->. contradiction.
  - apply IH; [exact Hnd|].
    destruct Hin as [->|Hin]; [|exact Hin]. rewrite Nat.eqb_refl in E. discriminate.
Qed.

(** An input event of the [i]-th hours field of the loaded page runs the
    listener of that field, and nothing else. *)
Lemma input_event_runs_listener (s : State) (i : nat) (key : string) :
  (i < List.length (hoursInputs s))%nat ->
  step (Dispatch (mkEvent (HoursInputEl i) input key)) (loaded s)
  = (stateOf (hoursInputListener i (loaded s)),
     [RanListener (hoursInputFn i)
        (snd (outcome (hoursInputListener i (loaded s))))]).
Proof.
  intros Hi. cbn [step]. unfold dispatchEvent.
  set (event := mkEvent (HoursInputEl i) input key).
  assert (Hl : listeners (loaded s)
               = (((if searchButton s then [(SearchButtonEl, click, filterResourcesFn)] else [])
                   ++ (if isSome (searchInput s) then [(SearchInputEl, keyup, enterKeyFn)] else [])
                   ++ (if isSome (typeFilter s) then [(TypeFilterEl, change, filterResourcesFn)] else []))
                  ++ map (fun k => (HoursInputEl k, input, hoursInputFn k))
                         (seq 0 (List.length (hoursInputs s))))%list).
  { rewrite loaded_eq. cbn [listeners]. now rewrite <- !app_assoc. }
  rewrite Hl. generalize (loaded s). intros s1.
  assert (Happ : forall l1 l2 s0,
             (forall t ty l, In (t, ty, l) l1 -> Target_eqb t (target event) = false) ->
             dispatchTo (l1 ++ l2)%list event s0 = dispatchTo l2 event s0).
  { induction l1 as [|[[t ty] l] l1 IH]; intros l2 s0 H; [reflexivity|].
    cbn [app dispatchTo]. rewrite (H t ty l (or_introl eq_refl)). cbn [andb].
    apply IH. intros t0 ty0 l0 H0. apply (H t0 ty0 l0). now right. }
  rewrite Happ.
  - apply dispatchTo_hoursInputs; [reflexivity | reflexivity | apply seq_NoDup |].
    apply in_seq. lia.
  - intros t ty l. rewrite !in_app_iff.
    destruct (searchButton s), (isSome (searchInput s)), (isSome (typeFilter s));
      cbn [In]; intros H; repeat (destruct H as [H|H]; try contradiction);
      injection H as <- _ _; reflexivity.
Qed.

(** ** The timer of the metric animation *)

Lemma step_without_timers (a : Action) (s : State) :
  intervals s = [] -> timeouts s = [] ->
  intervals (fst (step a s)) = [] /\ timeouts (fst (step a s)) = [] /\
  forall c e, ~ In (RanCallback c e) (snd (step a s)).
Proof.
  intros Hi Ht. destruct a as [event|k|k|text|category|i text]; cbn [step].
  - unfold dispatchEvent.
    destruct (dispatchTo_frame (listeners s) event s) as [cards [ms [H Hlog]]].
    rewrite H. cbn [withResourceCards withModals intervals timeouts]. auto.
  - rewrite Hi. destruct k; cbn [nth_error fst snd]; repeat split; auto.
  - rewrite Ht. destruct k; cbn [nth_error fst snd]; repeat split; auto.
  - destruct (searchInput s); cbn [fst snd withSearchInput intervals timeouts];
      repeat split; auto.
  - destruct (typeFilter s); cbn [fst snd withTypeFilter intervals timeouts];
      repeat split; auto.
  - cbn [fst snd withHoursInputs intervals timeouts]; repeat split; auto.
Qed.

Lemma run_without_timers (actions : list Action) :
  forall s, intervals s = [] -> timeouts s = [] ->
    forall c e, ~ In (RanCallback c e) (snd (run actions s)).
Proof.
  induction actions as [|a actions IH]; intros s Hi Ht c e; [intros []|].
  cbn [run]. destruct (step_without_timers a s Hi Ht) as [Hi' [Ht' Hlog]].
  destruct (step a s) as [s1 log1]. cbn [fst snd] in *.
  specialize (IH s1 Hi' Ht' c e).
  destruct (run actions s1) as [s2 log2]. cbn [snd] in *.
  rewrite in_app_iff. intros [H|H]; [exact (Hlog c e H) | exact (IH H)].
Qed.

(** C8: after load the list of interval timers holds
    [updateResourceMetrics], every 10000 ms, exactly when the page has a
    metric element; on a page with none, nothing that happens afterwards
    makes the event loop run [updateResourceMetrics]. *)
Theorem metric_timer_installed (s : State) :
  (In (updateResourceMetricsFn, 10000) (intervals (loaded s))
   <-> metricElements s <> []) /\
  (forall actions e,
      metricElements s = [] ->
      ~ In (RanCallback updateResourceMetricsFn e) (snd (run actions (loaded s)))).
Proof.
  split.
  - rewrite loaded_eq. cbn [intervals].
    destruct (metricElements s); cbn [isNil]; split.
    + intros [].
    + intros H; now contradiction H.
    + discriminate.
    + intros _. now left.
  - intros actions e H. apply run_without_timers; rewrite loaded_eq; cbn [intervals timeouts].
    + now rewrite H.
    + reflexivity.
Qed.

(** ** The rate pattern *)

Lemma spanDigits_spec (s : string) :
  forall d r, spanDigits s = (d, r) ->
    s = d ++ r /\ allDigits d = true /\ headNotDigit r.
Proof.
  induction s as [|c s IH]; intros d r H; simpl in H.
  - injection H as <- <-. repeat split.
  - destruct (isDigit c) eqn:Hc.
    + destruct (spanDigits s) as [d' r'] eqn:Hs. injection H as <- <-.
      destruct (IH d' r' eq_refl) as [-> [Hd Hr]].
      cbn [allDigits append]. rewrite Hc. auto.
    + injection H as <- <-. cbn [allDigits append headNotDigit]. auto.
Qed.

Lemma spanDigits_append (d r : string) :
  allDigits d = true -> headNotDigit r -> spanDigits (d ++ r) = (d, r).
Proof.
  intros Hd Hr. induction d as [|c d IH]; cbn [allDigits append spanDigits] in *.
  - destruct r as [|c r]; [reflexivity|]. cbn [headNotDigit spanDigits] in *.
    now rewrite Hr.
  - apply andb_true_iff in Hd as [Hc Hd]. now rewrite Hc, IH.
Qed.

Lemma isEmpty_spec (s : string) : isEmpty s = true <-> s = "".
Proof. destruct s; simpl; split; congruence. Qed.

Lemma isEmpty_false (s : string) : isEmpty s = false <-> s <> "".
Proof. destruct s; simpl; split; congruence. Qed.

Lemma matchHere_sound (s m : string) :
  RatePattern.matchHere s = Some m ->
  exists ip fp rest,
    isNumeral m ip fp /\ s = "Cost: " ++ m ++ " credits/hour" ++ rest.
Proof.
  unfold RatePattern.matchHere.
  destruct (startsWith s "Cost: ") eqn:Hc; [|discriminate].
  apply startsWith_spec in Hc as [r0 ->]. cbn [drop append].
  destruct (spanDigits r0) as [ip r1] eqn:Hs.
  apply spanDigits_spec in Hs as [-> [Hip Hr1]].
  destruct (isEmpty ip) eqn:He; [discriminate|]. apply isEmpty_false in He.
  assert (Hplain : (if startsWith r1 " credits/hour" then Some ip else None) = Some m ->
                   exists ip0 fp rest, isNumeral m ip0 fp /\
                     "Cost: " ++ ip ++ r1 = "Cost: " ++ m ++ " credits/hour" ++ rest).
  { destruct (startsWith r1 " credits/hour") eqn:Ht; [|discriminate].
    intros H; injection H as <-. apply startsWith_spec in Ht as [rest ->].
    exists ip, "", rest. split; [|reflexivity].
    repeat split; auto. }
  destruct (startsWith r1 ".") eqn:Hdot; [|exact Hplain].
  apply startsWith_spec in Hdot as [r2 ->]. cbn [drop append].
  destruct (spanDigits r2) as [fp r3] eqn:Hs2.
  apply spanDigits_spec in Hs2 as [-> [Hfp Hr3]].
  destruct (negb (isEmpty fp) && startsWith r3 " credits/hour") eqn:Hg; [|exact Hplain].
  apply andb_true_iff in Hg as [Hne Ht]. apply negb_true_iff, isEmpty_false in Hne.
  apply startsWith_spec in Ht as [rest ->].
  intros H; injection H as <-. exists ip, fp, rest. split.
  - repeat split; auto.
  - cbn [append]. now rewrite !append_assoc.
Qed.

Lemma headNotDigit_credits (rest : string) :
  headNotDigit (" credits/hour" ++ rest).
Proof. reflexivity. Qed.

Lemma matchHere_Cost (r0 : string) :
  RatePattern.matchHere ("Cost: " ++ r0) =
  let (ip, r1) := spanDigits r0 in
  if isEmpty ip then None
  else
    let withGroup :=
      if startsWith r1 "." then
        let (fp, r3) := spanDigits (drop 1 r1) in
        if negb (isEmpty fp) && startsWith r3 " credits/hour"
        then Some (ip ++ "." ++ fp) else None
      else None in
    match withGroup with
    | Some m => Some m
    | None => if startsWith r1 " credits/hour" then Some ip else None
    end.
Proof. reflexivity. Qed.

Lemma matchHere_complete (m ip fp rest : string) :
  isNumeral m ip fp ->
  RatePattern.matchHere ("Cost: " ++ m ++ " credits/hour" ++ rest) = Some m.
Proof.
  intros [Hne [Hip [Hfp [[-> ->]|[Hfne ->]]]]]; rewrite matchHere_Cost;
    apply isEmpty_false in Hne.
  - rewrite (spanDigits_append ip _ Hip (headNotDigit_credits rest)), Hne.
    rewrite startsWith_append. reflexivity.
  - rewrite !append_assoc.
    rewrite (spanDigits_append ip ("." ++ fp ++ " credits/hour" ++ rest) Hip eq_refl).
    rewrite Hne, startsWith_append.
    change (drop 1 ("." ++ fp ++ " credits/hour" ++ rest))
      with (fp ++ " credits/hour" ++ rest).
    rewrite (spanDigits_append fp _ Hfp (headNotDigit_credits rest)).
    apply isEmpty_false in Hfne. rewrite Hfne, startsWith_append. reflexivity.
Qed.

(** A match of the pattern is a rate sentence of the text. *)
Lemma exec_sound (s m : string) :
  RatePattern.exec s = Some m -> exists pre, rateSentenceAfter pre m s.
Proof.
  induction s as [|c s IH]; cbn [RatePattern.exec].
  - destruct (RatePattern.matchHere "") eqn:H; [|discriminate].
    intros E; injection E as ->. apply matchHere_sound in H as [ip [fp [rest [Hn H]]]].
    exists "", ip, fp, rest. auto.
  - destruct (RatePattern.matchHere (String c s)) eqn:H.
    + intros E; injection E as ->. apply matchHere_sound in H as [ip [fp [rest [Hn H]]]].
      exists "", ip, fp, rest. auto.
    + intros E. destruct (IH E) as [pre [ip [fp [rest [Hn H']]]]].
      exists (String c pre), ip, fp, rest. split; [exact Hn|]. simpl. now rewrite H'.
Qed.

(** A text without a rate sentence has no match. *)
Lemma exec_none (s : string) :
  (forall pre num, ~ rateSentenceAfter pre num s) -> RatePattern.exec s = None.
Proof.
  intros H. destruct (RatePattern.exec s) as [m|] eqn:E; [|reflexivity].
  destruct (exec_sound s m E) as [pre Hp]. now contradiction (H pre m).
Qed.

(** The numeral of a rate sentence is determined by where it starts. *)
Lemma rateSentence_unique (pre num num' s : string) :
  rateSentenceAfter pre num s -> rateSentenceAfter pre num' s -> num = num'.
Proof.
  intros [ip [fp [rest [Hn H]]]] [ip' [fp' [rest' [Hn' H']]]].
  assert (E : RatePattern.matchHere ("Cost: " ++ num ++ " credits/hour" ++ rest)
              = RatePattern.matchHere ("Cost: " ++ num' ++ " credits/hour" ++ rest')).
  { f_equal. rewrite H in H'. clear -H'. induction pre; simpl in H'; [exact H'|].
    injection H' as H'. auto. }
  rewrite (matchHere_complete _ _ _ _ Hn), (matchHere_complete _ _ _ _ Hn') in E.
  congruence.
Qed.

(** The match of the pattern is the first rate sentence of the text. *)
Lemma exec_complete (s num : string) :
  firstRateSentence s num -> RatePattern.exec s = Some num.
Proof.
  intros [pre [Hat Hfirst]]. revert s Hat Hfirst.
  induction pre as [|c pre IH]; intros s Hat Hfirst.
  - destruct Hat as [ip [fp [rest [Hn ->]]]]. cbn [append].
    assert (E := matchHere_complete _ _ _ rest Hn).
    cbn [append] in E. destruct num; cbn [RatePattern.exec append]; cbn [append] in E;
      now rewrite E.
  - assert (Hs : exists s', s = String c s' /\ rateSentenceAfter pre num s').
    { destruct Hat as [ip [fp [rest [Hn ->]]]]. eexists. split; [reflexivity|].
      exists ip, fp, rest. auto. }
    destruct Hs as [s' [-> Hat']]. cbn [RatePattern.exec].
    destruct (RatePattern.matchHere (String c s')) as [m|] eqn:Hm.
    + exfalso. apply matchHere_sound in Hm as [ip [fp [rest [Hn H]]]].
      assert (Hl := Hfirst "" m). cbn [length] in Hl.
      assert (S (length pre) <= 0)%nat; [|lia].
      apply Hl. exists ip, fp, rest. auto.
    + apply IH; [exact Hat'|]. intros pre' num' [ip [fp [rest [Hn H]]]].
      assert (Hl := Hfirst (String c pre') num'). cbn [length] in Hl.
      apply le_S_n, Hl. exists ip, fp, rest. split; [exact Hn|]. simpl. now rewrite H.
Qed.

(** A text with a rate sentence has a match. *)
Lemma exec_some (pre num s : string) :
  rateSentenceAfter pre num s -> RatePattern.exec s <> None.
Proof.
  revert s. induction pre as [|c pre IH]; intros s [ip [fp [rest [Hn ->]]]].
  - cbn [append]. pose proof (matchHere_complete _ _ _ rest Hn) as E.
    cbn [append] in E. cbn [RatePattern.exec]. now rewrite E.
  - cbn [append RatePattern.exec].
    destruct (RatePattern.matchHere _); [discriminate|].
    apply IH. exists ip, fp, rest. auto.
Qed.

(** ** The cost calculator without a rate *)

Lemma hoursInputListener_throws
  (s : State) (i j : nat) (this : HoursInput) (modal : Modal) (info : string) :
  nth_error (hoursInputs s) i = Some this ->
  closest this s = Some (j, modal) ->
  alertInfo modal = Some info ->
  (forall pre num, ~ rateSentenceAfter pre num info) ->
  hoursInputListener i s = Throw TypeError s.
Proof.
  intros Hi Hc Ha Hn. unfold hoursInputListener, bind, gets.
  rewrite Hi, Hc, Ha. cbn [nonNull ret]. rewrite (exec_none info Hn). reflexivity.
Qed.

(** C3: when the text of the info element of the modal holds no rate
    sentence, the listener of the hours field throws a TypeError, and the
    page, the text of the cost element included, is as it was; on the
    loaded page an input event of the field runs that listener alone, so
    that the error reaches the event loop. *)
Theorem hours_input_without_rate_throws
  (s : State) (i j : nat) (this : HoursInput) (modal : Modal) (info : string) :
  nth_error (hoursInputs s) i = Some this ->
  closest this s = Some (j, modal) ->
  alertInfo modal = Some info ->
  (forall pre num, ~ rateSentenceAfter pre num info) ->
  hoursInputListener i s = Throw TypeError s /\
  forall key,
    step (Dispatch (mkEvent (HoursInputEl i) input key)) (loaded s)
    = (loaded s, [RanListener (hoursInputFn i) (Some TypeError)]).
Proof.
  intros Hi Hc Ha Hn.
  split; [exact (hoursInputListener_throws s i j this modal info Hi Hc Ha Hn)|].
  intros key. rewrite input_event_runs_listener
    by (apply nth_error_Some; congruence).
  rewrite (hoursInputListener_throws (loaded s) i j this modal info);
    [reflexivity | | | exact Ha | exact Hn]; rewrite loaded_eq.
  - exact Hi.
  - exact Hc.
Qed.

(** A modal whose info text asks to call for the price. *)
Lemma hours_input_without_rate_throws_example :
  hoursInputListener 0 (costPage "3" "Call us for the price")
  = Throw TypeError (costPage "3" "Call us for the price").
Proof.
  refine (proj1 (hours_input_without_rate_throws
                   (costPage "3" "Call us for the price")
                   0%nat 0%nat (mkHoursInput "3" (Some 0%nat))
                   (mkModal (Some "Call us for the price") (Some ""))
                   "Call us for the price" eq_refl eq_refl eq_refl _)).
  intros pre num H. apply exec_some in H. apply H. vm_compute. reflexivity.
Defined.

(** ** Rounding to the nearest binary64 value *)

Section Rounding.
Local Open Scope Q_scope.

Lemma two_pow_pos (e : Z) : 0 < 2 ^ e.
Proof. apply Qpower_0_lt. reflexivity. Qed.

Lemma two_pow_add (a b : Z) : 2 ^ (a + b) == 2 ^ a * 2 ^ b.
Proof. apply Qpower_plus. discriminate. Qed.

Lemma two_pow_le (a b : Z) : (a <= b)%Z -> 2 ^ a <= 2 ^ b.
Proof. intros H. apply Qpower_le_compat_l; [exact H | discriminate]. Qed.

Lemma two_pow_lt (a b : Z) : (a < b)%Z -> 2 ^ a < 2 ^ b.
Proof. intros H. apply Qpower_lt_compat_l; [exact H | reflexivity]. Qed.

Lemma two_pow_inject (n : Z) : (0 <= n)%Z -> inject_Z (2 ^ n) == 2 ^ n.
Proof. intros H. now rewrite Zpower_Qpower. Qed.

Lemma rne_mono (a b : Q) : a <= b -> (rne a <= rne b)%Z.
Proof.
  intros H. unfold rne.
  pose proof (Qfloor_resp_le a b H) as Hf.
  pose proof (Qfloor_le a) as Ha1. pose proof (Qlt_floor a) as Ha2.
  pose proof (Qfloor_le b) as Hb1. pose proof (Qlt_floor b) as Hb2.
  rewrite inject_Z_plus in Ha2, Hb2.
  destruct (Z.eq_dec (Qfloor a) (Qfloor b)) as [E|E].
  - rewrite <- E in *.
    destruct (Qcompare_spec (a - inject_Z (Qfloor a)) (1 # 2));
      destruct (Qcompare_spec (b - inject_Z (Qfloor a)) (1 # 2));
      try destruct (Z.even (Qfloor a)); try lia; exfalso; lra.
  - destruct (a - inject_Z (Qfloor a) ?= 1 # 2);
      destruct (b - inject_Z (Qfloor b) ?= 1 # 2);
      try destruct (Z.even (Qfloor a)); try destruct (Z.even (Qfloor b)); lia.
Qed.

Lemma rne_inject (z : Z) : rne (inject_Z z) = z.
Proof.
  unfold rne. rewrite Qfloor_Z.
  destruct (Qcompare_spec (inject_Z z - inject_Z z) (1 # 2)); [| reflexivity |];
    exfalso; lra.
Qed.

Lemma rne_le_inject (a : Q) (k : Z) : a <= inject_Z k -> (rne a <= k)%Z.
Proof. intros H. rewrite <- (rne_inject k). now apply rne_mono. Qed.

Lemma rne_ge_inject (a : Q) (k : Z) : inject_Z k <= a -> (k <= rne a)%Z.
Proof. intros H. rewrite <- (rne_inject k). now apply rne_mono. Qed.

Lemma ilog2_spec (q : Q) :
  0 < q -> 2 ^ ilog2 q <= q /\ q < 2 ^ (ilog2 q + 1).
Proof.
  destruct q as [n d]. intros Hq.
  assert (Hn : (0 < n)%Z).
  { unfold Qlt in Hq. simpl in Hq. lia. }
  unfold ilog2. cbn [Qnum Qden].
  set (la := Z.log2 n). set (lb := Z.log2 (Zpos d)).
  assert (Hla : (0 <= la)%Z) by apply Z.log2_nonneg.
  assert (Hlb : (0 <= lb)%Z) by apply Z.log2_nonneg.
  destruct (Z.log2_spec n Hn) as [Hn1 Hn2]. fold la in Hn1, Hn2.
  destruct (Z.log2_spec (Zpos d) eq_refl) as [Hd1 Hd2]. fold lb in Hd1, Hd2.
  rewrite Zle_Qle, two_pow_inject in Hn1, Hd1 by lia.
  rewrite Zlt_Qlt, two_pow_inject in Hn2, Hd2 by lia.
  rewrite <- Z.add_1_r in Hn2, Hd2.
  assert (HD : 0 < inject_Z (Zpos d)) by reflexivity.
  assert (Hq' : n # d == inject_Z n / inject_Z (Zpos d)) by apply Qmake_Qdiv.
  pose proof (two_pow_pos (la - lb)) as Hp0.
  pose proof (two_pow_pos (la - lb - 1)) as Hp1.
  pose proof (two_pow_pos (la - lb + 1)) as Hp2.
  destruct (Qle_bool (2 ^ (la - lb)) (n # d)) eqn:Hb.
  - apply Qle_bool_iff in Hb. split; [exact Hb|].
    rewrite Hq'. apply Qlt_shift_div_r; [exact HD|].
    apply Qlt_le_trans with (2 ^ (la + 1)); [exact Hn2|].
    replace (la + 1)%Z with ((la - lb + 1) + lb)%Z by ring.
    rewrite two_pow_add. apply Qmult_le_l; assumption.
  - assert (Hlt : n # d < 2 ^ (la - lb)).
    { apply Qnot_le_lt. intros H. apply Qle_bool_iff in H. congruence. }
    split.
    + rewrite Hq'. apply Qle_shift_div_l; [exact HD|].
      apply Qle_trans with (2 ^ la); [|exact Hn1].
      replace la with ((la - lb - 1) + (lb + 1))%Z at 2 by ring.
      rewrite two_pow_add. apply Qmult_le_l; [assumption|]. now apply Qlt_le_weak.
    + now replace (la - lb - 1 + 1)%Z with (la - lb)%Z by ring.
Qed.

Lemma ilog2_mono (a b : Q) : 0 < a -> a <= b -> (ilog2 a <= ilog2 b)%Z.
Proof.
  intros Ha Hab.
  destruct (ilog2_spec a Ha) as [Ha1 _].
  destruct (ilog2_spec b (Qlt_le_trans _ _ _ Ha Hab)) as [_ Hb2].
  destruct (Z_le_gt_dec (ilog2 a) (ilog2 b)) as [H|H]; [exact H|].
  exfalso. assert (Hp : 2 ^ (ilog2 b + 1) <= 2 ^ ilog2 a) by (apply two_pow_le; lia).
  lra.
Qed.

(** The rounded magnitude before the test for overflow. *)
Lemma rounded_mono (a b : Q) :
  0 < a -> a <= b ->
  inject_Z (rne (a / 2 ^ ulp_exp a)) * 2 ^ ulp_exp a
  <= inject_Z (rne (b / 2 ^ ulp_exp b)) * 2 ^ ulp_exp b.
Proof.
  intros Ha Hab. assert (Hb : 0 < b) by lra.
  pose proof (ilog2_mono a b Ha Hab) as Hl.
  destruct (ilog2_spec a Ha) as [_ Ha2]. destruct (ilog2_spec b Hb) as [Hb1 _].
  set (ea := ulp_exp a) in *. set (eb := ulp_exp b) in *.
  pose proof (two_pow_pos ea) as Hpa. pose proof (two_pow_pos eb) as Hpb.
  assert (Hee : (ea <= eb)%Z) by (unfold ea, eb, ulp_exp; lia).
  destruct (Z.eq_dec ea eb) as [E|E].
  - rewrite <- E in *. apply Qmult_le_compat_r; [|lra].
    rewrite <- Zle_Qle. apply rne_mono.
    apply Qmult_le_compat_r; [exact Hab|]. apply Qlt_le_weak, Qinv_lt_0_compat, Hpa.
  - assert (H1 : (rne (a / 2 ^ ea) <= 2 ^ 53)%Z).
    { apply rne_le_inject. rewrite two_pow_inject by lia.
      apply Qlt_le_weak, Qlt_shift_div_r; [exact Hpa|].
      rewrite <- two_pow_add. apply Qlt_le_trans with (2 ^ (ilog2 a + 1)); [exact Ha2|].
      apply two_pow_le. unfold ea, ulp_exp. lia. }
    assert (H2 : (2 ^ 52 <= rne (b / 2 ^ eb))%Z).
    { apply rne_ge_inject. rewrite two_pow_inject by lia.
      apply Qle_shift_div_l; [exact Hpb|].
      rewrite <- two_pow_add. apply Qle_trans with (2 ^ ilog2 b); [|exact Hb1].
      apply two_pow_le. unfold ea, eb, ulp_exp in *. lia. }
    rewrite Zle_Qle, two_pow_inject in H1, H2 by lia.
    apply Qle_trans with (2 ^ 53 * 2 ^ ea).
    { apply Qmult_le_compat_r; [exact H1 | lra]. }
    apply Qle_trans with (2 ^ 52 * 2 ^ eb).
    { rewrite <- !two_pow_add. apply two_pow_le. lia. }
    apply Qmult_le_compat_r; [exact H2 | lra].
Qed.

Lemma rounded_nonneg (a : Q) :
  0 < a -> 0 <= inject_Z (rne (a / 2 ^ ulp_exp a)) * 2 ^ ulp_exp a.
Proof.
  intros Ha. pose proof (two_pow_pos (ulp_exp a)) as Hp.
  apply Qmult_le_0_compat; [|lra].
  change 0 with (inject_Z 0). rewrite <- Zle_Qle. apply rne_ge_inject.
  change (inject_Z 0) with 0. apply Qle_shift_div_l; [exact Hp | lra].
Qed.

Lemma Some_eq {A : Type} (x y : A) : Some x = Some y -> x = y.
Proof. congruence. Qed.

Lemma round64_nonneg (a m : Q) : round64 a = Some m -> 0 <= m.
Proof.
  unfold round64. cbv zeta. destruct (Qle_bool a 0) eqn:Ha.
  - intros H; injection H as <-. lra.
  - match goal with |- context [if ?c then None else _] => destruct c end;
      [discriminate|].
    intros H. apply Some_eq in H. subst m.
    rewrite Qred_correct. apply rounded_nonneg.
    apply Qnot_le_lt. intros H. apply Qle_bool_iff in H. congruence.
Qed.

(** Rounding is monotone, and what is below a finite value is finite. *)
Lemma round64_mono (a b mb : Q) :
  a <= b -> round64 b = Some mb ->
  exists ma, round64 a = Some ma /\ 0 <= ma /\ ma <= mb.
Proof.
  intros Hab Hb. pose proof (round64_nonneg b mb Hb) as Hmb.
  unfold round64 in *. cbv zeta in *. destruct (Qle_bool a 0) eqn:Ha.
  - exists 0. repeat split; [lra | exact Hmb].
  - assert (Ha' : 0 < a).
    { apply Qnot_le_lt. intros H. apply Qle_bool_iff in H. congruence. }
    destruct (Qle_bool b 0) eqn:Hb0.
    { apply Qle_bool_iff in Hb0. exfalso. lra. }
    pose proof (rounded_mono a b Ha' Hab) as Hm.
    pose proof (rounded_nonneg a Ha') as Hn.
    destruct (Qle_bool (2 ^ 1024) (inject_Z (rne (b / 2 ^ ulp_exp b)) * 2 ^ ulp_exp b))
      eqn:Ho; [discriminate|].
    apply Some_eq in Hb. subst mb.
    assert (Ho' : ~ 2 ^ 1024 <= inject_Z (rne (b / 2 ^ ulp_exp b)) * 2 ^ ulp_exp b).
    { intros H. apply Qle_bool_iff in H. congruence. }
    destruct (Qle_bool (2 ^ 1024) (inject_Z (rne (a / 2 ^ ulp_exp a)) * 2 ^ ulp_exp a))
      eqn:Hoa.
    { apply Qle_bool_iff in Hoa. exfalso. apply Ho'. lra. }
    eexists. split; [reflexivity|]. rewrite !Qred_correct. split; assumption.
Qed.

End Rounding.

(** ** Bounds on the results of the arithmetic *)

Section Arithmetic.
Local Open Scope Q_scope.

Lemma signed_finite (neg : bool) (m : Q) : isFinite (signed neg (Some m)) = true.
Proof. unfold signed. destruct neg; [destruct (Qeq_bool m 0)|]; reflexivity. Qed.

Lemma signed_real (neg : bool) (m : Q) :
  realOf (signed neg (Some m)) == if neg then - m else m.
Proof.
  unfold signed. destruct neg; [|reflexivity].
  destruct (Qeq_bool m 0) eqn:E; [|reflexivity].
  apply Qeq_bool_iff in E. cbn [realOf]. lra.
Qed.

Lemma signed_abs (neg : bool) (m : Q) :
  0 <= m -> Qabs (realOf (signed neg (Some m))) == m.
Proof.
  intros Hm. rewrite signed_real. destruct neg.
  - rewrite Qabs_opp. now apply Qabs_pos.
  - now apply Qabs_pos.
Qed.

(** A real within [B] of zero rounds to a Number within the rounding of
    [B] of zero. *)
Lemma F_abs_le (x B mB : Q) :
  Qabs x <= B -> round64 B = Some mB ->
  isFinite (F x) = true /\ Qabs (realOf (F x)) <= mB.
Proof.
  intros Hx HB. destruct (round64_mono _ _ _ Hx HB) as [ma [Ha [H0 Hle]]].
  unfold F. rewrite Ha. split; [apply signed_finite|].
  now rewrite signed_abs.
Qed.

Lemma multiply_finite (x y : Number) :
  isFinite x = true -> isFinite y = true ->
  multiply x y =
  signed (xorb (isNegative x) (isNegative y))
         (round64 (Qabs (realOf x) * Qabs (realOf y))).
Proof. destruct x, y; try discriminate; reflexivity. Qed.

Lemma multiply_abs_le (x y : Number) (B mB : Q) :
  isFinite x = true -> isFinite y = true ->
  Qabs (realOf x) * Qabs (realOf y) <= B -> round64 B = Some mB ->
  isFinite (multiply x y) = true /\ Qabs (realOf (multiply x y)) <= mB.
Proof.
  intros Hx Hy Hxy HB. rewrite multiply_finite by assumption.
  destruct (round64_mono _ _ _ Hxy HB) as [ma [Ha [H0 Hle]]].
  rewrite Ha. split; [apply signed_finite|]. now rewrite signed_abs.
Qed.

Lemma round64_half : round64 (1 # 2) = Some (1 # 2).
Proof. vm_compute. reflexivity. Qed.

Lemma round64_five : round64 5 = Some 5.
Proof. vm_compute. reflexivity. Qed.

(** The fluctuation [(Math.random() - 0.5) * 10] lies between -5 and 5. *)
Lemma fluctuation_bounds (r : Number) :
  unitInterval r ->
  isFinite (fluctuationOf r) = true /\
  -5 <= realOf (fluctuationOf r) /\ realOf (fluctuationOf r) <= 5.
Proof.
  intros [q [-> [H0 H1]]]. unfold fluctuationOf.
  assert (Hs : subtract (Real q) (Real (1 # 2)) = F (q + - (1 # 2))) by reflexivity.
  rewrite Hs.
  assert (Hq : Qabs (q + - (1 # 2)) <= 1 # 2) by (apply Qabs_Qle_condition; lra).
  destruct (F_abs_le _ _ _ Hq round64_half) as [Hf Hb].
  assert (Hm : Qabs (realOf (F (q + - (1 # 2)))) * Qabs (realOf (Real 10)) <= 5).
  { change (Qabs (realOf (Real 10))) with 10. lra. }
  destruct (multiply_abs_le _ (Real 10) _ _ Hf eq_refl Hm round64_five) as [Hf' Hb'].
  split; [exact Hf'|]. apply Qabs_Qle_condition in Hb'. exact Hb'.
Qed.

Lemma Math_max_zero (y : Number) :
  y <> NaN ->
  Math_max [Real 0; y] = if lessThan (Real 0) y then y else Real 0.
Proof. destruct y as [|[]| |v]; intros H; try reflexivity. now contradiction H. Qed.

(** The Number value for a negative real is not above zero. *)
Lemma F_negative (x : Q) : x < 0 -> lessThan (Real 0) (F x) = false /\ F x <> NaN.
Proof.
  intros Hx. unfold F.
  assert (Hn : Qle_bool 0 x = false).
  { destruct (Qle_bool 0 x) eqn:E; [|reflexivity]. apply Qle_bool_iff in E. lra. }
  rewrite Hn. cbn [negb].
  destruct (round64 (Qabs x)) as [m|] eqn:Hr; cbn [signed].
  - apply round64_nonneg in Hr. destruct (Qeq_bool m 0).
    + split; [reflexivity | discriminate].
    + split; [|discriminate]. cbn [lessThan realOf].
      apply negb_false_iff, Qle_bool_iff. lra.
  - split; [reflexivity | discriminate].
Qed.

End Arithmetic.

(** ** Digits *)

Lemma digitChar_spec (d : Z) :
  0 <= d < 10 -> isDigit (digitChar d) = true /\ digitValue (digitChar d) = d.
Proof.
  intros H.
  assert (E : d = 0 \/ d = 1 \/ d = 2 \/ d = 3 \/ d = 4 \/ d = 5 \/ d = 6
              \/ d = 7 \/ d = 8 \/ d = 9) by lia.
  repeat (destruct E as [->|E]; [split; reflexivity|]). subst d. split; reflexivity.
Qed.

Lemma digit_neq (c d : ascii) :
  isDigit c = true -> isDigit d = false -> Ascii.eqb d c = false.
Proof.
  intros Hc Hd. destruct (Ascii.eqb d c) eqn:E; [|reflexivity].
  apply Ascii.eqb_eq in E. congruence.
Qed.

Lemma allDigits_append (a b : string) :
  allDigits (a ++ b) = allDigits a && allDigits b.
Proof.
  induction a as [|c a IH]; [reflexivity|]. cbn [append allDigits].
  now rewrite IH, andb_assoc.
Qed.

Lemma valueFrom_append (b : Z) (dv : ascii -> Z) (s t : string) :
  forall acc, valueFrom b dv acc (s ++ t) = valueFrom b dv (valueFrom b dv acc s) t.
Proof. induction s as [|c s IH]; intros acc; [reflexivity|]. apply IH. Qed.

Lemma valueFrom_acc (b : Z) (dv : ascii -> Z) (s : string) :
  forall acc,
    valueFrom b dv acc s = acc * b ^ Z.of_nat (length s) + valueFrom b dv 0 s.
Proof.
  induction s as [|c s IH]; intros acc.
  - cbn [valueFrom length]. change (b ^ Z.of_nat 0) with 1. ring.
  - cbn [valueFrom length]. rewrite IH, (IH (b * 0 + dv c)).
    rewrite Nat2Z.inj_succ, Z.pow_succ_r by lia. ring.
Qed.

Lemma digitsValue_append (a b : string) :
  digitsValue (a ++ b) = digitsValue a * 10 ^ Z.of_nat (length b) + digitsValue b.
Proof.
  unfold digitsValue. now rewrite valueFrom_append, valueFrom_acc.
Qed.

Lemma toDigitsFuel_spec (fuel : nat) :
  forall n acc, 0 <= n < 2 ^ Z.of_nat (S fuel) ->
    exists ds, toDigitsFuel (S fuel) n acc = ds ++ acc /\ ds <> "" /\
               allDigits ds = true /\ digitsValue ds = n.
Proof.
  induction fuel as [|k IH]; intros n acc Hn.
  - change (2 ^ Z.of_nat 1) with 2 in Hn.
    cbn [toDigitsFuel]. assert (Hlt : (n <? 10) = true) by (apply Z.ltb_lt; lia).
    rewrite Hlt. rewrite Z.mod_small by lia.
    destruct (digitChar_spec n) as [Hd Hv]; [lia|].
    exists (String (digitChar n) ""). repeat split; [discriminate | |].
    + cbn [allDigits]. now rewrite Hd.
    + unfold digitsValue. cbn [valueFrom]. lia.
  - remember (S k) as fuel' eqn:Ef. cbn [toDigitsFuel].
    destruct (Z.mod_pos_bound n 10 eq_refl) as [Hm0 Hm1].
    destruct (digitChar_spec (n mod 10)) as [Hd Hv]; [lia|].
    destruct (n <? 10) eqn:Hlt.
    + apply Z.ltb_lt in Hlt. rewrite Z.mod_small in * by lia.
      exists (String (digitChar n) ""). repeat split; [discriminate | |].
      * cbn [allDigits]. now rewrite Hd.
      * unfold digitsValue. cbn [valueFrom]. lia.
    + apply Z.ltb_ge in Hlt.
      assert (Hq : 0 <= n / 10 < 2 ^ Z.of_nat (S k)).
      { split; [apply Z.div_pos; lia|].
        apply Z.div_lt_upper_bound; [lia|].
        rewrite Ef in Hn. rewrite (Nat2Z.inj_succ (S k)), Z.pow_succ_r in Hn by lia.
        lia. }
      subst fuel'. destruct (IH (n / 10) (String (digitChar (n mod 10)) acc) Hq)
        as [ds [E [Hne [Had Hdv]]]].
      exists (ds ++ String (digitChar (n mod 10)) ""). rewrite E. repeat split.
      * now rewrite append_assoc.
      * destruct ds; [congruence | discriminate].
      * rewrite allDigits_append, Had. cbn [allDigits]. now rewrite Hd.
      * rewrite digitsValue_append, Hdv. unfold digitsValue at 1. cbn [valueFrom length].
        rewrite Hv. change (10 ^ Z.of_nat 1) with 10.
        rewrite (Z.div_mod n 10) at 3 by lia. ring.
Qed.

(** The digits of a non-negative integer: there is one at least, and they
    denote the integer. *)
Lemma toDigits_spec (n : Z) :
  0 <= n ->
  toDigits n <> "" /\ allDigits (toDigits n) = true /\ digitsValue (toDigits n) = n.
Proof.
  intros Hn. unfold toDigits.
  assert (Hb : 0 <= n < 2 ^ Z.of_nat (S (Z.to_nat (Z.log2 n)))).
  { split; [exact Hn|]. rewrite Nat2Z.inj_succ, Z2Nat.id by apply Z.log2_nonneg.
    destruct (Z.eq_dec n 0) as [->|Hz]; [reflexivity|].
    apply Z.log2_spec. lia. }
  destruct (toDigitsFuel_spec _ n "" Hb) as [ds [E [Hne [Had Hdv]]]].
  rewrite E, append_nil_r. auto.
Qed.

Lemma take_drop (k : nat) (s : string) : take k s ++ drop k s = s.
Proof.
  revert s; induction k as [|k IH]; intros s; [reflexivity|].
  destruct s as [|c s]; [reflexivity|]. cbn [take drop append]. now rewrite IH.
Qed.

Lemma length_drop (k : nat) (s : string) : length (drop k s) = (length s - k)%nat.
Proof.
  revert s; induction k as [|k IH]; intros s; cbn [drop]; [lia|].
  destruct s as [|c s]; [reflexivity|]. cbn [length]. now rewrite IH.
Qed.

Lemma length_repeat (c : ascii) (n : nat) : length (repeat c n) = n.
Proof. induction n; cbn [repeat length]; congruence. Qed.

Lemma allDigits_repeat_zero (n : nat) : allDigits (repeat "0" n) = true.
Proof. induction n; [reflexivity|]. cbn [repeat allDigits]. now rewrite IHn. Qed.

Lemma digitsValue_repeat_zero (n : nat) : digitsValue (repeat "0" n) = 0.
Proof.
  induction n; [reflexivity|]. unfold digitsValue in *. cbn [repeat valueFrom]. exact IHn.
Qed.

(** [fixedDigits]: digits, a point and [f] digits, which denote [n]
    counted in units of 10^-f. *)
Lemma fixedDigits_spec (f : nat) (n : Z) :
  0 <= n ->
  exists ip fp,
    fixedDigits (S f) n = ip ++ "." ++ fp /\
    ip <> "" /\ allDigits ip = true /\ allDigits fp = true /\
    length fp = S f /\
    digitsValue ip * 10 ^ Z.of_nat (S f) + digitsValue fp = n.
Proof.
  intros Hn. destruct (toDigits_spec n Hn) as [Hne [Had Hdv]].
  unfold fixedDigits.
  set (m := if (length (toDigits n) <=? S f)%nat
            then repeat "0" (S f + 1 - length (toDigits n)) ++ toDigits n
            else toDigits n).
  assert (Hm : allDigits m = true /\ digitsValue m = n /\ (S f < length m)%nat).
  { unfold m. destruct (length (toDigits n) <=? S f)%nat eqn:E.
    - apply Nat.leb_le in E. repeat split.
      + now rewrite allDigits_append, allDigits_repeat_zero.
      + rewrite digitsValue_append, digitsValue_repeat_zero. lia.
      + rewrite length_append, length_repeat.
        assert (length (toDigits n) <> 0)%nat by (destruct (toDigits n); [congruence | discriminate]).
        lia.
    - apply Nat.leb_gt in E. auto. }
  destruct Hm as [Hmd [Hmv Hml]].
  exists (take (length m - S f) m), (drop (length m - S f) m).
  pose proof (take_drop (length m - S f) m) as Htd.
  assert (Hlen : length (drop (length m - S f) m) = S f)
    by (rewrite length_drop; lia).
  rewrite <- Htd in Hmd, Hmv at 1. rewrite allDigits_append in Hmd.
  apply andb_true_iff in Hmd as [Hd1 Hd2].
  rewrite digitsValue_append, Hlen in Hmv.
  repeat split; auto.
  intros E. rewrite E in Htd. cbn [append] in Htd.
  rewrite <- Htd, Hlen in Hml. lia.
Qed.

Lemma startsWith_digit_head (ip r : string) (p : ascii) :
  ip <> "" -> allDigits ip = true -> isDigit p = false ->
  startsWith (ip ++ r) (String p "") = false.
Proof.
  intros Hne Had Hp. destruct ip as [|c ip]; [congruence|].
  cbn [allDigits] in Had. apply andb_true_iff in Had as [Hc _].
  cbn [append startsWith]. now rewrite (digit_neq c p Hc Hp).
Qed.

Lemma isFixedDecimal_intro (f : nat) (ip fp : string) :
  ip <> "" -> allDigits ip = true -> allDigits fp = true -> length fp = f ->
  isFixedDecimal f (ip ++ "." ++ fp) = true /\
  isFixedDecimal f ("-" ++ ip ++ "." ++ fp) = true.
Proof.
  intros Hne Hip Hfp Hlen.
  assert (Hspan : spanDigits (ip ++ "." ++ fp) = (ip, "." ++ fp))
    by (apply spanDigits_append; [exact Hip | reflexivity]).
  assert (Hchk : negb (isEmpty ip) && startsWith ("." ++ fp) "."
                 && allDigits (drop 1 ("." ++ fp))
                 && Nat.eqb (length (drop 1 ("." ++ fp))) f = true).
  { apply isEmpty_false in Hne. rewrite Hne. cbn [negb andb drop append startsWith].
    rewrite Ascii.eqb_refl, Hfp. cbn [andb]. now apply Nat.eqb_eq. }
  split; unfold isFixedDecimal.
  - rewrite (startsWith_digit_head ip _ "-" Hne Hip eq_refl), Hspan. exact Hchk.
  - change (startsWith ("-" ++ ip ++ "." ++ fp) "-") with true. cbv iota.
    change (drop 1 ("-" ++ ip ++ "." ++ fp)) with (ip ++ "." ++ fp).
    rewrite Hspan. exact Hchk.
Qed.

(** ** Parsing numerals, and what [toFixed] writes *)

Lemma startsWith_digit_head' (ip r q : string) (p : ascii) :
  ip <> "" -> allDigits ip = true -> isDigit p = false ->
  startsWith (ip ++ r) (String p q) = false.
Proof.
  intros Hne Had Hp. destruct ip as [|c ip]; [congruence|].
  cbn [allDigits] in Had. apply andb_true_iff in Had as [Hc _].
  cbn [append startsWith]. now rewrite (digit_neq c p Hc Hp).
Qed.

Lemma digit_not_space (c : ascii) : isDigit c = true -> isWhiteSpace c = false.
Proof.
  unfold isDigit, isWhiteSpace. intros H.
  apply andb_true_iff in H as [H1 H2]. apply Z.leb_le in H1, H2.
  destruct (Z.leb_spec 9 (code c)), (Z.leb_spec (code c) 13),
    (Z.eqb_spec (code c) 32), (Z.eqb_spec (code c) 160); try reflexivity; lia.
Qed.

Lemma trimStart_digit_head (ip r : string) :
  ip <> "" -> allDigits ip = true -> trimStart (ip ++ r) = ip ++ r.
Proof.
  intros Hne Had. destruct ip as [|c ip]; [congruence|].
  cbn [allDigits] in Had. apply andb_true_iff in Had as [Hc _].
  cbn [append trimStart]. now rewrite (digit_not_space c Hc).
Qed.

(** A numeral [ip.fp] scans as a whole, to the Number value for the
    rational it denotes. *)
Lemma scanUnsigned_fraction (ip fp : string) :
  ip <> "" -> allDigits ip = true -> allDigits fp = true ->
  scanUnsigned (ip ++ "." ++ fp) = Some (F (MV ip fp 0), "").
Proof.
  intros Hne Hip Hfp. unfold scanUnsigned.
  rewrite (startsWith_digit_head' ip _ _ "I" Hne Hip eq_refl).
  rewrite (spanDigits_append ip ("." ++ fp) Hip eq_refl).
  change (startsWith ("." ++ fp) ".") with true. cbv iota.
  change (drop 1 ("." ++ fp)) with fp.
  rewrite <- (append_nil_r fp) at 1.
  rewrite (spanDigits_append fp "" Hfp I).
  apply isEmpty_false in Hne. rewrite Hne. reflexivity.
Qed.

Lemma scanUnsigned_integer (ip : string) :
  ip <> "" -> allDigits ip = true ->
  scanUnsigned ip = Some (F (MV ip "" 0), "").
Proof.
  intros Hne Hip.
  assert (H : scanUnsigned (ip ++ "") = Some (F (MV ip "" 0), "")).
  { unfold scanUnsigned.
    rewrite (startsWith_digit_head' ip _ _ "I" Hne Hip eq_refl).
    rewrite (spanDigits_append ip "" Hip I).
    apply isEmpty_false in Hne. rewrite Hne. reflexivity. }
  now rewrite append_nil_r in H.
Qed.

Lemma parseFloat_fraction (ip fp : string) :
  ip <> "" -> allDigits ip = true -> allDigits fp = true ->
  parseFloat (ip ++ "." ++ fp) = F (MV ip fp 0).
Proof.
  intros Hne Hip Hfp. unfold parseFloat, scanStrDecimalLiteral.
  rewrite (trimStart_digit_head ip _ Hne Hip).
  rewrite (startsWith_digit_head' ip _ _ "+" Hne Hip eq_refl).
  rewrite (startsWith_digit_head' ip _ _ "-" Hne Hip eq_refl).
  now rewrite scanUnsigned_fraction.
Qed.

Lemma parseFloat_integer (ip : string) :
  ip <> "" -> allDigits ip = true -> parseFloat ip = F (MV ip "" 0).
Proof.
  intros Hne Hip.
  assert (H : parseFloat (ip ++ "") = F (MV ip "" 0)).
  { unfold parseFloat, scanStrDecimalLiteral.
    rewrite (trimStart_digit_head ip _ Hne Hip).
    rewrite (startsWith_digit_head' ip _ _ "+" Hne Hip eq_refl).
    rewrite (startsWith_digit_head' ip _ _ "-" Hne Hip eq_refl).
    rewrite append_nil_r. now rewrite scanUnsigned_integer. }
  now rewrite append_nil_r in H.
Qed.

(** [parseFloat] of the numeral of a rate sentence. *)
Lemma parseFloat_numeral (num ip fp : string) :
  isNumeral num ip fp -> parseFloat num = F (MV ip fp 0).
Proof.
  intros [Hne [Hip [Hfp [[-> ->]|[_ ->]]]]].
  - now apply parseFloat_integer.
  - now apply parseFloat_fraction.
Qed.

Section Formatting.
Local Open Scope Q_scope.

Lemma MV_fixed (ip fp : string) (f : nat) (n : Z) :
  length fp = f ->
  (digitsValue ip * 10 ^ Z.of_nat f + digitsValue fp = n)%Z ->
  MV ip fp 0 == inject_Z n / inject_Z (10 ^ Z.of_nat f).
Proof.
  intros Hl Hn. unfold MV. rewrite Hl, <- Hn.
  assert (Hp : (0 < 10 ^ Z.of_nat f)%Z) by (apply Z.pow_pos_nonneg; lia).
  assert (Hq : ~ inject_Z (10 ^ Z.of_nat f) == 0).
  { intros E. unfold Qeq in E. cbn [Qnum Qden inject_Z] in E. lia. }
  rewrite inject_Z_plus, inject_Z_mult. change (10 ^ 0) with 1. field. exact Hq.
Qed.

(** What [toFixed] writes for a finite Number below 10^21 in magnitude is
    a decimal with exactly the fraction digits asked for. *)
Lemma toFixed_isFixedDecimal (f : nat) (v : Q) :
  Qabs v < inject_Z (10 ^ 21) ->
  isFixedDecimal (S f) (toFixed (S f) (Real v)) = true.
Proof.
  intros Hv. unfold toFixed.
  assert (Hb : Qle_bool (inject_Z (10 ^ 21)) (Qabs v) = false).
  { destruct (Qle_bool _ _) eqn:E; [|reflexivity]. apply Qle_bool_iff in E. lra. }
  rewrite Hb.
  assert (Hn : (0 <= Qfloor (Qabs v * inject_Z (10 ^ Z.of_nat (S f)) + (1 # 2)))%Z).
  { change 0%Z with (Qfloor 0). apply Qfloor_resp_le.
    pose proof (Qabs_nonneg v).
    assert (0 <= inject_Z (10 ^ Z.of_nat (S f))).
    { change 0 with (inject_Z 0). rewrite <- Zle_Qle. apply Z.pow_nonneg. lia. }
    assert (0 <= Qabs v * inject_Z (10 ^ Z.of_nat (S f))) by now apply Qmult_le_0_compat.
    lra. }
  destruct (fixedDigits_spec f _ Hn) as [ip [fp [E [Hne [Hip [Hfp [Hl _]]]]]]].
  rewrite E. destruct (isFixedDecimal_intro (S f) ip fp Hne Hip Hfp Hl) as [H1 H2].
  destruct (Qle_bool 0 v); [exact H1 | exact H2].
Qed.

Lemma toFixed_NegZero (f : nat) : isFixedDecimal (S f) (toFixed (S f) NegZero) = true.
Proof.
  cbn [toFixed].
  destruct (fixedDigits_spec f 0 (Z.le_refl 0)) as [ip [fp [E [Hne [Hip [Hfp [Hl _]]]]]]].
  rewrite E. now destruct (isFixedDecimal_intro (S f) ip fp Hne Hip Hfp Hl).
Qed.

(** Reading back what [toFixed(1)] wrote for a Number from 0 to 10^21:
    the Number value for a rational that is not negative and at most a
    twentieth above. *)
Lemma parseFloat_toFixed1 (v : Q) :
  0 <= v -> v < inject_Z (10 ^ 21) ->
  exists q, parseFloat (toFixed 1 (Real v)) = F q /\ 0 <= q /\ q <= v + (1 # 20).
Proof.
  intros H0 Hv. unfold toFixed.
  assert (Ha : Qabs v == v) by now apply Qabs_pos.
  assert (Hb : Qle_bool (inject_Z (10 ^ 21)) (Qabs v) = false).
  { destruct (Qle_bool _ _) eqn:E; [|reflexivity]. apply Qle_bool_iff in E. lra. }
  assert (Hs : Qle_bool 0 v = true) by now apply Qle_bool_iff.
  rewrite Hb, Hs. cbn [append].
  set (n := Qfloor (Qabs v * inject_Z (10 ^ Z.of_nat 1) + (1 # 2))).
  assert (Hn : (0 <= n)%Z).
  { change 0%Z with (Qfloor 0). apply Qfloor_resp_le.
    change (inject_Z (10 ^ Z.of_nat 1)) with 10. lra. }
  assert (Hn2 : inject_Z n <= v * 10 + (1 # 2)).
  { unfold n. eapply Qle_trans; [apply Qfloor_le|].
    change (inject_Z (10 ^ Z.of_nat 1)) with 10. lra. }
  destruct (fixedDigits_spec 0 n Hn) as [ip [fp [E [Hne [Hip [Hfp [Hl Hval]]]]]]].
  rewrite E, (parseFloat_fraction ip fp Hne Hip Hfp).
  exists (MV ip fp 0). split; [reflexivity|].
  rewrite (MV_fixed ip fp 1 n Hl Hval).
  change (inject_Z (10 ^ Z.of_nat 1)) with 10.
  assert (0 <= inject_Z n) by (change 0 with (inject_Z 0); now rewrite <- Zle_Qle).
  split.
  - apply Qle_shift_div_l; [reflexivity | lra].
  - apply Qle_shift_div_r; [reflexivity | lra].
Qed.

End Formatting.

(** ** The cost calculator *)

Lemma firstRateSentence_head (num ip fp rest : string) :
  isNumeral num ip fp ->
  firstRateSentence ("Cost: " ++ num ++ " credits/hour" ++ rest) num.
Proof.
  intros Hn. exists "". split.
  - exists ip, fp, rest. auto.
  - intros pre' num' _. cbn [length]. lia.
Qed.

(** The listener of the hours field in closed form, for a modal with a rate
    sentence and a cost element. *)
Lemma hoursInputListener_eq
  (s : State) (i j : nat) (this : HoursInput) (modal : Modal)
  (info num ip fp old : string) :
  nth_error (hoursInputs s) i = Some this ->
  closest this s = Some (j, modal) ->
  alertInfo modal = Some info ->
  firstRateSentence info num ->
  isNumeral num ip fp ->
  calculatedCost modal = Some old ->
  hoursInputListener i s =
  Normal tt
    (withModals
       (updateNth j
          (setCost ("Total cost: "
                    ++ toFixed 2 (multiply (StringToNumber (hoursValue this))
                                           (F (MV ip fp 0)))
                    ++ " credits"))
          (modals s)) s).
Proof.
  intros Hi Hc Ha Hf Hn Ho. unfold hoursInputListener, bind, gets.
  rewrite Hi, Hc, Ha. cbn [nonNull ret]. rewrite (exec_complete info num Hf).
  cbn [nonNull ret]. rewrite Ho, (parseFloat_numeral num ip fp Hn). reflexivity.
Qed.

(** ** The cost calculator with the field cleared *)

(** C10, at a rate too large for a finite Number: the numeral 10^309 makes
    the rate Infinity, the product with the 0 of the cleared field NaN. *)
Lemma cleared_hours_with_huge_rate :
  firstRateSentence hugeRateInfo hugeRate /\
  modals (stateOf (hoursInputListener 0 (costPage "" hugeRateInfo)))
  = [mkModal (Some hugeRateInfo) (Some "Total cost: NaN credits")].
Proof.
  split.
  - apply (firstRateSentence_head hugeRate hugeRate "" "").
    split; [discriminate|]. split; [vm_compute; reflexivity|].
    split; [reflexivity | now left].
  - vm_compute. reflexivity.
Qed.

Lemma multiply_zero (r : Number) :
  isFinite r = true -> toFixed 2 (multiply (StringToNumber "") r) = "0.00".
Proof.
  intros Hr. change (StringToNumber "") with (Real 0).
  rewrite multiply_finite by (exact Hr || reflexivity).
  assert (H : round64 (Qabs (realOf (Real 0)) * Qabs (realOf r)) = Some 0%Q).
  { unfold round64.
    assert (E : Qle_bool (Qabs (realOf (Real 0)) * Qabs (realOf r)) 0 = true).
    { apply Qle_bool_iff. cbn [realOf]. change (Qabs 0) with 0%Q. lra. }
    now rewrite E. }
  rewrite H. destruct (xorb _ _); reflexivity.
Qed.

(** C10 as amended: with the field cleared, a rate sentence whose rate is a
    finite Number and a cost element, the text of the cost element becomes
    'Total cost: 0.00 credits'. *)
Theorem cleared_hours_input_writes_zero
  (s : State) (i j : nat) (this : HoursInput) (modal : Modal)
  (info num ip fp old : string) :
  nth_error (hoursInputs s) i = Some this ->
  hoursValue this = "" ->
  closest this s = Some (j, modal) ->
  alertInfo modal = Some info ->
  firstRateSentence info num ->
  isNumeral num ip fp ->
  isFinite (F (MV ip fp 0)) = true ->
  calculatedCost modal = Some old ->
  hoursInputListener i s =
  Normal tt
    (withModals (updateNth j (setCost "Total cost: 0.00 credits") (modals s)) s).
Proof.
  intros Hi Hv Hc Ha Hf Hn Hfin Ho.
  rewrite (hoursInputListener_eq s i j this modal info num ip fp old Hi Hc Ha Hf Hn Ho).
  rewrite Hv, (multiply_zero _ Hfin). reflexivity.
Qed.

(** The field cleared at 'Cost: 4 credits/hour'. *)
Lemma cleared_hours_input_writes_zero_example :
  hoursInputListener 0 (costPage "" "Cost: 4 credits/hour")
  = Normal tt
      (withModals
         (updateNth 0 (setCost "Total cost: 0.00 credits")
            (modals (costPage "" "Cost: 4 credits/hour")))
         (costPage "" "Cost: 4 credits/hour")).
Proof.
  assert (Hn : isNumeral "4" "4" "").
  { split; [discriminate|]. split; [reflexivity|]. split; [reflexivity | now left]. }
  refine (cleared_hours_input_writes_zero
            (costPage "" "Cost: 4 credits/hour") 0%nat 0%nat
            (mkHoursInput "" (Some 0%nat))
            (mkModal (Some "Cost: 4 credits/hour") (Some ""))
            "Cost: 4 credits/hour" "4" "4" "" ""
            eq_refl eq_refl eq_refl eq_refl _ Hn _ eq_refl).
  - exact (firstRateSentence_head "4" "4" "" "" Hn).
  - vm_compute. reflexivity.
Defined.

(** ** One round of the metric animation *)

Lemma forEach_updateElement (todo : list Metric) :
  forall (done : list Metric) (s : State),
    metricElements s = (done ++ todo)%list ->
    forEachFrom (List.length done) todo updateElement s =
    Normal tt
      (mkState (searchInput s) (searchButton s) (typeFilter s) (resourceCards s)
         (hoursInputs s) (modals s)
         (done ++ tickElements (prng s) (randomCalls s) todo)%list
         (tooltips s) (popovers s) (bootstrap s) (listeners s) (intervals s)
         (timeouts s
          ++ map (fun i => (removeUpdatedFn i, 1000))
                 (seq (List.length done) (List.length todo)))%list
         (tooltipInstances s) (popoverInstances s) (prng s)
         (randomCalls s + List.length todo)).
Proof.
  induction todo as [|el todo IH]; intros done s Hs.
  - cbn [forEachFrom ret List.length seq map tickElements].
    rewrite app_nil_r in Hs. rewrite !app_nil_r, Nat.add_0_r, <- Hs.
    now rewrite state_eta.
  - cbn [forEachFrom]. unfold bind at 1.
    assert (Hstep : updateElement el (List.length done) s =
                    Normal tt
                      (mkState (searchInput s) (searchButton s) (typeFilter s)
                         (resourceCards s) (hoursInputs s) (modals s)
                         (done ++ tickElement (prng s (randomCalls s)) el :: todo)%list
                         (tooltips s) (popovers s) (bootstrap s) (listeners s)
                         (intervals s)
                         (timeouts s ++ [(removeUpdatedFn (List.length done), 1000)])%list
                         (tooltipInstances s) (popoverInstances s) (prng s)
                         (S (randomCalls s)))).
    { unfold updateElement, bind, Math_random, updateMetric, modify, setTimeout.
      state_simpl. rewrite Hs, updateNth_app, updateNth_app. reflexivity. }
    rewrite Hstep.
    specialize (IH (done ++ [tickElement (prng s (randomCalls s)) el])%list).
    rewrite length_app, Nat.add_1_r in IH. rewrite IH.
    + state_simpl. cbn [List.length seq map tickElements].
      rewrite <- !app_assoc. cbn [app]. do 2 f_equal. lia.
    + state_simpl. now rewrite <- app_assoc.
Qed.

(** [updateResourceMetrics] in closed form: it returns, having drawn one
    random number for each metric element, written its text, and set a
    timeout for its class. *)
Lemma updateResourceMetrics_eq (s : State) :
  updateResourceMetrics s =
  Normal tt
    (mkState (searchInput s) (searchButton s) (typeFilter s) (resourceCards s)
       (hoursInputs s) (modals s)
       (tickElements (prng s) (randomCalls s) (metricElements s))
       (tooltips s) (popovers s) (bootstrap s) (listeners s) (intervals s)
       (timeouts s
        ++ map (fun i => (removeUpdatedFn i, 1000))
               (seq 0 (List.length (metricElements s))))%list
       (tooltipInstances s) (popoverInstances s) (prng s)
       (randomCalls s + List.length (metricElements s))).
Proof.
  unfold updateResourceMetrics, bind, gets, forEach.
  apply (forEach_updateElement (metricElements s) [] s). reflexivity.
Qed.

Lemma nth_error_tickElements (prng : nat -> Number) (l : list Metric) :
  forall (k i : nat) (element : Metric),
    nth_error l i = Some element ->
    nth_error (tickElements prng k l) i = Some (tickElement (prng (k + i)%nat) element).
Proof.
  induction l as [|el l IH]; intros k i element H.
  - destruct i; discriminate.
  - destruct i as [|i]; cbn [nth_error tickElements] in *.
    + injection H as <-. now rewrite Nat.add_0_r.
    + rewrite (IH (S k) i element H). do 3 f_equal. lia.
Qed.

Lemma textContent_tickElement (random : Number) (element : Metric) :
  textContent (tickElement random element)
  = newValueOf (parseFloat (textContent element)) (fluctuationOf random).
Proof. reflexivity. Qed.

Lemma add_zero_negative (v delta : Number) :
  isZero v = true -> isFinite delta = true -> (realOf delta < 0)%Q ->
  Math_max [Real 0; add v delta] = Real 0.
Proof.
  intros Hz Hf Hd.
  assert (Hx : exists x, (x < 0)%Q /\ add v delta = F x).
  { destruct delta as [|neg| |d]; try discriminate Hf.
    - cbn [realOf] in Hd. exfalso. lra.
    - cbn [realOf] in Hd. destruct v as [|neg| |v0]; try discriminate Hz.
      + exists (0 + d)%Q. split; [lra | reflexivity].
      + cbn [isZero] in Hz. apply Qeq_bool_iff in Hz.
        exists (v0 + d)%Q. split; [lra | reflexivity]. }
  destruct Hx as [x [Hx ->]]. destruct (F_negative x Hx) as [Hl Hn].
  now rewrite (Math_max_zero _ Hn), Hl.
Qed.

Example updateResourceMetrics_dashboard :
  map textContent (metricElements (stateOf (updateResourceMetrics (dashboard ["42.0"; "0"]))))
  = ["39.5"; "0.0"].
Proof. vm_compute. reflexivity. Qed.

(** ** The metric texts stay below the bound of [toFixed] *)

Section BelowLimit.
Local Open Scope Q_scope.

Lemma ilog2_unique (q : Q) (e : Z) :
  0 < q -> 2 ^ e <= q -> q < 2 ^ (e + 1) -> ilog2 q = e.
Proof.
  intros Hq H1 H2. destruct (ilog2_spec q Hq) as [L1 L2].
  destruct (Z.lt_trichotomy (ilog2 q) e) as [H|[H|H]]; [|exact H|]; exfalso.
  - assert (2 ^ (ilog2 q + 1) <= 2 ^ e) by (apply two_pow_le; lia). lra.
  - assert (2 ^ (e + 1) <= 2 ^ ilog2 q) by (apply two_pow_le; lia). lra.
Qed.

Lemma round64_maxFixed : round64 maxFixed = Some maxFixed.
Proof. vm_compute. reflexivity. Qed.

Lemma round64_maxFixed_plus_5 : round64 (maxFixed + 5) = Some maxFixed.
Proof. vm_compute. reflexivity. Qed.

Lemma round64_maxFixed_plus_twentieth : round64 (maxFixed + (1 # 20)) = Some maxFixed.
Proof. vm_compute. reflexivity. Qed.

Lemma round64_limit : round64 (inject_Z (10 ^ 21)) = Some (inject_Z (10 ^ 21)).
Proof. vm_compute. reflexivity. Qed.

Lemma maxFixed_lt_limit : maxFixed < inject_Z (10 ^ 21).
Proof. vm_compute. reflexivity. Qed.

Lemma maxFixed_nonneg : 0 <= maxFixed.
Proof. apply Qle_bool_iff. vm_compute. reflexivity. Qed.

Lemma maxFixed_binade : 2 ^ 69 <= maxFixed /\ inject_Z (10 ^ 21) <= 2 ^ (69 + 1).
Proof. split; apply Qle_bool_iff; vm_compute; reflexivity. Qed.

Lemma maxFixed_grid :
  2 ^ 17 == 131072 /\
  maxFixed == inject_Z 7629394531249999 * 2 ^ 17 /\
  inject_Z (10 ^ 21) == inject_Z (7629394531249999 + 1) * 2 ^ 17.
Proof. repeat split; vm_compute; reflexivity. Qed.

(** No binary64 value lies between [maxFixed] and 10^21. *)
Lemma round64_below_limit (a m : Q) :
  round64 a = Some m -> m < inject_Z (10 ^ 21) -> m <= maxFixed.
Proof.
  intros Hr Hm.
  destruct (Qlt_le_dec maxFixed a) as [Ha|Ha].
  2:{ destruct (round64_mono a maxFixed maxFixed Ha round64_maxFixed) as [ma [E [_ H]]].
      rewrite Hr in E. apply Some_eq in E. now subst ma. }
  destruct (Qlt_le_dec a (inject_Z (10 ^ 21))) as [Hb|Hb].
  2:{ destruct (round64_mono _ a m Hb Hr) as [m' [E [_ H]]].
      rewrite round64_limit in E. apply Some_eq in E. subst m'. lra. }
  assert (Hpos : 0 < a) by (pose proof maxFixed_nonneg; lra).
  assert (He : ulp_exp a = 17%Z).
  { unfold ulp_exp. rewrite (ilog2_unique a 69 Hpos); [reflexivity| |].
    - pose proof (proj1 maxFixed_binade). lra.
    - pose proof (proj2 maxFixed_binade). lra. }
  unfold round64 in Hr. cbv zeta in Hr. rewrite He in Hr.
  destruct (Qle_bool a 0) eqn:E0.
  { apply Qle_bool_iff in E0. lra. }
  destruct (Qle_bool (2 ^ 1024) (inject_Z (rne (a / 2 ^ 17)) * 2 ^ 17)); [discriminate|].
  apply Some_eq in Hr. subst m. rewrite Qred_correct in *.
  destruct maxFixed_grid as [Hp [HK HL]].
  pose proof (two_pow_pos 17) as Hp0.
  assert (H1 : (7629394531249999 <= rne (a / 2 ^ 17))%Z).
  { apply rne_ge_inject. apply Qle_shift_div_l; [exact Hp0 | lra]. }
  assert (H2 : (rne (a / 2 ^ 17) < 7629394531249999 + 1)%Z).
  { rewrite Zlt_Qlt. rewrite HL in Hm.
    apply Qmult_lt_r in Hm; [exact Hm | exact Hp0]. }
  assert (H3 : rne (a / 2 ^ 17) = 7629394531249999%Z) by lia.
  rewrite H3, HK. lra.
Qed.

Lemma rounded_F (q : Q) : rounded (F q).
Proof.
  unfold F. destruct (round64 (Qabs q)) as [m|] eqn:E; [|exact I].
  pose proof (round64_nonneg _ _ E) as Hm. unfold signed.
  destruct (negb (Qle_bool 0 q)).
  - destruct (Qeq_bool m 0); [exact I|]. exists (Qabs q), m. split; [exact E|].
    rewrite Qabs_opp. now apply Qabs_pos.
  - exists (Qabs q), m. split; [exact E | now apply Qabs_pos].
Qed.

Lemma rounded_negate (x : Number) : rounded x -> rounded (negate x).
Proof.
  destruct x as [|neg| |v]; cbn [negate rounded]; auto.
  - intros _. exists 0, 0. split; reflexivity.
  - intros [a [m [E H]]]. destruct (Qeq_bool v 0); [exact I|].
    exists a, m. split; [exact E|]. now rewrite Qabs_opp.
Qed.

Lemma rounded_scanUnsigned (s : string) (x : Number) (rest : string) :
  scanUnsigned s = Some (x, rest) -> rounded x.
Proof.
  unfold scanUnsigned. destruct (startsWith s "Infinity").
  { intros H. apply Some_eq in H. injection H as <- _. exact I. }
  destruct (spanDigits s) as [ip r1]. destruct (startsWith r1 ".").
  - destruct (spanDigits (drop 1 r1)) as [fp r3].
    destruct (isEmpty ip && isEmpty fp); [discriminate|].
    destruct (scanExponent r3) as [ex r4]. intros H. apply Some_eq in H.
    injection H as <- _. apply rounded_F.
  - destruct (isEmpty ip); [discriminate|].
    destruct (scanExponent r1) as [ex r4]. intros H. apply Some_eq in H.
    injection H as <- _. apply rounded_F.
Qed.

Lemma rounded_parseFloat (text : string) : rounded (parseFloat text).
Proof.
  unfold parseFloat, scanStrDecimalLiteral.
  destruct (startsWith (trimStart text) "+").
  { destruct (scanUnsigned _) as [[x rest]|] eqn:E; [|exact I].
    exact (rounded_scanUnsigned _ _ _ E). }
  destruct (startsWith (trimStart text) "-").
  { destruct (scanUnsigned _) as [[x rest]|] eqn:E; [|exact I].
    apply rounded_negate. exact (rounded_scanUnsigned _ _ _ E). }
  destruct (scanUnsigned _) as [[x rest]|] eqn:E; [|exact I].
  exact (rounded_scanUnsigned _ _ _ E).
Qed.

Lemma parsesBelowLimit_upToMaxFixed (text : string) :
  parsesBelowLimit text -> parsesUpToMaxFixed text.
Proof.
  unfold parsesBelowLimit, parsesUpToMaxFixed.
  pose proof (rounded_parseFloat text) as Hr.
  destruct (parseFloat text) as [|neg| |v]; auto.
  intros Hv. destruct Hr as [a [m [E Hm]]].
  destruct (Qlt_le_dec v 0) as [Hn|Hp].
  - pose proof maxFixed_nonneg. lra.
  - rewrite Qabs_pos in Hm by exact Hp.
    rewrite Hm in *. exact (round64_below_limit a m E Hv).
Qed.

(** The Number value for a real that is at most [c]. *)
Lemma F_upper (q c mc : Q) :
  q <= c -> round64 c = Some mc ->
  F q <> NaN /\ F q <> Infinity false /\ realOf (F q) <= mc.
Proof.
  intros Hq Hc. pose proof (round64_nonneg _ _ Hc) as H0. unfold F.
  destruct (Qle_bool 0 q) eqn:Hs; cbn [negb].
  - apply Qle_bool_iff in Hs.
    assert (Ha : Qabs q <= c) by (rewrite Qabs_pos; assumption).
    destruct (round64_mono _ _ _ Ha Hc) as [ma [E [_ Hle]]]. rewrite E.
    cbn [signed realOf]. repeat split; [discriminate | discriminate | exact Hle].
  - destruct (round64 (Qabs q)) as [m|] eqn:E; cbn [signed].
    + pose proof (round64_nonneg _ _ E). destruct (Qeq_bool m 0); cbn [realOf];
        repeat split; try discriminate; lra.
    + cbn [realOf]. repeat split; try discriminate; lra.
Qed.

(** One round on a text that parses up to [maxFixed]: the new text is a
    decimal with one fraction digit, and it parses up to [maxFixed]
    again. *)
Lemma newValueOf_good (text : string) (r : Number) :
  parsesUpToMaxFixed text -> unitInterval r ->
  isFixedDecimal 1 (newValueOf (parseFloat text) (fluctuationOf r)) = true /\
  parsesUpToMaxFixed (newValueOf (parseFloat text) (fluctuationOf r)).
Proof.
  intros Ht Hr. destruct (fluctuation_bounds r Hr) as [Hf [Hlo Hhi]].
  set (delta := fluctuationOf r) in *. unfold parsesUpToMaxFixed in Ht.
  pose proof maxFixed_nonneg as H0.
  assert (Hy : add (parseFloat text) delta <> NaN /\
               add (parseFloat text) delta <> Infinity false /\
               realOf (add (parseFloat text) delta) <= maxFixed).
  { destruct (parseFloat text) as [|neg| |v]; [contradiction| | |].
    - subst neg. destruct delta; try discriminate Hf; cbn [add Bool.eqb realOf];
        repeat split; try discriminate; exact H0.
    - destruct delta as [|neg| |d]; try discriminate Hf.
      + cbn [add realOf]. repeat split; try discriminate; exact H0.
      + cbn [realOf] in Hlo, Hhi.
        apply (F_upper (realOf NegZero + realOf (Real d)) (maxFixed + 5) maxFixed);
          [cbn [realOf]; lra | exact round64_maxFixed_plus_5].
    - destruct delta as [|neg| |d]; try discriminate Hf.
      + apply (F_upper (realOf (Real v) + realOf NegZero) (maxFixed + 5) maxFixed);
          [cbn [realOf]; lra | exact round64_maxFixed_plus_5].
      + cbn [realOf] in Hlo, Hhi.
        apply (F_upper (realOf (Real v) + realOf (Real d)) (maxFixed + 5) maxFixed);
          [cbn [realOf]; lra | exact round64_maxFixed_plus_5]. }
  destruct Hy as [Hn [Hi Hle]].
  assert (Hw : exists u, Math_max [Real 0; add (parseFloat text) delta] = Real u
                         /\ 0 <= u /\ u <= maxFixed).
  { rewrite (Math_max_zero _ Hn).
    destruct (add (parseFloat text) delta) as [|[]| |vy];
      [contradiction | | contradiction | |].
    - exists 0. split; [reflexivity | lra].
    - exists 0. split; [reflexivity | lra].
    - cbn [lessThan realOf]. destruct (Qle_bool vy 0) eqn:E; cbn [negb].
      + exists 0. split; [reflexivity | lra].
      + exists vy. split; [reflexivity|]. cbn [realOf] in Hle. split; [|exact Hle].
        apply Qlt_le_weak, Qnot_le_lt. intros H. apply Qle_bool_iff in H. congruence. }
  destruct Hw as [u [Hw [Hu0 Hu1]]]. unfold newValueOf. rewrite Hw.
  pose proof maxFixed_lt_limit as Hlim. split.
  - apply toFixed_isFixedDecimal. rewrite Qabs_pos by exact Hu0. lra.
  - unfold parsesUpToMaxFixed.
    destruct (parseFloat_toFixed1 u Hu0) as [q [E [Hq0 Hq1]]]; [lra|].
    rewrite E.
    assert (Hq : q <= maxFixed + (1 # 20)) by lra.
    destruct (F_upper q _ _ Hq round64_maxFixed_plus_twentieth) as [A [B C]].
    destruct (F q) as [|[]| |w]; try contradiction; auto.
Qed.

End BelowLimit.

(** ** The metric texts along every run of the page *)

Lemma tickElements_shown (prng : nat -> Number) (l : list Metric) :
  (forall n, unitInterval (prng n)) ->
  Forall (fun element => parsesUpToMaxFixed (textContent element)) l ->
  forall k,
    Forall (fun element => parsesUpToMaxFixed (textContent element))
           (tickElements prng k l) /\
    Forall (fun element => isFixedDecimal 1 (textContent element) = true)
           (tickElements prng k l).
Proof.
  intros Hr Hl. induction Hl as [|el l Hel Hl IH]; intros k; cbn [tickElements].
  - split; constructor.
  - destruct (IH (S k)) as [IH1 IH2].
    destruct (newValueOf_good (textContent el) (prng k) Hel (Hr k)) as [H1 H2].
    split; constructor; auto.
Qed.

Lemma tickElements_nil (prng : nat -> Number) (k : nat) (l : list Metric) :
  l = [] -> tickElements prng k l = [].
Proof. now intros ->. Qed.

Lemma updateNth_nil {A} (i : nat) (f : A -> A) (l : list A) :
  l = [] -> updateNth i f l = [].
Proof. now intros ->. Qed.

Lemma updateNth_Forall {A} (P : A -> Prop) (f : A -> A) (l : list A) :
  (forall a, P a -> P (f a)) ->
  forall i, Forall P l -> Forall P (updateNth i f l).
Proof.
  intros Hf i Hl. revert i. induction Hl as [|a l Ha Hl IH]; intros i.
  - constructor.
  - destruct i; cbn [updateNth]; constructor; auto.
Qed.

(** What the metric animation sees of the page. *)
Lemma metricsReady_same (s s' : State) :
  prng s' = prng s -> metricElements s' = metricElements s ->
  intervals s' = intervals s ->
  (metricsReady s -> metricsReady s') /\ (metricsShown s -> metricsShown s').
Proof.
  intros Hp Hm Hi. unfold metricsShown, metricsReady, allMetricTexts, tickInstalled.
  rewrite Hp, Hm, Hi. tauto.
Qed.

Lemma callCallback_metrics (c : Callback) (s : State) :
  metricsReady s ->
  metricsReady (stateOf (callCallback c s)) /\
  (c = updateResourceMetricsFn -> metricsShown (stateOf (callCallback c s))) /\
  (metricsShown s -> metricsShown (stateOf (callCallback c s))).
Proof.
  intros [Hr [Ht Hi]]. destruct c as [|i]; cbn [callCallback].
  - rewrite updateResourceMetrics_eq. cbn [stateOf outcome fst].
    destruct (tickElements_shown (prng s) (metricElements s) Hr Ht (randomCalls s))
      as [H1 H2].
    match goal with |- context [metricsReady ?s1] => set (s' := s1) end.
    assert (Hs : metricsShown s').
    { unfold metricsShown, metricsReady, allMetricTexts, tickInstalled, s'.
      cbn [prng metricElements intervals].
      repeat split; auto.
      destruct Hi as [Hi|Hi]; [left; now apply tickElements_nil | now right]. }
    split; [exact (proj1 Hs)|]. split; intros _; exact Hs.
  - unfold updateMetric, modify. cbn [stateOf outcome fst].
    assert (Hpres : forall P : string -> Prop,
               allMetricTexts P s ->
               allMetricTexts P
                 (withMetricElements
                    (updateNth i (classListRemove "updated") (metricElements s)) s)).
    { intros P HP. unfold allMetricTexts in *. cbn [withMetricElements metricElements].
      apply updateNth_Forall; [|exact HP]. intros a Ha. exact Ha. }
    assert (Hrd : metricsReady
                    (withMetricElements
                       (updateNth i (classListRemove "updated") (metricElements s)) s)).
    { unfold metricsReady. split; [exact Hr|]. split; [now apply Hpres|].
      unfold tickInstalled in *. cbn [withMetricElements metricElements intervals].
      destruct Hi as [Hi|Hi]; [left; now apply updateNth_nil | now right]. }
    split; [exact Hrd|]. split; [discriminate|].
    intros [_ Hsh]. split; [exact Hrd | now apply Hpres].
Qed.

Lemma callCallback_nil (c : Callback) (s : State) :
  metricElements s = [] -> metricElements (stateOf (callCallback c s)) = [].
Proof.
  intros H. destruct c as [|i]; cbn [callCallback].
  - rewrite updateResourceMetrics_eq. cbn [stateOf outcome fst metricElements].
    now rewrite H.
  - unfold updateMetric, modify. cbn [stateOf outcome fst]. state_simpl.
    now rewrite H.
Qed.

Lemma metricsShown_nil (s : State) :
  metricsReady s -> metricElements s = [] -> metricsShown s.
Proof.
  intros Hrd H. split; [exact Hrd|]. unfold allMetricTexts. rewrite H. constructor.
Qed.

Lemma step_metrics (a : Action) (s : State) :
  metricsReady s ->
  metricsReady (fst (step a s)) /\
  (metricsShown s -> metricsShown (fst (step a s))) /\
  (a = IntervalFires 0 -> metricsShown (fst (step a s))).
Proof.
  intros Hrd. destruct a as [event|k|k|text|category|i text]; cbn [step].
  - unfold dispatchEvent.
    destruct (dispatchTo_frame (listeners s) event s) as [cards [ms [H _]]].
    rewrite H.
    destruct (metricsReady_same s (withResourceCards cards (withModals ms s))
                eq_refl eq_refl eq_refl) as [H1 H2].
    split; [auto|]. split; [exact H2 | discriminate].
  - destruct (nth_error (intervals s) k) as [[c ms]|] eqn:Hk.
    + destruct (callCallback_metrics c s Hrd) as [H1 [H2 H3]].
      pose proof (callCallback_nil c s) as H4.
      unfold stateOf in *. destruct (outcome (callCallback c s)) as [s' err].
      cbn [fst] in *. split; [exact H1|]. split; [exact H3|].
      intros E. injection E as ->.
      destruct Hrd as [Hr [Ht [Hi|Hi]]].
      * apply metricsShown_nil; auto.
      * rewrite Hi in Hk. injection Hk as Hc _. subst c. now apply H2.
    + cbn [fst]. split; [exact Hrd|]. split; [auto|].
      intros E. injection E as ->.
      destruct Hrd as [Hr [Ht [Hi|Hi]]]; [|rewrite Hi in Hk; discriminate].
      apply metricsShown_nil; [|exact Hi]. repeat split; auto. now left.
  - destruct (nth_error (timeouts s) k) as [[c ms]|] eqn:Hk.
    + destruct (metricsReady_same s (withTimeouts (removeNth k (timeouts s)) s)
                  eq_refl eq_refl eq_refl) as [G1 G2].
      destruct (callCallback_metrics c _ (G1 Hrd)) as [H1 [H2 H3]].
      unfold stateOf in *.
      destruct (outcome (callCallback c (withTimeouts (removeNth k (timeouts s)) s)))
        as [s' err].
      cbn [fst] in *. split; [exact H1|]. split; [auto | discriminate].
    + cbn [fst]. split; [exact Hrd|]. split; [auto | discriminate].
  - cbn [fst]. destruct (searchInput s).
    + destruct (metricsReady_same s (withSearchInput (Some text) s)
                  eq_refl eq_refl eq_refl) as [G1 G2].
      split; [auto|]. split; [exact G2 | discriminate].
    + split; [exact Hrd|]. split; [auto | discriminate].
  - cbn [fst]. destruct (typeFilter s).
    + destruct (metricsReady_same s (withTypeFilter (Some category) s)
                  eq_refl eq_refl eq_refl) as [G1 G2].
      split; [auto|]. split; [exact G2 | discriminate].
    + split; [exact Hrd|]. split; [auto | discriminate].
  - cbn [fst].
    destruct (metricsReady_same s
                (withHoursInputs (updateNth i (setHours text) (hoursInputs s)) s)
                eq_refl eq_refl eq_refl) as [G1 G2].
    split; [auto|]. split; [exact G2 | discriminate].
Qed.

Lemma run_metrics (actions : list Action) :
  forall s, metricsReady s ->
    metricsReady (fst (run actions s)) /\
    (metricsShown s -> metricsShown (fst (run actions s))).
Proof.
  induction actions as [|a actions IH]; intros s Hrd; cbn [run].
  - cbn [fst]. auto.
  - destruct (step_metrics a s Hrd) as [H1 [H2 _]].
    destruct (step a s) as [s1 log1]. cbn [fst] in *.
    destruct (IH s1 H1) as [G1 G2].
    destruct (run actions s1) as [s2 log2]. cbn [fst] in *. auto.
Qed.

Lemma run_app (before after : list Action) :
  forall s, fst (run (before ++ after) s) = fst (run after (fst (run before s))).
Proof.
  induction before as [|a before IH]; intros s; [reflexivity|].
  cbn [app run]. destruct (step a s) as [s1 log1].
  specialize (IH s1). destruct (run (before ++ after) s1) as [s2 log2].
  destruct (run before s1) as [s3 log3]. cbn [fst] in *. exact IH.
Qed.

Lemma loaded_metricsReady (s : State) :
  (forall n, unitInterval (prng s n)) ->
  (forall element, In element (metricElements s) ->
                   parsesBelowLimit (textContent element)) ->
  metricsReady (loaded s).
Proof.
  intros Hr Ht. rewrite loaded_eq.
  unfold metricsReady, allMetricTexts, tickInstalled.
  cbn [prng metricElements intervals]. split; [exact Hr|]. split.
  - apply Forall_forall. intros el Hel.
    apply parsesBelowLimit_upToMaxFixed, Ht, Hel.
  - destruct (metricElements s); [now left | now right].
Qed.

(** C7 as amended: on a page whose metric texts parse at load to Numbers
    that are not NaN, not +Infinity and below 10^21, with a generator whose
    draws lie in the unit interval, the text of every metric element is a
    decimal with exactly one fraction digit after every firing of the
    timer of the metric animation, whatever else happened before it and
    whatever happens after it. *)
Theorem metric_text_stays_decimal
  (s : State) (before after : list Action) (element : Metric) :
  (forall n, unitInterval (prng s n)) ->
  (forall el, In el (metricElements s) -> parsesBelowLimit (textContent el)) ->
  In element
     (metricElements (fst (run (before ++ IntervalFires 0 :: after) (loaded s)))) ->
  isFixedDecimal 1 (textContent element) = true.
Proof.
  intros Hr Ht Hin. pose proof (loaded_metricsReady s Hr Ht) as H0.
  rewrite run_app in Hin.
  destruct (run_metrics before (loaded s) H0) as [H1 _].
  set (s1 := fst (run before (loaded s))) in *.
  cbn [run] in Hin.
  destruct (step_metrics (IntervalFires 0) s1 H1) as [H2 [_ H3]].
  specialize (H3 eq_refl).
  destruct (step (IntervalFires 0) s1) as [s2 log2]. cbn [fst] in *.
  destruct (run_metrics after s2 H2) as [_ H4]. specialize (H4 H3).
  destruct (run after s2) as [s3 log3]. cbn [fst] in *.
  destruct H4 as [_ H4]. unfold allMetricTexts in H4.
  rewrite Forall_forall in H4. exact (H4 element Hin).
Qed.

(** C7, at a dashboard whose metric shows 'N/A': the first firing of the
    timer writes 'NaN', which is no decimal. *)
Lemma tick_on_unparsable_text :
  map textContent
      (metricElements (fst (step (IntervalFires 0) (loaded (dashboard ["N/A"])))))
  = ["NaN"]
  /\ isFixedDecimal 1 "NaN" = false.
Proof. split; vm_compute; reflexivity. Qed.

(** A dashboard showing 42.0 and 7: a click, two firings of the timer and
    the timeout of the first. *)
Lemma metric_text_stays_decimal_example :
  Forall (fun element => isFixedDecimal 1 (textContent element) = true)
    (metricElements
       (fst (run ([Dispatch clickSearch] ++ IntervalFires 0
                    :: [TimeoutFires 0; IntervalFires 0])
                 (loaded (dashboard ["42.0"; "7"]))))).
Proof.
  apply Forall_forall. intros element.
  refine (metric_text_stays_decimal (dashboard ["42.0"; "7"])
            [Dispatch clickSearch] [TimeoutFires 0; IntervalFires 0] element _ _).
  - intros n. exists (1 # 4). split; [reflexivity|]. split; [discriminate | reflexivity].
  - intros el [<-|[<-|[]]]; vm_compute; reflexivity.
Defined.

Example run_dashboard :
  map textContent
      (metricElements
         (fst (run [IntervalFires 0; TimeoutFires 0; IntervalFires 0]
                   (loaded (dashboard ["42.0"; "7"])))))
  = ["37.0"; "2.0"].
Proof. vm_compute. reflexivity. Qed.

(** ** The triggers of the resource filter *)

Lemma filterResources_ready (s : State) :
  filterReady s ->
  exists cards,
    filterResources s = Normal tt (withResourceCards cards s) /\
    filterReady (withResourceCards cards s).
Proof.
  intros [Hq [Hf Ht]].
  destruct (searchInput s) as [q|] eqn:Eq; [|congruence].
  destruct (typeFilter s) as [f|] eqn:Ef; [|congruence].
  eexists. split.
  - rewrite filterResources_eq, Eq, Ef, filteredCards_titled by exact Ht. reflexivity.
  - unfold filterReady. cbn [withResourceCards searchInput typeFilter resourceCards].
    rewrite Eq, Ef. split; [discriminate|]. split; [discriminate|].
    intros c Hc. apply in_map_iff in Hc as [c0 [<- Hc0]]. exact (Ht c0 Hc0).
Qed.

Lemma callListener_ready (l : Listener) (event : Event) (s : State) :
  filterReady s -> isFilterListener l = true ->
  exists s', callListener l event s = Normal tt s' /\ filterReady s'.
Proof.
  intros Hr Hl. destruct l as [| |i]; [| |discriminate]; cbn [callListener].
  - destruct (filterResources_ready s Hr) as [cards [E H]]. eauto.
  - destruct (key event =? "Enter")%string; cbn [when].
    + destruct (filterResources_ready s Hr) as [cards [E H]]. eauto.
    + exists s. split; [reflexivity | exact Hr].
Qed.

Lemma dispatchTo_ready (ls : list (Target * EventType * Listener)) (event : Event) :
  (forall t ty l, In (t, ty, l) ls -> Target_eqb t (target event) = true ->
                  isFilterListener l = true) ->
  forall s, filterReady s -> noError (snd (dispatchTo ls event s)).
Proof.
  induction ls as [|[[t ty] l] ls IH]; intros Hls s Hr.
  - intros r [].
  - cbn [dispatchTo].
    assert (Hrest : forall t0 ty0 l0, In (t0, ty0, l0) ls ->
                      Target_eqb t0 (target event) = true -> isFilterListener l0 = true).
    { intros t0 ty0 l0 H. apply (Hls t0 ty0 l0). now right. }
    destruct (Target_eqb t (target event)) eqn:Et; cbn [andb]; [|now apply IH].
    destruct (EventType_eqb ty (type event)); [|now apply IH].
    destruct (callListener_ready l event s Hr (Hls t ty l (or_introl eq_refl) Et))
      as [s' [E Hr']].
    rewrite E. cbn [outcome]. specialize (IH Hrest s' Hr').
    destruct (dispatchTo ls event s') as [s2 log]. cbn [snd] in *.
    intros r [<-|Hin]; [reflexivity | exact (IH r Hin)].
Qed.

Lemma filterReady_loaded (s : State) : filterReady s -> filterReady (loaded s).
Proof. rewrite loaded_eq. exact (fun H => H). Qed.

(** C5 as amended: on a page with the search input and the category
    selector, whose cards all have a title, no event of the search button,
    the search input or the selector makes a listener throw; and an absent
    button, input or selector has no listener, so that no event of it runs
    anything. *)
Theorem filter_triggers_without_error :
  (forall (s : State) (event : Event),
      filterReady s -> isFilterTarget (target event) = true ->
      noError (snd (step (Dispatch event) (loaded s)))) /\
  (forall (s : State) (ty : EventType) (key : string),
      searchButton s = false ->
      snd (step (Dispatch (mkEvent SearchButtonEl ty key)) (loaded s)) = []) /\
  (forall (s : State) (ty : EventType) (key : string),
      searchInput s = None ->
      snd (step (Dispatch (mkEvent SearchInputEl ty key)) (loaded s)) = []) /\
  (forall (s : State) (ty : EventType) (key : string),
      typeFilter s = None ->
      snd (step (Dispatch (mkEvent TypeFilterEl ty key)) (loaded s)) = []).
Proof.
  split; [|split; [|split]].
  - intros s event Hr Ht. cbn [step]. unfold dispatchEvent.
    apply dispatchTo_ready; [|now apply filterReady_loaded].
    intros t ty l Hin Heq. apply Target_eqb_eq in Heq. subst t.
    destruct (loaded_listeners s _ _ _ Hin) as [[_ [-> _]]|[[_ [-> _]]|[[_ [-> _]]|[k [E _]]]]];
      try reflexivity.
    rewrite E in Ht. discriminate.
  - intros s ty key H. cbn [step]. unfold dispatchEvent. rewrite dispatchTo_nomatch; [reflexivity|].
    intros t ty0 l Hin. cbn [target].
    destruct (loaded_listeners s _ _ _ Hin) as [[_ [_ E]]|[[-> _]|[[-> _]|[k [-> _]]]]];
      try reflexivity. congruence.
  - intros s ty key H. cbn [step]. unfold dispatchEvent. rewrite dispatchTo_nomatch; [reflexivity|].
    intros t ty0 l Hin. cbn [target].
    destruct (loaded_listeners s _ _ _ Hin) as [[-> _]|[[_ [_ E]]|[[-> _]|[k [-> _]]]]];
      try reflexivity. congruence.
  - intros s ty key H. cbn [step]. unfold dispatchEvent. rewrite dispatchTo_nomatch; [reflexivity|].
    intros t ty0 l Hin. cbn [target].
    destruct (loaded_listeners s _ _ _ Hin) as [[-> _]|[[-> _]|[[_ [_ E]]|[k [-> _]]]]];
      try reflexivity. congruence.
Qed.

(** A click on the search button of the catalog. *)
Lemma filter_triggers_without_error_catalog :
  noError (snd (step (Dispatch clickSearch) (loaded catalogPage))).
Proof.
  refine (proj1 filter_triggers_without_error catalogPage clickSearch _ eq_refl).
  split; [discriminate|]. split; [discriminate|].
  simpl. intros c [<-|[<-|[<-|[]]]]; discriminate.
Defined.

(** C5, at a page whose second card has no title: the click on the search
    button throws after the first card has been written. *)
Lemma click_with_untitled_card_throws :
  snd (step (Dispatch clickSearch) (loaded pageWithUntitledCard))
  = [RanListener filterResourcesFn (Some TypeError)] /\
  map display
      (resourceCards (fst (step (Dispatch clickSearch) (loaded pageWithUntitledCard))))
  = ["block"; ""; ""].
Proof. split; reflexivity. Qed.

(** The same at a page that has the button and the selector and lacks the
    search input: the listener of the click is registered, and it throws
    on reading the value of the input. *)
Lemma click_without_search_input_throws :
  snd (step (Dispatch clickSearch) (loaded pageWithoutSearchInput))
  = [RanListener filterResourcesFn (Some TypeError)].
Proof. reflexivity. Qed.

(** ** Which events run a listener *)

Lemma dispatchTo_matches (ls : list (Target * EventType * Listener)) (event : Event) :
  forall s, snd (dispatchTo ls event s) = [] <-> forallb (fun e => negb (matches event e)) ls = true.
Proof.
  induction ls as [|[[t ty] l] ls IH]; intros s; [now split|].
  cbn [dispatchTo forallb matches].
  destruct (Target_eqb t (target event) && EventType_eqb ty (type event)).
  - destruct (outcome (callListener l event s)) as [s1 err].
    destruct (dispatchTo ls event s1) as [s2 log]. cbn [snd negb andb].
    split; discriminate.
  - cbn [negb andb]. apply IH.
Qed.

Lemma EventType_eqb_eq (a b : EventType) : EventType_eqb a b = true <-> a = b.
Proof. destruct a, b; cbn [EventType_eqb]; split; congruence. Qed.

Lemma Target_eqb_iff (a b : Target) : Target_eqb a b = true <-> a = b.
Proof.
  split; [apply Target_eqb_eq | intros ->; apply Target_eqb_refl].
Qed.

Lemma matches_iff (event : Event) (t : Target) (ty : EventType) (l : Listener) :
  matches event (t, ty, l) = true <-> target event = t /\ type event = ty.
Proof.
  cbn [matches]. rewrite andb_true_iff, Target_eqb_iff, EventType_eqb_eq.
  split; intros [-> ->]; auto.
Qed.

(** The listeners of the loaded page, with the types of their events. *)
Lemma loaded_listeners_iff (s : State) (t : Target) (ty : EventType) (l : Listener) :
  In (t, ty, l) (listeners (loaded s)) <->
  (t = SearchButtonEl /\ ty = click /\ l = filterResourcesFn /\ searchButton s = true) \/
  (t = SearchInputEl /\ ty = keyup /\ l = enterKeyFn /\ searchInput s <> None) \/
  (t = TypeFilterEl /\ ty = change /\ l = filterResourcesFn /\ typeFilter s <> None) \/
  (exists k, t = HoursInputEl k /\ ty = input /\ l = hoursInputFn k
             /\ (k < List.length (hoursInputs s))%nat).
Proof.
  rewrite loaded_eq. cbn [listeners]. rewrite !in_app_iff, in_map_iff. split.
  - intros [H|[H|[H|[k [H Hk]]]]].
    + destruct (searchButton s); [|contradiction].
      destruct H as [H|[]]. injection H as <- <- <-. auto.
    + destruct (searchInput s); [|contradiction].
      destruct H as [H|[]]. injection H as <- <- <-. right; left.
      repeat split. discriminate.
    + destruct (typeFilter s); [|contradiction].
      destruct H as [H|[]]. injection H as <- <- <-. right; right; left.
      repeat split. discriminate.
    + injection H as <- <- <-. right; right; right. exists k. repeat split.
      apply in_seq in Hk. lia.
  - intros [[-> [-> [-> H]]]|[[-> [-> [-> H]]]|[[-> [-> [-> H]]]|[k [-> [-> [-> H]]]]]]].
    + left. rewrite H. now left.
    + right; left. destruct (searchInput s); [now left | congruence].
    + right; right; left. destruct (typeFilter s); [now left | congruence].
    + right; right; right. exists k. split; [reflexivity|]. apply in_seq. lia.
Qed.

(** X2: an event of the loaded page runs a listener of the script exactly
    when it is a click of the search button, a keyup of the search input, a
    change of the category selector or an input of an hours field, the
    element being on the page; every other event runs nothing. *)
Theorem event_runs_listener_iff_registered (s : State) (event : Event) :
  snd (step (Dispatch event) (loaded s)) <> [] <-> registered s event.
Proof.
  cbn [step]. unfold dispatchEvent. rewrite dispatchTo_matches.
  split.
  - intros H.
    destruct (forallb (fun e => negb (matches event e)) (listeners (loaded s))) eqn:E;
      [now contradiction H|].
    assert (Hex : exists e, In e (listeners (loaded s)) /\ matches event e = true).
    { clear H. induction (listeners (loaded s)) as [|e ls IH]; [discriminate|].
      cbn [forallb] in E. destruct (matches event e) eqn:M.
      - exists e. split; [now left | exact M].
      - cbn [negb andb] in E. destruct (IH E) as [e' [Hin Hm]].
        exists e'. split; [now right | exact Hm]. }
    destruct Hex as [[[t ty] l] [Hin Hm]].
    apply matches_iff in Hm as [Ht Hy]. apply loaded_listeners_iff in Hin.
    unfold registered. rewrite Ht, Hy.
    destruct Hin as [[-> [-> [_ H1]]]|[[-> [-> [_ H1]]]|[[-> [-> [_ H1]]]|[k [-> [-> [_ H1]]]]]]];
      exact H1.
  - intros Hr E.
    assert (Hin : exists l, In (target event, type event, l) (listeners (loaded s))).
    { unfold registered in Hr.
      destruct (target event) as [| | |k], (type event); try contradiction.
      - exists filterResourcesFn. apply loaded_listeners_iff. auto.
      - exists enterKeyFn. apply loaded_listeners_iff. right; left. auto.
      - exists filterResourcesFn. apply loaded_listeners_iff. right; right; left. auto.
      - exists (hoursInputFn k). apply loaded_listeners_iff. right; right; right.
        exists k. auto. }
    destruct Hin as [l Hin]. rewrite forallb_forall in E. specialize (E _ Hin).
    assert (M : matches event (target event, type event, l) = true)
      by (apply matches_iff; auto).
    rewrite M in E. discriminate.
Qed.

(** ** The Enter key in the search input *)

Lemma dispatchTo_app (l1 l2 : list (Target * EventType * Listener)) (event : Event) :
  forall s,
    dispatchTo (l1 ++ l2)%list event s =
    (fst (dispatchTo l2 event (fst (dispatchTo l1 event s))),
     (snd (dispatchTo l1 event s)
      ++ snd (dispatchTo l2 event (fst (dispatchTo l1 event s))))%list).
Proof.
  induction l1 as [|[[t ty] l] l1 IH]; intros s.
  - cbn [app dispatchTo fst snd]. now destruct (dispatchTo l2 event s).
  - cbn [app dispatchTo].
    destruct (Target_eqb t (target event) && EventType_eqb ty (type event)).
    + destruct (outcome (callListener l event s)) as [s1 err].
      rewrite IH. destruct (dispatchTo l1 event s1) as [s2 log]. reflexivity.
    + apply IH.
Qed.

Lemma dispatchTo_none (ls : list (Target * EventType * Listener)) (event : Event)
  (s : State) :
  forallb (fun e => negb (matches event e)) ls = true ->
  dispatchTo ls event s = (s, []).
Proof.
  revert s. induction ls as [|[[t ty] l] ls IH]; intros s H; [reflexivity|].
  cbn [forallb matches] in H. apply andb_true_iff in H as [H1 H2].
  cbn [dispatchTo]. apply negb_true_iff in H1. rewrite H1. now apply IH.
Qed.

Lemma dispatchTo_hours_none (l : list nat) (event : Event) (s : State) :
  isFilterTarget (target event) = true ->
  dispatchTo (map (fun k => (HoursInputEl k, input, hoursInputFn k)) l) event s
  = (s, []).
Proof.
  intros H. apply dispatchTo_none. apply forallb_forall.
  intros e He. apply in_map_iff in He as [k [<- _]]. cbn [matches].
  destruct (target event); try discriminate; reflexivity.
Qed.

(** X1: on a page with the search input, a keyup of the input runs one
    listener; with the key 'Enter' it runs [filterResources], with the
    result and the error of [filterResources], and with any other key it
    leaves the page as it is and throws nothing, also on a page where
    [filterResources] would throw. *)
Theorem keyup_filters_on_Enter_only (s : State) (key : string) :
  searchInput s <> None ->
  step (Dispatch (keyupSearch key)) (loaded s) =
  if (key =? "Enter")%string
  then (stateOf (filterResources (loaded s)),
        [RanListener enterKeyFn (snd (outcome (filterResources (loaded s))))])
  else (loaded s, [RanListener enterKeyFn None]).
Proof.
  intros Hi. cbn [step]. unfold dispatchEvent.
  assert (Hl : listeners (loaded s)
               = ((if searchButton s then [(SearchButtonEl, click, filterResourcesFn)] else [])
                  ++ [(SearchInputEl, keyup, enterKeyFn)]
                  ++ (if isSome (typeFilter s) then [(TypeFilterEl, change, filterResourcesFn)] else [])
                  ++ map (fun k => (HoursInputEl k, input, hoursInputFn k))
                         (seq 0 (List.length (hoursInputs s))))%list).
  { rewrite loaded_eq. cbn [listeners]. destruct (searchInput s); [reflexivity | congruence]. }
  rewrite Hl. generalize (loaded s). intros s0.
  rewrite dispatchTo_app.
  rewrite (dispatchTo_none _ (keyupSearch key) s0)
    by (destruct (searchButton s); reflexivity).
  cbn [fst snd app dispatchTo keyupSearch target type Target_eqb EventType_eqb andb
       callListener Page.key].
  assert (Hrest : forall s1,
             dispatchTo
               ((if isSome (typeFilter s) then [(TypeFilterEl, change, filterResourcesFn)] else [])
                ++ map (fun k => (HoursInputEl k, input, hoursInputFn k))
                       (seq 0 (List.length (hoursInputs s))))%list
               (mkEvent SearchInputEl keyup key) s1 = (s1, [])).
  { intros s1. rewrite dispatchTo_app.
    rewrite (dispatchTo_none _ _ s1) by (destruct (isSome (typeFilter s)); reflexivity).
    cbn [fst snd app]. now rewrite dispatchTo_hours_none. }
  destruct (key =? "Enter")%string; cbn [when].
  - unfold stateOf. destruct (outcome (filterResources s0)) as [s1 err].
    cbn [fst snd]. now rewrite Hrest.
  - cbn [ret outcome]. now rewrite Hrest.
Qed.

(** The Escape key on a catalog whose second card has no title, and the
    Enter key on it. *)
Lemma keyup_filters_on_Enter_only_example :
  step (Dispatch (keyupSearch "Escape")) (loaded tornCatalog)
  = (loaded tornCatalog, [RanListener enterKeyFn None])
  /\ snd (step (Dispatch (keyupSearch "Enter")) (loaded tornCatalog))
     = [RanListener enterKeyFn (Some TypeError)].
Proof.
  split.
  - exact (keyup_filters_on_Enter_only tornCatalog "Escape" ltac:(discriminate)).
  - rewrite (keyup_filters_on_Enter_only tornCatalog "Enter" ltac:(discriminate)).
    reflexivity.
Defined.

(** ** The hours listener at the edges *)

(** X3: the hours listener writes nothing and throws nothing when its
    field stands in no modal, and when the modal gives a rate and has no
    [.calculated-cost] element. *)
Theorem hours_input_without_cost_element
  (s : State) (i : nat) (this : HoursInput) :
  nth_error (hoursInputs s) i = Some this ->
  closest this s = None \/
  (exists j modal info pre num,
      closest this s = Some (j, modal) /\ alertInfo modal = Some info /\
      rateSentenceAfter pre num info /\ calculatedCost modal = None) ->
  hoursInputListener i s = Normal tt s.
Proof.
  intros Hi H. unfold hoursInputListener, bind, gets. rewrite Hi.
  destruct H as [-> | (j & modal & info & pre & num & -> & Ha & Hr & Hc)];
    [reflexivity|].
  rewrite Ha. cbn [nonNull ret]. apply exec_some in Hr.
  destruct (RatePattern.exec info); [|congruence].
  rewrite Hc. reflexivity.
Qed.

(** A field outside every modal, and a field in a modal with a rate and no
    cost element. *)
Lemma hours_input_without_cost_element_example :
  hoursInputListener 0
    (hoursPage (mkHoursInput "3" None) [mkModal (Some "Cost: 4 credits/hour") (Some "")])
  = Normal tt
      (hoursPage (mkHoursInput "3" None) [mkModal (Some "Cost: 4 credits/hour") (Some "")])
  /\ hoursInputListener 0
       (hoursPage (mkHoursInput "3" (Some 0%nat)) [mkModal (Some "Cost: 4 credits/hour") None])
     = Normal tt
         (hoursPage (mkHoursInput "3" (Some 0%nat)) [mkModal (Some "Cost: 4 credits/hour") None]).
Proof.
  split.
  - apply (hours_input_without_cost_element
             (hoursPage (mkHoursInput "3" None)
                [mkModal (Some "Cost: 4 credits/hour") (Some "")])
             0%nat (mkHoursInput "3" None) eq_refl).
    left. reflexivity.
  - apply (hours_input_without_cost_element
             (hoursPage (mkHoursInput "3" (Some 0%nat))
                [mkModal (Some "Cost: 4 credits/hour") None])
             0%nat (mkHoursInput "3" (Some 0%nat)) eq_refl).
    right. exists 0%nat, (mkModal (Some "Cost: 4 credits/hour") None),
             "Cost: 4 credits/hour", "", "4".
    split; [reflexivity|]. split; [reflexivity|]. split; [|reflexivity].
    exists "4", "", "". split; [|reflexivity].
    split; [discriminate|]. split; [reflexivity|]. split; [reflexivity | now left].
Defined.

(** X4: the hours listener throws exactly when its field stands in a modal
    that gives no rate (no [.alert-info], or no rate sentence in its text),
    whether or not the modal has a cost element; the error is a TypeError
    and the page is left as it was. *)
Theorem hours_input_throws_iff (s : State) (i : nat) :
  (throws (hoursInputListener i s) <->
   exists this j modal,
     nth_error (hoursInputs s) i = Some this /\
     closest this s = Some (j, modal) /\ rateMissing modal) /\
  (throws (hoursInputListener i s) -> hoursInputListener i s = Throw TypeError s).
Proof.
  unfold throws, hoursInputListener, bind, gets, rateMissing.
  destruct (nth_error (hoursInputs s) i) as [this|] eqn:Hi.
  2:{ cbn [ret outcome snd]. split; [split|]; try congruence.
      intros (this & j & modal & H & _). discriminate. }
  destruct (closest this s) as [[j modal]|] eqn:Hc.
  2:{ cbn [ret outcome snd]. split; [split|]; try congruence.
      intros (this' & j & modal & H & H' & _). congruence. }
  destruct (alertInfo modal) as [info|] eqn:Ha; cbn [nonNull ret throw].
  2:{ cbn [outcome snd]. split; [split|]; try reflexivity; try discriminate.
      intros _. exists this, j, modal. rewrite Ha. now repeat split. }
  destruct (RatePattern.exec info) as [groups|] eqn:He; cbn [nonNull ret throw].
  - assert (Hn : snd (outcome
                   (when (isSome (calculatedCost modal))
                      (modify (fun s0 =>
                         withModals
                           (updateNth j
                              (setCost ("Total cost: "
                                 ++ toFixed 2 (multiply (StringToNumber (hoursValue this))
                                                        (parseFloat groups))
                                 ++ " credits")) (modals s0)) s0)) s)) = None).
    { destruct (calculatedCost modal); reflexivity. }
    split; [split|]; try congruence.
    intros (this' & j' & modal' & H1 & H2 & H3).
    injection H1 as <-. rewrite Hc in H2. injection H2 as <- <-.
    rewrite Ha in H3. apply exec_sound in He as [pre Hp]. now apply H3 in Hp.
  - cbn [outcome snd]. split; [split|]; try reflexivity; try discriminate.
    intros _. exists this, j, modal. rewrite Ha.
    split; [reflexivity|]. split; [exact Hc|].
    intros pre num Hp. now apply exec_some in Hp.
Qed.

(** A modal without info text and with a cost element. *)
Lemma hours_input_throws_iff_example :
  hoursInputListener 0
    (hoursPage (mkHoursInput "3" (Some 0%nat)) [mkModal None (Some "")])
  = Throw TypeError
      (hoursPage (mkHoursInput "3" (Some 0%nat)) [mkModal None (Some "")]).
Proof.
  destruct (hours_input_throws_iff
              (hoursPage (mkHoursInput "3" (Some 0%nat)) [mkModal None (Some "")])
              0%nat) as [[_ H1] H2].
  apply H2, H1.
  exists (mkHoursInput "3" (Some 0%nat)), 0%nat, (mkModal None (Some "")).
  split; [reflexivity|]. split; [reflexivity | exact I].
Defined.

Lemma nth_error_updateNth {A} (f : A -> A) (l : list A) :
  forall i a, nth_error l i = Some a -> nth_error (updateNth i f l) i = Some (f a).
Proof.
  induction l as [|b l IH]; intros [|i] a H; try discriminate.
  - injection H as ->. reflexivity.
  - cbn [updateNth nth_error] in *. now apply IH.
Qed.

Lemma updateNth_updateNth {A} (f g : A -> A) (l : list A) :
  forall i, updateNth i f (updateNth i g l) = updateNth i (fun a => f (g a)) l.
Proof.
  induction l as [|b l IH]; intros [|i]; cbn [updateNth]; try reflexivity.
  now rewrite IH.
Qed.

(** X5: the hours listener is idempotent: run again on the page it left,
    with the field unchanged, it leaves the same page with the same
    outcome; the cost text it writes does not depend on the text that was
    there. *)
Theorem hoursInputListener_idempotent (s : State) (i : nat) :
  hoursInputListener i (stateOf (hoursInputListener i s)) = hoursInputListener i s.
Proof.
  unfold stateOf.
  unfold hoursInputListener at 2 3. unfold bind, gets.
  destruct (nth_error (hoursInputs s) i) as [this|] eqn:Hi.
  2:{ cbn [ret outcome fst]. unfold hoursInputListener, bind, gets. now rewrite Hi. }
  destruct (closest this s) as [[j modal]|] eqn:Hc.
  2:{ cbn [ret outcome fst]. unfold hoursInputListener, bind, gets.
      now rewrite Hi, Hc. }
  destruct (alertInfo modal) as [info|] eqn:Ha; cbn [nonNull ret throw].
  2:{ cbn [outcome fst]. unfold hoursInputListener, bind, gets.
      now rewrite Hi, Hc, Ha. }
  destruct (RatePattern.exec info) as [groups|] eqn:He; cbn [nonNull ret throw].
  2:{ cbn [outcome fst]. unfold hoursInputListener, bind, gets.
      rewrite Hi, Hc, Ha. cbn [nonNull ret]. now rewrite He. }
  destruct (calculatedCost modal) as [old|] eqn:Hcost; cbn [isSome when ret].
  2:{ unfold ret. cbn [outcome fst]. unfold hoursInputListener, bind, gets.
      rewrite Hi, Hc, Ha. cbn [nonNull]. unfold ret. rewrite He. cbn [nonNull].
      unfold ret. now rewrite Hcost. }
  unfold modify. cbn [outcome fst].
  set (text := "Total cost: "
               ++ toFixed 2 (multiply (StringToNumber (hoursValue this))
                                      (parseFloat groups)) ++ " credits").
  unfold hoursInputListener, bind, gets. state_simpl. rewrite Hi.
  assert (Hc' : closest this (withModals (updateNth j (setCost text) (modals s)) s)
                = Some (j, setCost text modal)).
  { unfold closest in *. state_simpl.
    destruct (closestModal this) as [k|]; [|discriminate].
    destruct (nth_error (modals s) k) as [m|] eqn:Hm; [|discriminate].
    injection Hc as -> ->. now rewrite (nth_error_updateNth _ _ _ _ Hm). }
  rewrite Hc'. cbn [setCost alertInfo calculatedCost]. rewrite Ha.
  cbn [nonNull ret]. rewrite He. cbn [nonNull ret isSome when].
  unfold modify. state_simpl. rewrite updateNth_updateNth.
  fold text. reflexivity.
Qed.

(** ** The resource filter at the edges *)

Lemma filteredCards_untitled (st ft : string) (c : Card) (after : list Card) :
  cardTitle c = None ->
  forall before,
    (forall b, In b before -> cardTitle b <> None) ->
    filteredCards st ft (before ++ c :: after)
    = ((map (fun b => setDisplay (if shownBy st ft b then "block" else "none") b)
            before ++ c :: after)%list, Some TypeError).
Proof.
  intros Hc. induction before as [|b before IH]; intros Hb.
  - cbn [app map filteredCards]. now rewrite Hc.
  - cbn [app map filteredCards]. unfold shownBy.
    destruct (cardTitle b) as [t|] eqn:Ht.
    + rewrite IH by (intros b' Hin; apply Hb; now right). reflexivity.
    + exfalso. apply (Hb b); [now left | exact Ht].
Qed.

(** X6: when a card has no title, [filterResources] throws a TypeError at
    the first such card: the cards before it have been shown or hidden by
    the search, that card and all the cards after it keep the display they
    had. *)
Theorem filterResources_stops_at_untitled_card
  (s : State) (Q F : string) (before after : list Card) (c : Card) :
  searchInput s = Some Q ->
  typeFilter s = Some F ->
  resourceCards s = (before ++ c :: after)%list ->
  (forall b, In b before -> cardTitle b <> None) ->
  cardTitle c = None ->
  filterResources s =
  Throw TypeError
    (withResourceCards
       (map (fun b => setDisplay
                        (if shownBy (toLowerCase Q) F b then "block" else "none") b)
            before ++ c :: after)%list s).
Proof.
  intros HQ HF Hcards Hb Hc. rewrite filterResources_eq, HQ, HF, Hcards.
  now rewrite (filteredCards_untitled _ _ c after Hc before Hb).
Qed.

(** A search for 'gpu' on a catalog whose second card has no title: the
    first card is shown, the third is not reached. *)
Lemma filterResources_stops_at_untitled_card_example :
  filterResources tornCatalog =
  Throw TypeError
    (withResourceCards
       [mkCard (Some "Fast GPU node") (Some "compute") "block";
        mkCard None (Some "compute") "block";
        mkCard (Some "GPU archive") (Some "storage") ""]
       tornCatalog).
Proof.
  refine (filterResources_stops_at_untitled_card tornCatalog "gpu" ""
            [mkCard (Some "Fast GPU node") (Some "compute") ""]
            [mkCard (Some "GPU archive") (Some "storage") ""]
            (mkCard None (Some "compute") "block")
            eq_refl eq_refl eq_refl _ eq_refl).
  intros b [<- | []]. discriminate.
Defined.

Lemma occursIn_trans (a b c : string) : occursIn a b -> occursIn b c -> occursIn a c.
Proof.
  intros (p & q & ->) (p' & q' & ->).
  exists (p' ++ p), (q ++ q'). now rewrite !append_assoc.
Qed.

Lemma filteredCards_broader (st st' ft ft' : string) :
  occursIn st st' -> ft = "" \/ ft = ft' ->
  forall (cards : list Card) (i : nat) (c' : Card),
    nth_error (fst (filteredCards st' ft' cards)) i = Some c' ->
    visible c' ->
    exists c, nth_error (fst (filteredCards st ft cards)) i = Some c /\ visible c.
Proof.
  intros Hst Hft. induction cards as [|a cards IH]; intros i c' Hn Hv.
  - destruct i; discriminate.
  - cbn [filteredCards] in *. destruct (cardTitle a) as [t|].
    + destruct (filteredCards st' ft' cards) as [r' e'].
      destruct (filteredCards st ft cards) as [r e].
      cbn [fst] in *. destruct i as [|i]; cbn [nth_error] in *.
      * injection Hn as <-. eexists; split; [reflexivity|].
        unfold visible in *. cbn [setDisplay display] in *.
        destruct (includes (toLowerCase t) st' && matchesType ft' (dataType a)) eqn:E;
          [|discriminate].
        apply andb_true_iff in E as [E1 E2].
        apply includes_spec in E1. apply matchesType_spec in E2.
        assert (E1' : includes (toLowerCase t) st = true)
          by (apply includes_spec; eapply occursIn_trans; eassumption).
        assert (E2' : matchesType ft (dataType a) = true).
        { apply matchesType_spec. destruct Hft as [-> | ->]; [now left | exact E2]. }
        now rewrite E1', E2'.
      * now apply IH with (c' := c').
    + cbn [fst] in *. now exists c'.
Qed.

Lemma resourceCards_searchFor (Q F : string) (s : State) :
  resourceCards (searchFor Q F s)
  = fst (filteredCards (toLowerCase Q) F (resourceCards s)).
Proof.
  unfold searchFor, stateOf. rewrite filterResources_eq. state_simpl.
  destruct (filteredCards (toLowerCase Q) F (resourceCards s)) as [cards [e|]];
    reflexivity.
Qed.

(** X7: a broader search never hides a card: when the text [Q] occurs in
    the text [Q'], letter case apart, and the category is dropped or kept,
    every card that is visible after the search for [Q'] is visible after
    the search for [Q], on any page, also one where the filter stops at a
    card without a title. *)
Theorem broader_search_shows_more
  (s : State) (Q Q' F F' : string) (i : nat) (c' : Card) :
  containsIgnoringCase Q' Q ->
  F = "" \/ F = F' ->
  nth_error (resourceCards (searchFor Q' F' s)) i = Some c' ->
  visible c' ->
  exists c, nth_error (resourceCards (searchFor Q F s)) i = Some c /\ visible c.
Proof.
  intros HQ HF. rewrite !resourceCards_searchFor.
  now apply filteredCards_broader.
Qed.

(** 'Fast gpu node' is shown by the search for 'GPU n' among the compute
    resources, and so by the search for 'gpu' in all categories. *)
Lemma broader_search_shows_more_example :
  exists c, nth_error (resourceCards (searchFor "gpu" "" catalogPage)) 0 = Some c
            /\ visible c.
Proof.
  refine (broader_search_shows_more catalogPage "gpu" "GPU n" "" "compute" 0%nat
            (mkCard (Some "Fast gpu node") (Some "compute") "block") _ _ _ eq_refl).
  - exists "", " n". reflexivity.
  - now left.
  - reflexivity.
Defined.

(** X8: the empty search text with the empty category shows every card of
    a page whose cards all have a title. *)
Theorem empty_search_shows_all (s : State) (c : Card) :
  (forall b, In b (resourceCards s) -> cardTitle b <> None) ->
  In c (resourceCards (searchFor "" "" s)) ->
  visible c.
Proof.
  intros Hb. rewrite resourceCards_searchFor, (filteredCards_titled _ _ _ Hb).
  cbn [fst toLowerCase]. intros Hin. apply in_map_iff in Hin as (b & <- & Hin).
  unfold shownBy. destruct (cardTitle b) as [t|] eqn:Ht.
  - assert (E : includes (toLowerCase t) "" = true).
    { apply includes_spec. exists "", (toLowerCase t). reflexivity. }
    rewrite E. reflexivity.
  - exfalso. now apply (Hb b).
Qed.

Lemma empty_search_shows_all_example :
  Forall visible (resourceCards (searchFor "" "" catalogPage)).
Proof.
  apply Forall_forall. intros c.
  apply (empty_search_shows_all catalogPage c).
  intros b [<- | [<- | [<- | []]]]; discriminate.
Defined.

(** ** What no event and no timer changes *)

Lemma map_updateNth {A B} (g : A -> B) (f : A -> A) (l : list A) :
  (forall a, g (f a) = g a) ->
  forall i, map g (updateNth i f l) = map g l.
Proof.
  intros H. induction l as [|a l IH]; intros [|i]; cbn [updateNth map];
    try reflexivity.
  - now rewrite H.
  - now rewrite IH.
Qed.

Lemma length_updateNth {A} (f : A -> A) (l : list A) :
  forall i, List.length (updateNth i f l) = List.length l.
Proof.
  induction l as [|a l IH]; intros [|i]; cbn [updateNth List.length];
    try reflexivity.
  now rewrite IH.
Qed.

Lemma length_tickElements (prng : nat -> Number) (l : list Metric) :
  forall k, List.length (tickElements prng k l) = List.length l.
Proof.
  induction l as [|a l IH]; intros k; cbn [tickElements List.length];
    [reflexivity | now rewrite IH].
Qed.

Lemma filteredCards_fixed (st ft : string) (cards : list Card) :
  map cardTitle (fst (filteredCards st ft cards)) = map cardTitle cards /\
  map dataType (fst (filteredCards st ft cards)) = map dataType cards.
Proof.
  induction cards as [|c cards [IH1 IH2]]; [now split|].
  cbn [filteredCards]. destruct (cardTitle c) as [t|] eqn:Ht.
  - destruct (filteredCards st ft cards) as [r e]. cbn [fst map] in *.
    cbn [setDisplay cardTitle dataType]. rewrite Ht, IH1, IH2. now split.
  - now split.
Qed.

Lemma filterResources_fixedPart (s : State) :
  fixedPart (stateOf (filterResources s)) = fixedPart s.
Proof.
  unfold stateOf. rewrite filterResources_eq.
  destruct (searchInput s) as [q|] eqn:Hq; [|reflexivity].
  destruct (typeFilter s) as [f|] eqn:Hf; [|reflexivity].
  destruct (filteredCards_fixed (toLowerCase q) f (resourceCards s)) as [H1 H2].
  destruct (filteredCards (toLowerCase q) f (resourceCards s)) as [cards [e|]];
    cbn [fst outcome] in *; unfold fixedPart; state_simpl; now rewrite H1, H2.
Qed.

Lemma map_updateNth_at {A B} (g : A -> B) (f : A -> A) (l : list A) :
  forall i a, nth_error l i = Some a -> g (f a) = g a ->
              map g (updateNth i f l) = map g l.
Proof.
  induction l as [|b l IH]; intros [|i] a Hn Hg; cbn [updateNth map] in *;
    try reflexivity.
  - injection Hn as ->. now rewrite Hg.
  - now rewrite (IH i a).
Qed.

Lemma closest_nth_error (this : HoursInput) (s : State) (j : nat) (modal : Modal) :
  closest this s = Some (j, modal) -> nth_error (modals s) j = Some modal.
Proof.
  unfold closest. destruct (closestModal this) as [k|]; [|discriminate].
  destruct (nth_error (modals s) k) as [m|] eqn:Hm; [|discriminate].
  intros H. injection H as <- <-. exact Hm.
Qed.

Lemma hoursInputListener_cases (i : nat) (s : State) :
  stateOf (hoursInputListener i s) = s \/
  exists j text modal old,
    nth_error (modals s) j = Some modal /\ calculatedCost modal = Some old /\
    stateOf (hoursInputListener i s)
    = withModals (updateNth j (setCost text) (modals s)) s.
Proof.
  unfold stateOf, hoursInputListener, bind, gets.
  destruct (nth_error (hoursInputs s) i) as [this|]; [|now left].
  destruct (closest this s) as [[j modal]|] eqn:Hc; [|now left].
  apply closest_nth_error in Hc.
  destruct (alertInfo modal) as [info|]; cbn [nonNull]; [|now left].
  unfold ret. destruct (RatePattern.exec info) as [groups|]; cbn [nonNull];
    [|now left].
  unfold ret. destruct (calculatedCost modal) as [old|] eqn:Ho;
    cbn [isSome when]; [|now left].
  right. eexists j, _, modal, old. repeat split; assumption.
Qed.

Lemma hoursInputListener_fixedPart (i : nat) (s : State) :
  fixedPart (stateOf (hoursInputListener i s)) = fixedPart s.
Proof.
  destruct (hoursInputListener_cases i s)
    as [-> | (j & text & modal & old & Hn & Ho & ->)]; [reflexivity|].
  unfold fixedPart. state_simpl.
  rewrite (map_updateNth alertInfo) by reflexivity.
  rewrite (map_updateNth_at (fun m => isSome (calculatedCost m)) _ _ j modal Hn);
    [reflexivity|].
  cbn [setCost calculatedCost isSome]. now rewrite Ho.
Qed.

Lemma callListener_fixedPart (l : Listener) (event : Event) (s : State) :
  fixedPart (stateOf (callListener l event s)) = fixedPart s.
Proof.
  destruct l as [| |i]; cbn [callListener].
  - apply filterResources_fixedPart.
  - destruct (key event =? "Enter")%string; cbn [when];
      [apply filterResources_fixedPart | reflexivity].
  - apply hoursInputListener_fixedPart.
Qed.

Lemma dispatchTo_fixedPart (ls : list (Target * EventType * Listener)) (event : Event) :
  forall s, fixedPart (fst (dispatchTo ls event s)) = fixedPart s.
Proof.
  induction ls as [|[[t ty] l] ls IH]; intros s; [reflexivity|].
  cbn [dispatchTo].
  destruct (Target_eqb t (target event) && EventType_eqb ty (type event)).
  - pose proof (callListener_fixedPart l event s) as H. unfold stateOf in H.
    destruct (outcome (callListener l event s)) as [s1 err]. cbn [fst] in H.
    specialize (IH s1). destruct (dispatchTo ls event s1) as [s2 log].
    cbn [fst] in *. congruence.
  - apply IH.
Qed.

Lemma callCallback_fixedPart (c : Callback) (s : State) :
  fixedPart (stateOf (callCallback c s)) = fixedPart s.
Proof.
  destruct c as [|i]; cbn [callCallback]; unfold stateOf.
  - rewrite updateResourceMetrics_eq. cbn [outcome fst]. unfold fixedPart.
    state_simpl. now rewrite length_tickElements.
  - unfold updateMetric, modify. cbn [outcome fst]. unfold fixedPart.
    state_simpl. now rewrite length_updateNth.
Qed.

Lemma step_fixedPart (a : Action) (s : State) :
  fixedPart (fst (step a s)) = fixedPart s.
Proof.
  destruct a as [event|k|k|text|category|i text]; cbn [step].
  - apply dispatchTo_fixedPart.
  - destruct (nth_error (intervals s) k) as [[c ms]|]; [|reflexivity].
    pose proof (callCallback_fixedPart c s) as H. unfold stateOf in H.
    now destruct (outcome (callCallback c s)).
  - destruct (nth_error (timeouts s) k) as [[c ms]|]; [|reflexivity].
    pose proof (callCallback_fixedPart c
                  (withTimeouts (removeNth k (timeouts s)) s)) as H.
    unfold stateOf in H.
    now destruct (outcome (callCallback c (withTimeouts (removeNth k (timeouts s)) s))).
  - cbn [fst]. destruct (searchInput s) eqn:E; [|reflexivity].
    unfold fixedPart. state_simpl. now rewrite E.
  - cbn [fst]. destruct (typeFilter s) eqn:E; [|reflexivity].
    unfold fixedPart. state_simpl. now rewrite E.
  - cbn [fst]. unfold fixedPart. state_simpl.
    now rewrite (map_updateNth closestModal).
Qed.

Lemma run_fixedPart (actions : list Action) :
  forall s, fixedPart (fst (run actions s)) = fixedPart s.
Proof.
  induction actions as [|a actions IH]; intros s; [reflexivity|].
  cbn [run]. pose proof (step_fixedPart a s) as H.
  destruct (step a s) as [s1 log1]. specialize (IH s1).
  destruct (run actions s1) as [s2 log2]. cbn [fst] in *. congruence.
Qed.

(** X9: whatever events and timers follow, in any order, the script
    registers nothing more and cancels nothing, and it writes to no part of
    the page that it reads its inputs from: the listeners, the interval
    timers and the tooltip and popover instances stay as they are, and so do
    the titles and categories of the cards, the info texts of the modals,
    the presence of the search elements and of the cost elements, and the
    number of metric elements. *)
Theorem run_keeps_fixedPart (actions : list Action) (s : State) :
  fixedPart (fst (run actions s)) = fixedPart s.
Proof. apply run_fixedPart. Qed.

(** ** A search after any history *)

Lemma shownBy_spec (Q F title : string) (c : Card) :
  cardTitle c = Some title ->
  shownBy (toLowerCase Q) F c = true <->
  containsIgnoringCase title Q /\ (F = "" \/ dataType c = Some F).
Proof.
  intros Hc. unfold shownBy, containsIgnoringCase. rewrite Hc.
  now rewrite andb_true_iff, includes_spec, matchesType_spec.
Qed.

Lemma fixedPart_eq (a b : State) :
  fixedPart a = fixedPart b ->
  listeners a = listeners b /\
  isSome (searchInput a) = isSome (searchInput b) /\
  isSome (typeFilter a) = isSome (typeFilter b) /\
  map cardTitle (resourceCards a) = map cardTitle (resourceCards b) /\
  map dataType (resourceCards a) = map dataType (resourceCards b).
Proof.
  unfold fixedPart. intros H. injection H. intros. repeat split; assumption.
Qed.

Lemma fixedPart_loaded (s : State) :
  isSome (searchInput (loaded s)) = isSome (searchInput s) /\
  isSome (typeFilter (loaded s)) = isSome (typeFilter s) /\
  map cardTitle (resourceCards (loaded s)) = map cardTitle (resourceCards s) /\
  map dataType (resourceCards (loaded s)) = map dataType (resourceCards s).
Proof. rewrite loaded_eq. now repeat split. Qed.

Lemma click_runs_filterResources (s s1 : State) :
  searchButton s = true ->
  listeners s1 = listeners (loaded s) ->
  step (Dispatch clickSearch) s1
  = (stateOf (filterResources s1),
     [RanListener filterResourcesFn (snd (outcome (filterResources s1)))]).
Proof.
  intros Hb Hl. cbn [step]. unfold dispatchEvent. rewrite Hl, loaded_eq.
  cbn [listeners]. rewrite Hb.
  cbn [app dispatchTo clickSearch target type Target_eqb EventType_eqb andb
       callListener].
  unfold stateOf. destruct (outcome (filterResources s1)) as [s2 err].
  rewrite dispatchTo_app.
  rewrite (dispatchTo_none _ _ s2) by (destruct (isSome (searchInput s)); reflexivity).
  cbn [fst snd app]. rewrite dispatchTo_app.
  rewrite (dispatchTo_none _ _ s2) by (destruct (isSome (typeFilter s)); reflexivity).
  cbn [fst snd app]. now rewrite dispatchTo_hours_none.
Qed.

Lemma isSome_true {A} (o : option A) : isSome o = true -> exists a, o = Some a.
Proof. destruct o as [a|]; [now exists a | discriminate]. Qed.

Lemma nth_error_map_eq {A B} (f : A -> B) (l l' : list A) (i : nat) (a : A) :
  map f l = map f l' -> nth_error l i = Some a ->
  exists a', nth_error l' i = Some a' /\ f a' = f a.
Proof.
  revert l' i. induction l as [|b l IH]; intros [|b' l'] i H Hn;
    try discriminate; [destruct i; discriminate|].
  cbn [map] in H. injection H as Hb Hl. destruct i as [|i]; cbn [nth_error] in *.
  - injection Hn as <-. now exists b'.
  - now apply IH.
Qed.

(** X10: the result of a search does not depend on what happened before:
    on a page with the search button, the search input, the category
    selector and a title in every card, after any sequence of events, edits
    and timers a click of the search button throws nothing and leaves each
    card visible exactly when its title contains the text that is in the
    search input now, letter case apart, and the category selected now is
    empty or the card's. *)
Theorem search_after_any_history (s : State) (actions : list Action) :
  filterReady s ->
  searchButton s = true ->
  exists Q F,
    searchInput (fst (run actions (loaded s))) = Some Q /\
    typeFilter (fst (run actions (loaded s))) = Some F /\
    snd (step (Dispatch clickSearch) (fst (run actions (loaded s))))
    = [RanListener filterResourcesFn None] /\
    forall i c, nth_error (resourceCards s) i = Some c ->
      exists c' title,
        nth_error
          (resourceCards
             (fst (step (Dispatch clickSearch) (fst (run actions (loaded s)))))) i
        = Some c' /\
        cardTitle c = Some title /\
        (visible c' <->
         containsIgnoringCase title Q /\ (F = "" \/ dataType c = Some F)).
Proof.
  intros (Hi & Hf & Ht) Hb.
  destruct (fixedPart_eq _ _ (run_fixedPart actions (loaded s)))
    as (Hl & Hsi & Htf & Hct & Hdt).
  destruct (fixedPart_loaded s) as (Hsi' & Htf' & Hct' & Hdt').
  rewrite Hsi' in Hsi. rewrite Htf' in Htf. rewrite Hct' in Hct. rewrite Hdt' in Hdt.
  generalize dependent (fst (run actions (loaded s))). intros s1 Hl Hsi Htf Hct Hdt.
  destruct (isSome_true (searchInput s1)) as [Q HQ].
  { rewrite Hsi. destruct (searchInput s); [reflexivity | congruence]. }
  destruct (isSome_true (typeFilter s1)) as [F HF].
  { rewrite Htf. destruct (typeFilter s); [reflexivity | congruence]. }
  assert (Ht1 : forall c, In c (resourceCards s1) -> cardTitle c <> None).
  { intros c1 Hin. apply In_nth_error in Hin as [i Hn].
    destruct (nth_error_map_eq cardTitle _ _ i c1 Hct Hn) as (c & Hc & <-).
    apply Ht. eapply nth_error_In; eassumption. }
  exists Q, F. rewrite (click_runs_filterResources s s1 Hb Hl).
  unfold stateOf. rewrite filterResources_eq, HQ, HF.
  rewrite (filteredCards_titled _ _ _ Ht1). cbn [outcome fst snd]. state_simpl.
  split; [reflexivity|]. split; [reflexivity|]. split; [reflexivity|].
  intros i c Hn.
  destruct (nth_error_map_eq cardTitle _ _ i c (eq_sym Hct) Hn) as (c1 & Hn1 & Hc1).
  destruct (nth_error_map_eq dataType _ _ i c (eq_sym Hdt) Hn) as (c2 & Hn2 & Hc2).
  assert (c2 = c1) by congruence. subst c2.
  destruct (cardTitle c) as [title|] eqn:Hc.
  2:{ exfalso. apply (Ht c); [eapply nth_error_In; eassumption | exact Hc]. }
  eexists; exists title. split; [apply map_nth_error; exact Hn1|].
  split; [reflexivity|].
  unfold visible. cbn [setDisplay display].
  rewrite <- Hc2, <- (shownBy_spec Q F title c1 Hc1).
  destruct (shownBy (toLowerCase Q) F c1); split; try discriminate; reflexivity.
Qed.

(** The catalog after an edit of the search text to 'TAPE', the selection
    of all categories and a keyup of the letter 'E': a click shows the tape
    library alone. *)
Lemma search_after_any_history_catalog :
  map display
    (resourceCards
       (fst (step (Dispatch clickSearch)
               (fst (run [EditSearch "TAPE"; SelectType ""; Dispatch (keyupSearch "E")]
                         (loaded catalogPage))))))
  = ["none"; "none"; "block"]
  /\ exists Q F,
    searchInput
      (fst (run [EditSearch "TAPE"; SelectType ""; Dispatch (keyupSearch "E")]
                (loaded catalogPage))) = Some Q /\
    typeFilter
      (fst (run [EditSearch "TAPE"; SelectType ""; Dispatch (keyupSearch "E")]
                (loaded catalogPage))) = Some F /\
    snd (step (Dispatch clickSearch)
           (fst (run [EditSearch "TAPE"; SelectType ""; Dispatch (keyupSearch "E")]
                     (loaded catalogPage))))
    = [RanListener filterResourcesFn None] /\
    forall i c, nth_error (resourceCards catalogPage) i = Some c ->
      exists c' title,
        nth_error
          (resourceCards
             (fst (step (Dispatch clickSearch)
                     (fst (run [EditSearch "TAPE"; SelectType "";
                                Dispatch (keyupSearch "E")]
                               (loaded catalogPage)))))) i
        = Some c' /\
        cardTitle c = Some title /\
        (visible c' <->
         containsIgnoringCase title Q /\ (F = "" \/ dataType c = Some F)).
Proof.
  split; [vm_compute; reflexivity|].
  apply (search_after_any_history catalogPage
           [EditSearch "TAPE"; SelectType ""; Dispatch (keyupSearch "E")]).
  - split; [discriminate|]. split; [discriminate|].
    intros c [<- | [<- | [<- | []]]]; discriminate.
  - reflexivity.
Defined.

(** ** No minus sign in a metric *)

Lemma toDigitsFuel_digits (fuel : nat) :
  forall n acc,
    exists ds, toDigitsFuel (S fuel) n acc = ds ++ acc /\ ds <> "" /\
               allDigits ds = true.
Proof.
  induction fuel as [|k IH]; intros n acc.
  - destruct (digitChar_spec (n mod 10)) as [Hd _];
      [apply Z.mod_pos_bound; reflexivity|].
    exists (String (digitChar (n mod 10)) "").
    split; [cbn [toDigitsFuel]; now destruct (n <? 10)|].
    split; [discriminate|]. cbn [allDigits]. now rewrite Hd.
  - remember (S k) as fuel' eqn:Ef. cbn [toDigitsFuel].
    destruct (digitChar_spec (n mod 10)) as [Hd _];
      [apply Z.mod_pos_bound; reflexivity|].
    destruct (n <? 10).
    + exists (String (digitChar (n mod 10)) "").
      split; [reflexivity|]. split; [discriminate|].
      cbn [allDigits]. now rewrite Hd.
    + subst fuel'.
      destruct (IH (n / 10) (String (digitChar (n mod 10)) acc))
        as (ds & E & Hne & Had).
      exists (ds ++ String (digitChar (n mod 10)) "").
      split; [now rewrite E, append_assoc|].
      split; [destruct ds; [congruence | discriminate]|].
      rewrite allDigits_append, Had. cbn [allDigits]. now rewrite Hd.
Qed.

Lemma toDigits_digits (n : Z) : toDigits n <> "" /\ allDigits (toDigits n) = true.
Proof.
  unfold toDigits.
  destruct (toDigitsFuel_digits (Z.to_nat (Z.log2 n)) n "") as (ds & E & Hne & Had).
  rewrite E, append_nil_r. now split.
Qed.

Lemma toStringLarge_head (v : Q) : startsWith (toStringLarge v) "-" = false.
Proof.
  unfold toStringLarge.
  destruct (isNumberValue _ v); [reflexivity|].
  destruct (toDigits_digits
              (shortestDigits 17 1 (Z.of_nat (length (toDigits (Qfloor v)))) v))
    as [Hne Had].
  destruct (toDigits _) as [|d r]; [congruence|].
  cbn [allDigits] in Had. apply andb_true_iff in Had as [Hd _].
  destruct r; cbn [startsWith]; now rewrite (digit_neq d "-" Hd eq_refl).
Qed.

Lemma Math_max_zero_cases (y : Number) :
  Math_max [Real 0; y] = NaN \/ Math_max [Real 0; y] = Infinity false \/
  exists v, Math_max [Real 0; y] = Real v /\ Qle_bool 0 v = true.
Proof.
  destruct y as [|[]| |v].
  - now left.
  - right; right. exists 0%Q. now split.
  - right; left. reflexivity.
  - right; right. exists 0%Q. now split.
  - right; right. rewrite Math_max_zero by discriminate.
    cbn [lessThan realOf]. destruct (Qle_bool v 0) eqn:E; cbn [negb].
    + exists 0%Q. now split.
    + exists v. split; [reflexivity|]. apply Qle_bool_iff.
      destruct (Qlt_le_dec v 0) as [H|H]; [|exact H].
      apply Qlt_le_weak, Qle_bool_iff in H. congruence.
Qed.

Lemma newValueOf_head (currentValue fluctuation : Number) :
  startsWith (newValueOf currentValue fluctuation) "-" = false.
Proof.
  unfold newValueOf.
  destruct (Math_max_zero_cases (add currentValue fluctuation))
    as [-> | [-> | (v & -> & Hv)]]; [reflexivity | reflexivity |].
  unfold toFixed. rewrite Hv. cbn [append].
  destruct (Qle_bool (inject_Z (10 ^ 21)) (Qabs v)); [apply toStringLarge_head|].
  assert (Hn : 0 <= Qfloor (Qabs v * inject_Z (10 ^ Z.of_nat 1) + (1 # 2))).
  { change 0 with (Qfloor 0). apply Qfloor_resp_le.
    pose proof (Qabs_nonneg v).
    change (inject_Z (10 ^ Z.of_nat 1)) with 10%Q. lra. }
  destruct (fixedDigits_spec 0 _ Hn) as (ip & fp & E & Hne & Hip & _).
  rewrite E. now apply startsWith_digit_head.
Qed.

Lemma In_tickElements (prng : nat -> Number) (l : list Metric) (element' : Metric) :
  forall k, In element' (tickElements prng k l) ->
            exists n element, In element l /\ element' = tickElement (prng n) element.
Proof.
  induction l as [|el l IH]; intros k H; [contradiction|].
  cbn [tickElements] in H. destruct H as [<- | H].
  - exists k, el. split; [now left | reflexivity].
  - destruct (IH _ H) as (n & element & Hin & E).
    exists n, element. split; [now right | exact E].
Qed.

(** X11: whatever text a metric element held, a number or not, and whatever
    [Math.random] returns, the text that a round of
    [updateResourceMetrics] writes does not begin with a minus sign. *)
Theorem metric_text_never_negative (s : State) (element : Metric) :
  In element (metricElements (stateOf (updateResourceMetrics s))) ->
  startsWith (textContent element) "-" = false.
Proof.
  unfold stateOf. rewrite updateResourceMetrics_eq. cbn [outcome fst metricElements].
  intros H. apply In_tickElements in H as (n & el & _ & ->).
  rewrite textContent_tickElement. apply newValueOf_head.
Qed.

(** A round on the texts 'N/A', '-3.5', '-Infinity' and '12', with the
    draw 0.25. *)
Lemma metric_text_never_negative_example :
  map textContent
    (metricElements
       (stateOf (updateResourceMetrics (dashboard ["N/A"; "-3.5"; "-Infinity"; "12"]))))
  = ["NaN"; "0.0"; "0.0"; "9.5"]
  /\ Forall (fun element => startsWith (textContent element) "-" = false)
       (metricElements
          (stateOf (updateResourceMetrics
                      (dashboard ["N/A"; "-3.5"; "-Infinity"; "12"])))).
Proof.
  split; [vm_compute; reflexivity|].
  apply Forall_forall. intros element.
  apply (metric_text_never_negative (dashboard ["N/A"; "-3.5"; "-Infinity"; "12"])).
Defined.

(** ** The highlight of a round and its removal *)

Lemma fold_updateNth_seq {A} (f : A -> A) (rest : list A) :
  forall done : list A,
    fold_left (fun els i => updateNth i f els)
              (seq (List.length done) (List.length rest)) (done ++ rest)%list
    = (done ++ map f rest)%list.
Proof.
  induction rest as [|a rest IH]; intros done; [reflexivity|].
  cbn [List.length seq fold_left map]. rewrite updateNth_app.
  replace (done ++ f a :: rest)%list with ((done ++ [f a]) ++ rest)%list
    by now rewrite <- app_assoc.
  replace (S (List.length done)) with (List.length (done ++ [f a])%list)
    by (rewrite length_app; cbn [List.length]; lia).
  rewrite IH. now rewrite <- app_assoc.
Qed.

(** The timeouts of a round fire one after the other. *)
Lemma fire_timeouts (todo : list nat) :
  forall s,
    timeouts s = map (fun i => (removeUpdatedFn i, 1000)) todo ->
    timeouts (fst (run (List.repeat (TimeoutFires 0) (List.length todo)) s)) = [] /\
    metricElements (fst (run (List.repeat (TimeoutFires 0) (List.length todo)) s))
    = fold_left (fun els i => updateNth i (classListRemove "updated") els)
                todo (metricElements s) /\
    snd (run (List.repeat (TimeoutFires 0) (List.length todo)) s)
    = map (fun i => RanCallback (removeUpdatedFn i) None) todo.
Proof.
  induction todo as [|i todo IH]; intros s H.
  - cbn [List.length List.repeat run fst snd map fold_left]. now split.
  - cbn [List.length List.repeat run step map fold_left]. cbn [map] in H. rewrite H.
    cbn [nth_error removeNth callCallback]. unfold updateMetric, modify.
    cbn [outcome].
    set (s1 := withMetricElements _ _).
    destruct (IH s1) as (H1 & H2 & H3); [reflexivity|].
    destruct (run (List.repeat (TimeoutFires 0) (List.length todo)) s1) as [s2 log].
    cbn [fst snd app] in *. rewrite H1, H2, H3. now split.
Qed.

Lemma classList_tickElement (random : Number) (element : Metric) :
  In "updated" (classList (tickElement random element)) /\
  withoutUpdated (classList (tickElement random element))
  = withoutUpdated (classList element).
Proof.
  unfold tickElement, classListAdd, setTextContent. cbn [classList textContent].
  destruct (existsb (String.eqb "updated") (classList element)) eqn:E.
  - split; [|reflexivity].
    apply existsb_exists in E as (x & Hin & Hx).
    apply String.eqb_eq in Hx. now subst x.
  - split; [apply in_or_app; right; now left|].
    unfold withoutUpdated. rewrite filter_app. cbn [filter].
    cbn. now rewrite app_nil_r.
Qed.

Lemma settled_tickElements (prng : nat -> Number) (l : list Metric) :
  forall k,
    Forall (fun element => In "updated" (classList element)) (tickElements prng k l) /\
    map textContent (map (classListRemove "updated") (tickElements prng k l))
    = map textContent (tickElements prng k l) /\
    map classList (map (classListRemove "updated") (tickElements prng k l))
    = map (fun element => withoutUpdated (classList element)) l.
Proof.
  induction l as [|el l IH]; intros k; cbn [tickElements map].
  - split; [constructor | now split].
  - destruct (IH (S k)) as (H1 & H2 & H3).
    destruct (classList_tickElement (prng k) el) as [Hin Hw].
    split; [now constructor|]. rewrite H2, H3.
    split; [reflexivity|]. f_equal. exact Hw.
Qed.

Lemma round_then_timeouts (s : State) :
  timeouts s = [] ->
  Forall (fun element => In "updated" (classList element))
         (metricElements (stateOf (updateResourceMetrics s))) /\
  noError (snd (run (List.repeat (TimeoutFires 0) (List.length (metricElements s)))
                    (stateOf (updateResourceMetrics s)))) /\
  timeouts (fst (run (List.repeat (TimeoutFires 0) (List.length (metricElements s)))
                     (stateOf (updateResourceMetrics s)))) = [] /\
  map textContent
    (metricElements
       (fst (run (List.repeat (TimeoutFires 0) (List.length (metricElements s)))
                 (stateOf (updateResourceMetrics s)))))
  = map textContent (metricElements (stateOf (updateResourceMetrics s))) /\
  map classList
    (metricElements
       (fst (run (List.repeat (TimeoutFires 0) (List.length (metricElements s)))
                 (stateOf (updateResourceMetrics s)))))
  = map (fun element => withoutUpdated (classList element)) (metricElements s).
Proof.
  intros Ht. unfold stateOf. rewrite updateResourceMetrics_eq, Ht.
  cbn [outcome fst app].
  set (s1 := mkState _ _ _ _ _ _ _ _ _ _ _ _ _ _ _ _ _).
  destruct (settled_tickElements (prng s) (metricElements s) (randomCalls s))
    as (H1 & H2 & H3).
  destruct (fire_timeouts (seq 0 (List.length (metricElements s))) s1 eq_refl)
    as (F1 & F2 & F3).
  rewrite length_seq in F1, F2, F3.
  assert (Hm : metricElements s1
               = tickElements (prng s) (randomCalls s) (metricElements s))
    by reflexivity.
  rewrite Hm in F2.
  pose proof (fold_updateNth_seq (classListRemove "updated")
                (tickElements (prng s) (randomCalls s) (metricElements s)) [])
    as Hf.
  cbn [app List.length] in Hf. rewrite length_tickElements in Hf.
  rewrite Hf in F2.
  split; [exact H1|]. split; [|split; [exact F1|]].
  - rewrite F3. intros r Hr. apply in_map_iff in Hr as (i & <- & _). reflexivity.
  - rewrite F2, Hm. now split.
Qed.

(** X12: on the loaded page, a firing of the interval gives every metric
    element the class 'updated' and one timeout; when these timeouts have
    fired, which throws nothing, no timeout is left, every element holds
    the text the round wrote and its class list is the one from before the
    round without 'updated'. *)
Theorem updated_class_round_trip (s : State) :
  Forall (fun element => In "updated" (classList element))
         (metricElements (fst (step (IntervalFires 0) (loaded s)))) /\
  noError (snd (run (List.repeat (TimeoutFires 0) (List.length (metricElements s)))
                    (fst (step (IntervalFires 0) (loaded s))))) /\
  timeouts (fst (run (List.repeat (TimeoutFires 0) (List.length (metricElements s)))
                     (fst (step (IntervalFires 0) (loaded s))))) = [] /\
  map textContent
    (metricElements
       (fst (run (List.repeat (TimeoutFires 0) (List.length (metricElements s)))
                 (fst (step (IntervalFires 0) (loaded s))))))
  = map textContent (metricElements (fst (step (IntervalFires 0) (loaded s)))) /\
  map classList
    (metricElements
       (fst (run (List.repeat (TimeoutFires 0) (List.length (metricElements s)))
                 (fst (step (IntervalFires 0) (loaded s))))))
  = map (fun element => withoutUpdated (classList element)) (metricElements s).
Proof.
  assert (Hm : metricElements (loaded s) = metricElements s)
    by (rewrite loaded_eq; reflexivity).
  assert (Ht : timeouts (loaded s) = []) by (rewrite loaded_eq; reflexivity).
  assert (Hi : intervals (loaded s)
               = if isNil (metricElements s) then []
                 else [(updateResourceMetricsFn, 10000)])
    by (rewrite loaded_eq; reflexivity).
  assert (Hs : fst (step (IntervalFires 0) (loaded s))
               = stateOf (updateResourceMetrics (loaded s))).
  { cbn [step]. rewrite Hi. destruct (metricElements s) as [|el l] eqn:E;
      cbn [isNil nth_error].
    - unfold stateOf. rewrite updateResourceMetrics_eq, Hm, Ht.
      cbn [outcome fst tickElements List.length seq map app].
      rewrite Nat.add_0_r, <- Hm, <- Ht. symmetry. apply state_eta.
    - cbn [callCallback]. unfold stateOf.
      now destruct (outcome (updateResourceMetrics (loaded s))). }
  rewrite Hs, <- Hm. apply round_then_timeouts. exact Ht.
Qed.

(** ** One modal, one cost *)

Lemma nth_error_updateNth_neq {A} (f : A -> A) (l : list A) :
  forall j k, j <> k -> nth_error (updateNth j f l) k = nth_error l k.
Proof.
  induction l as [|a l IH]; intros [|j] [|k] H; cbn [updateNth nth_error];
    try reflexivity; [congruence|].
  apply IH. congruence.
Qed.

Lemma closest_closestModal (this : HoursInput) (s : State) (j : nat) (modal : Modal) :
  closest this s = Some (j, modal) -> closestModal this = Some j.
Proof.
  unfold closest. destruct (closestModal this) as [k|]; [|discriminate].
  destruct (nth_error (modals s) k); [|discriminate].
  intros H. now injection H as <- _.
Qed.

(** X13: an input in an hours field changes nothing of the page but the
    modals, keeps their number, and leaves every modal other than the
    field's own as it was, cost text included. *)
Theorem hours_input_writes_own_modal_only
  (s : State) (i : nat) (this : HoursInput) :
  nth_error (hoursInputs s) i = Some this ->
  stateOf (hoursInputListener i s)
  = withModals (modals (stateOf (hoursInputListener i s))) s /\
  List.length (modals (stateOf (hoursInputListener i s))) = List.length (modals s) /\
  forall k, closestModal this <> Some k ->
            nth_error (modals (stateOf (hoursInputListener i s))) k
            = nth_error (modals s) k.
Proof.
  intros Hi. unfold stateOf, hoursInputListener, bind, gets. rewrite Hi.
  assert (Hsame : s = withModals (modals s) s /\
                  List.length (modals s) = List.length (modals s) /\
                  forall k, closestModal this <> Some k ->
                            nth_error (modals s) k = nth_error (modals s) k).
  { split; [symmetry; apply withModals_same | now split]. }
  destruct (closest this s) as [[j modal]|] eqn:Hc; [|exact Hsame].
  apply closest_closestModal in Hc.
  destruct (alertInfo modal) as [info|]; cbn [nonNull]; [|exact Hsame].
  unfold ret. destruct (RatePattern.exec info) as [groups|]; cbn [nonNull];
    [|exact Hsame].
  unfold ret. destruct (calculatedCost modal); cbn [isSome when]; [|exact Hsame].
  unfold modify. cbn [outcome fst]. state_simpl.
  split; [reflexivity|]. split; [apply length_updateNth|].
  intros k Hk. apply nth_error_updateNth_neq. congruence.
Qed.

(** Two modals, the field in the first: the cost of the second stays. *)
Lemma hours_input_writes_own_modal_only_example :
  modals
    (stateOf
       (hoursInputListener 0
          (hoursPage (mkHoursInput "3" (Some 0%nat))
             [mkModal (Some "Cost: 2.5 credits/hour") (Some "");
              mkModal (Some "Cost: 4 credits/hour") (Some "Total cost: 8.00 credits")])))
  = [mkModal (Some "Cost: 2.5 credits/hour") (Some "Total cost: 7.50 credits");
     mkModal (Some "Cost: 4 credits/hour") (Some "Total cost: 8.00 credits")]
  /\ nth_error
       (modals
          (stateOf
             (hoursInputListener 0
                (hoursPage (mkHoursInput "3" (Some 0%nat))
                   [mkModal (Some "Cost: 2.5 credits/hour") (Some "");
                    mkModal (Some "Cost: 4 credits/hour")
                      (Some "Total cost: 8.00 credits")])))) 1
     = Some (mkModal (Some "Cost: 4 credits/hour") (Some "Total cost: 8.00 credits")).
Proof.
  split; [vm_compute; reflexivity|].
  destruct (hours_input_writes_own_modal_only
              (hoursPage (mkHoursInput "3" (Some 0%nat))
                 [mkModal (Some "Cost: 2.5 credits/hour") (Some "");
                  mkModal (Some "Cost: 4 credits/hour") (Some "Total cost: 8.00 credits")])
              0%nat (mkHoursInput "3" (Some 0%nat)) eq_refl) as (_ & _ & H).
  rewrite (H 1%nat) by discriminate. reflexivity.
Defined.

(** ** Reading back what a round wrote *)

Section ReadBack.
Local Open Scope Q_scope.

(** X14: what the next round reads from a metric element is the Number
    value for a decimal within a twentieth of the value that the round
    before had computed for it, when that value is below 10^21. *)
Theorem next_round_reads_back (currentValue fluctuation : Number) (v : Q) :
  Math_max [Real 0; add currentValue fluctuation] = Real v ->
  v < inject_Z (10 ^ 21) ->
  exists q,
    parseFloat (newValueOf currentValue fluctuation) = F q /\
    v - (1 # 20) < q /\ q <= v + (1 # 20).
Proof.
  intros Hm Hv. unfold newValueOf. rewrite Hm.
  assert (H0 : 0 <= v).
  { destruct (Math_max_zero_cases (add currentValue fluctuation))
      as [E | [E | (w & E & Hw)]]; rewrite Hm in E; try discriminate.
    injection E as E. rewrite E. now apply Qle_bool_iff. }
  unfold toFixed.
  assert (Ha : Qabs v == v) by now apply Qabs_pos.
  assert (Hb : Qle_bool (inject_Z (10 ^ 21)) (Qabs v) = false).
  { destruct (Qle_bool _ _) eqn:E; [|reflexivity]. apply Qle_bool_iff in E. lra. }
  assert (Hs : Qle_bool 0 v = true) by now apply Qle_bool_iff.
  rewrite Hb, Hs. cbn [append].
  set (n := Qfloor (Qabs v * inject_Z (10 ^ Z.of_nat 1) + (1 # 2))).
  assert (Hn : (0 <= n)%Z).
  { change 0%Z with (Qfloor 0). apply Qfloor_resp_le.
    change (inject_Z (10 ^ Z.of_nat 1)) with 10. lra. }
  assert (Hn2 : inject_Z n <= v * 10 + (1 # 2)).
  { unfold n. eapply Qle_trans; [apply Qfloor_le|].
    change (inject_Z (10 ^ Z.of_nat 1)) with 10. lra. }
  assert (Hn3 : v * 10 + (1 # 2) < inject_Z n + 1).
  { pose proof (Qlt_floor (Qabs v * inject_Z (10 ^ Z.of_nat 1) + (1 # 2))) as Hf.
    fold n in Hf. rewrite inject_Z_plus in Hf.
    change (inject_Z (10 ^ Z.of_nat 1)) with 10 in Hf.
    change (inject_Z 1) with 1 in Hf. lra. }
  destruct (fixedDigits_spec 0 n Hn) as [ip [fp [E [Hne [Hip [Hfp [Hl Hval]]]]]]].
  rewrite E, (parseFloat_fraction ip fp Hne Hip Hfp).
  exists (MV ip fp 0). split; [reflexivity|].
  rewrite (MV_fixed ip fp 1 n Hl Hval).
  change (inject_Z (10 ^ Z.of_nat 1)) with 10.
  split.
  - apply Qlt_shift_div_l; [reflexivity | lra].
  - apply Qle_shift_div_r; [reflexivity | lra].
Qed.

(** The value 12 with the fluctuation -2.5: the round computes 9.5 and
    writes '9.5'. *)
Lemma next_round_reads_back_example :
  exists q,
    parseFloat (newValueOf (Real 12) (Real (- (5 # 2)))) = F q /\
    (19 # 2) - (1 # 20) < q /\ q <= (19 # 2) + (1 # 20).
Proof.
  apply (next_round_reads_back (Real 12) (Real (- (5 # 2))) (19 # 2)).
  - vm_compute. reflexivity.
  - vm_compute. reflexivity.
Defined.

End ReadBack.

(** ** What is not a number *)

(** X15: when the value of the hours field is not a number, the listener
    throws nothing and writes 'Total cost: NaN credits', whatever the
    rate. *)
Theorem hours_input_not_a_number
  (s : State) (i j : nat) (this : HoursInput) (modal : Modal)
  (info pre num old : string) :
  nth_error (hoursInputs s) i = Some this ->
  StringToNumber (hoursValue this) = NaN ->
  closest this s = Some (j, modal) ->
  alertInfo modal = Some info ->
  rateSentenceAfter pre num info ->
  calculatedCost modal = Some old ->
  hoursInputListener i s =
  Normal tt
    (withModals (updateNth j (setCost "Total cost: NaN credits") (modals s)) s).
Proof.
  intros Hi Hv Hc Ha Hr Ho. unfold hoursInputListener, bind, gets.
  rewrite Hi, Hc, Ha. cbn [nonNull]. unfold ret. apply exec_some in Hr.
  destruct (RatePattern.exec info) as [groups|]; [|congruence].
  cbn [nonNull]. unfold ret. rewrite Ho, Hv. reflexivity.
Qed.

(** The value 'two' at 'Cost: 4 credits/hour'. *)
Lemma hours_input_not_a_number_example :
  hoursInputListener 0 (costPage "two" "Cost: 4 credits/hour")
  = Normal tt
      (withModals
         (updateNth 0 (setCost "Total cost: NaN credits")
            (modals (costPage "two" "Cost: 4 credits/hour")))
         (costPage "two" "Cost: 4 credits/hour")).
Proof.
  refine (hours_input_not_a_number
            (costPage "two" "Cost: 4 credits/hour") 0%nat 0%nat
            (mkHoursInput "two" (Some 0%nat))
            (mkModal (Some "Cost: 4 credits/hour") (Some ""))
            "Cost: 4 credits/hour" "" "4" ""
            eq_refl eq_refl eq_refl eq_refl _ eq_refl).
  exists "4", "", "". split; [|reflexivity].
  split; [discriminate|]. split; [reflexivity|]. split; [reflexivity | now left].
Defined.

(** X16: a metric element whose text does not parse as a number holds the
    text 'NaN' after a round of [updateResourceMetrics], whatever
    [Math.random] returns, and that text does not parse either: the element
    shows 'NaN' after every later round. *)
Theorem unparsable_metric_stays_NaN (s : State) (i : nat) (element : Metric) :
  nth_error (metricElements s) i = Some element ->
  parseFloat (textContent element) = NaN ->
  exists element',
    nth_error (metricElements (stateOf (updateResourceMetrics s))) i = Some element' /\
    textContent element' = "NaN" /\
    parseFloat (textContent element') = NaN.
Proof.
  intros Hn Hp. unfold stateOf. rewrite updateResourceMetrics_eq.
  cbn [outcome fst metricElements].
  eexists. split; [apply nth_error_tickElements; exact Hn|].
  rewrite textContent_tickElement, Hp. split; reflexivity.
Qed.

(** Two rounds on a dashboard whose second metric reads 'N/A'. *)
Lemma unparsable_metric_stays_NaN_example :
  map textContent
    (metricElements
       (stateOf (updateResourceMetrics
                   (stateOf (updateResourceMetrics (dashboard ["12"; "N/A"]))))))
  = ["7.0"; "NaN"]
  /\ exists element',
    nth_error (metricElements (stateOf (updateResourceMetrics (dashboard ["12"; "N/A"])))) 1
    = Some element' /\
    textContent element' = "NaN" /\
    parseFloat (textContent element') = NaN.
Proof.
  split; [vm_compute; reflexivity|].
  exact (unparsable_metric_stays_NaN (dashboard ["12"; "N/A"]) 1%nat
           (mkMetric "N/A" []) eq_refl eq_refl).
Defined.

(** ** The cost after any history *)

Lemma input_event_runs_listener_at (s s1 : State) (i : nat) :
  listeners s1 = listeners (loaded s) ->
  (i < List.length (hoursInputs s))%nat ->
  step (Dispatch (inputHours i)) s1
  = (stateOf (hoursInputListener i s1),
     [RanListener (hoursInputFn i) (snd (outcome (hoursInputListener i s1)))]).
Proof.
  intros Hl Hi. cbn [step]. unfold dispatchEvent. rewrite Hl, loaded_eq.
  cbn [listeners]. rewrite !dispatchTo_app.
  rewrite (dispatchTo_none _ _ s1) by (destruct (searchButton s); reflexivity).
  cbn [fst snd app].
  rewrite (dispatchTo_none _ _ s1) by (destruct (isSome (searchInput s)); reflexivity).
  cbn [fst snd app].
  rewrite (dispatchTo_none _ _ s1) by (destruct (isSome (typeFilter s)); reflexivity).
  cbn [fst snd app].
  rewrite (dispatchTo_hoursInputs _ i (inputHours i) eq_refl eq_refl
             (seq_NoDup _ _)) by (apply in_seq; lia).
  reflexivity.
Qed.

Lemma fixedPart_eq_modals (a b : State) :
  fixedPart a = fixedPart b ->
  map closestModal (hoursInputs a) = map closestModal (hoursInputs b) /\
  map alertInfo (modals a) = map alertInfo (modals b) /\
  map (fun m => isSome (calculatedCost m)) (modals a)
  = map (fun m => isSome (calculatedCost m)) (modals b).
Proof.
  unfold fixedPart. intros H. injection H. intros. repeat split; assumption.
Qed.

Lemma fixedPart_loaded_modals (s : State) :
  hoursInputs (loaded s) = hoursInputs s /\ modals (loaded s) = modals s.
Proof. rewrite loaded_eq. now split. Qed.

(** X17: the cost shown does not depend on what happened before: for an
    hours field in a modal with a rate sentence and a cost element, after
    any sequence of events, edits and timers an input event of the field
    throws nothing and leaves in the cost element the total for the value
    that is in the field now, at the rate of the modal's info text. *)
Theorem cost_after_any_history
  (s : State) (actions : list Action) (i j : nat) (this : HoursInput)
  (modal : Modal) (info num ip fp old : string) :
  nth_error (hoursInputs s) i = Some this ->
  closest this s = Some (j, modal) ->
  alertInfo modal = Some info ->
  firstRateSentence info num ->
  isNumeral num ip fp ->
  calculatedCost modal = Some old ->
  exists this',
    nth_error (hoursInputs (fst (run actions (loaded s)))) i = Some this' /\
    snd (step (Dispatch (inputHours i)) (fst (run actions (loaded s))))
    = [RanListener (hoursInputFn i) None] /\
    nth_error
      (modals (fst (step (Dispatch (inputHours i)) (fst (run actions (loaded s))))))
      j
    = Some (mkModal (Some info)
              (Some ("Total cost: "
                     ++ toFixed 2 (multiply (StringToNumber (hoursValue this'))
                                            (F (MV ip fp 0)))
                     ++ " credits"))).
Proof.
  intros Hi Hc Ha Hr Hn Ho.
  pose proof (run_fixedPart actions (loaded s)) as Hfix.
  destruct (fixedPart_eq _ _ Hfix) as (Hl & _).
  destruct (fixedPart_eq_modals _ _ Hfix) as (Hcm & Hai & Hcc).
  destruct (fixedPart_loaded_modals s) as (Hh' & Hm').
  rewrite Hh' in Hcm. rewrite Hm' in Hai, Hcc.
  assert (Hlt : (i < List.length (hoursInputs s))%nat)
    by (apply nth_error_Some; congruence).
  generalize dependent (fst (run actions (loaded s))). intros s1 _ Hl Hcm Hai Hcc.
  pose proof (closest_closestModal _ _ _ _ Hc) as Hj.
  pose proof (closest_nth_error _ _ _ _ Hc) as Hmj.
  destruct (nth_error_map_eq closestModal _ _ i this (eq_sym Hcm) Hi)
    as (this1 & Hi1 & Hc1).
  destruct (nth_error_map_eq alertInfo _ _ j modal (eq_sym Hai) Hmj)
    as (modal1 & Hm1 & Ha1).
  destruct (nth_error_map_eq (fun m => isSome (calculatedCost m)) _ _ j modal
              (eq_sym Hcc) Hmj) as (modal2 & Hm2 & Ho1).
  assert (modal2 = modal1) by congruence. subst modal2.
  rewrite Ho in Ho1. cbn [isSome] in Ho1.
  destruct (isSome_true _ Ho1) as [old1 Ho2].
  assert (Hcl : closest this1 s1 = Some (j, modal1)).
  { unfold closest. now rewrite Hc1, Hj, Hm1. }
  rewrite Ha in Ha1.
  exists this1. split; [exact Hi1|].
  rewrite (input_event_runs_listener_at s s1 i Hl Hlt).
  rewrite (hoursInputListener_eq s1 i j this1 modal1 info num ip fp old1
             Hi1 Hcl Ha1 Hr Hn Ho2).
  unfold stateOf. cbn [outcome fst snd]. state_simpl.
  split; [reflexivity|].
  rewrite (nth_error_updateNth _ _ _ _ Hm1). unfold setCost. now rewrite Ha1.
Qed.

(** The field of a modal at 2.5 credits an hour, after the values '2' and
    '4' and an input event between them: an input event writes the cost of
    four hours. *)
Lemma cost_after_any_history_example :
  modals
    (fst (step (Dispatch (inputHours 0))
            (fst (run [EditHours 0 "2"; Dispatch (inputHours 0); EditHours 0 "4"]
                      (loaded (costPage "3" "Cost: 2.5 credits/hour"))))))
  = [mkModal (Some "Cost: 2.5 credits/hour") (Some "Total cost: 10.00 credits")]
  /\ exists this',
    nth_error
      (hoursInputs
         (fst (run [EditHours 0 "2"; Dispatch (inputHours 0); EditHours 0 "4"]
                   (loaded (costPage "3" "Cost: 2.5 credits/hour"))))) 0
    = Some this' /\
    snd (step (Dispatch (inputHours 0))
           (fst (run [EditHours 0 "2"; Dispatch (inputHours 0); EditHours 0 "4"]
                     (loaded (costPage "3" "Cost: 2.5 credits/hour")))))
    = [RanListener (hoursInputFn 0) None] /\
    nth_error
      (modals
         (fst (step (Dispatch (inputHours 0))
                 (fst (run [EditHours 0 "2"; Dispatch (inputHours 0); EditHours 0 "4"]
                           (loaded (costPage "3" "Cost: 2.5 credits/hour")))))))
      0
    = Some (mkModal (Some "Cost: 2.5 credits/hour")
              (Some ("Total cost: "
                     ++ toFixed 2 (multiply (StringToNumber (hoursValue this'))
                                            (F (MV "2" "5" 0)))
                     ++ " credits"))).
Proof.
  split; [vm_compute; reflexivity|].
  assert (Hn : isNumeral "2.5" "2" "5").
  { split; [discriminate|]. split; [reflexivity|]. split; [reflexivity|].
    right. split; [discriminate | reflexivity]. }
  refine (cost_after_any_history
            (costPage "3" "Cost: 2.5 credits/hour")
            [EditHours 0 "2"; Dispatch (inputHours 0); EditHours 0 "4"]
            0%nat 0%nat (mkHoursInput "3" (Some 0%nat))
            (mkModal (Some "Cost: 2.5 credits/hour") (Some ""))
            "Cost: 2.5 credits/hour" "2.5" "2" "5" ""
            eq_refl eq_refl eq_refl _ Hn eq_refl).
  exact (firstRateSentence_head "2.5" "2" "5" "" Hn).
Defined.

(** ** Letter case *)












(** ** Decimals and the rounding of the arithmetic *)

Section Decimals.
Local Open Scope Q_scope.

Lemma rne_error (t : Q) : Qabs (inject_Z (rne t) - t) <= 1 # 2.
Proof.
  unfold rne. pose proof (Qfloor_le t) as H1. pose proof (Qlt_floor t) as H2.
  rewrite inject_Z_plus in H2. change (inject_Z 1) with 1 in H2.
  apply Qabs_Qle_condition.
  destruct (Qcompare_spec (t - inject_Z (Qfloor t)) (1 # 2)) as [E|E|E].
  - destruct (Z.even (Qfloor t)); [|rewrite inject_Z_plus; change (inject_Z 1) with 1];
      split; lra.
  - split; lra.
  - rewrite inject_Z_plus. change (inject_Z 1) with 1. split; lra.
Qed.

(** The error of rounding to binary64. *)
Lemma round64_error (q m : Q) :
  0 <= q -> round64 q = Some m -> Qabs (m - q) <= q / 2 ^ 53 + 2 ^ (-1075).
Proof.
  intros Hq. unfold round64. cbv zeta.
  pose proof (two_pow_pos 53) as P53. pose proof (two_pow_pos (-1075)) as Psub.
  assert (Hdiv : 0 <= q / 2 ^ 53).
  { apply Qle_shift_div_l; [exact P53 | lra]. }
  destruct (Qle_bool q 0) eqn:E.
  - apply Qle_bool_iff in E. intros H. apply Some_eq in H. subst m.
    assert (Hz : 0 - q == 0) by lra. rewrite Hz. change (Qabs 0) with 0. lra.
  - assert (Hpos : 0 < q).
    { apply Qnot_le_lt. intros H. apply Qle_bool_iff in H. congruence. }
    match goal with |- context [if ?c then None else _] => destruct c end;
      [discriminate|].
    intros H. apply Some_eq in H. subst m. rewrite Qred_correct.
    set (e := ulp_exp q). pose proof (two_pow_pos e) as Pe.
    assert (Hne : ~ 2 ^ e == 0) by lra.
    assert (Hd : inject_Z (rne (q / 2 ^ e)) * 2 ^ e - q
                 == (inject_Z (rne (q / 2 ^ e)) - q / 2 ^ e) * 2 ^ e)
      by (field; exact Hne).
    rewrite Hd, Qabs_Qmult, (Qabs_pos (2 ^ e)) by lra.
    pose proof (rne_error (q / 2 ^ e)) as Hr.
    apply Qle_trans with ((1 # 2) * 2 ^ e).
    { apply Qmult_le_compat_r; [exact Hr | lra]. }
    destruct (ilog2_spec q Hpos) as [Hl _].
    unfold e, ulp_exp.
    destruct (Z.max_spec (ilog2 q - 52) (-1074)) as [[Hc ->] | [Hc ->]].
    + assert (Hs : (1 # 2) * 2 ^ (-1074) == 2 ^ (-1075)) by reflexivity.
      rewrite Hs. lra.
    + assert (Hs : (1 # 2) * 2 ^ (ilog2 q - 52) == 2 ^ ilog2 q / 2 ^ 53).
      { replace (ilog2 q - 52)%Z with (ilog2 q + (-52))%Z by ring.
        rewrite two_pow_add.
        assert (Hk : (1 # 2) * 2 ^ (-52) == / 2 ^ 53) by reflexivity.
        unfold Qdiv. rewrite <- Hk. ring. }
      rewrite Hs.
      assert (2 ^ ilog2 q / 2 ^ 53 <= q / 2 ^ 53).
      { apply Qmult_le_compat_r; [exact Hl|].
        apply Qlt_le_weak, Qinv_lt_0_compat, P53. }
      lra.
Qed.

Lemma uptoRounding_signed (neg : bool) (a x m : Q) :
  0 <= a -> round64 a = Some m ->
  x == (if neg then - a else a) ->
  uptoRounding x (realOf (signed neg (Some m))).
Proof.
  intros Ha Hr Hx. unfold uptoRounding.
  pose proof (round64_error a m Ha Hr) as He.
  rewrite signed_real, Hx. destruct neg.
  - rewrite Qabs_opp.
    assert (Hd : - m - - a == - (m - a)) by ring.
    rewrite Hd, Qabs_opp, (Qabs_pos a) by exact Ha. exact He.
  - rewrite (Qabs_pos a) by exact Ha. exact He.
Qed.

(** The Number value for [q] is [q] up to rounding. *)
Lemma F_uptoRounding (q : Q) :
  isFinite (F q) = true -> uptoRounding q (realOf (F q)).
Proof.
  unfold F. destruct (round64 (Qabs q)) as [m|] eqn:E; [|discriminate].
  intros _. apply (uptoRounding_signed _ (Qabs q) q m (Qabs_nonneg q) E).
  destruct (Qle_bool 0 q) eqn:Hs; cbn [negb].
  - apply Qle_bool_iff in Hs. now rewrite Qabs_pos.
  - assert (Hn : q <= 0).
    { apply Qlt_le_weak, Qnot_le_lt. intros H. apply Qle_bool_iff in H. congruence. }
    rewrite (Qabs_neg q Hn). ring.
Qed.

Lemma isNegative_abs (x : Number) :
  isFinite x = true ->
  realOf x == (if isNegative x then - Qabs (realOf x) else Qabs (realOf x)).
Proof.
  destruct x as [|neg| |v]; try discriminate; intros _; cbn [isNegative realOf].
  - change (Qabs 0) with 0. reflexivity.
  - destruct (Qle_bool 0 v) eqn:Hs; cbn [negb].
    + apply Qle_bool_iff in Hs. now rewrite Qabs_pos.
    + assert (Hn : v <= 0).
      { apply Qlt_le_weak, Qnot_le_lt. intros H. apply Qle_bool_iff in H. congruence. }
      rewrite (Qabs_neg v Hn). ring.
Qed.

Lemma multiply_finite_args (x y : Number) :
  isFinite (multiply x y) = true -> isFinite x = true /\ isFinite y = true.
Proof.
  destruct x as [|a| |v], y as [|b| |w]; cbn [multiply isFinite isZero];
    try discriminate; try (now split);
    match goal with |- context [if ?c then _ else _] => destruct c end;
    discriminate.
Qed.

(** The product of two Numbers is the product of the reals up to
    rounding. *)
Lemma multiply_uptoRounding (x y : Number) :
  isFinite (multiply x y) = true ->
  uptoRounding (realOf x * realOf y) (realOf (multiply x y)).
Proof.
  intros Hf. destruct (multiply_finite_args x y Hf) as [Hx Hy].
  rewrite multiply_finite in * by assumption.
  destruct (round64 (Qabs (realOf x) * Qabs (realOf y))) as [m|] eqn:E;
    [|discriminate].
  assert (H0 : 0 <= Qabs (realOf x) * Qabs (realOf y)).
  { apply Qmult_le_0_compat; apply Qabs_nonneg. }
  apply (uptoRounding_signed _ _ _ m H0 E).
  rewrite (isNegative_abs x Hx) at 1. rewrite (isNegative_abs y Hy) at 1.
  destruct (isNegative x), (isNegative y); cbn [xorb]; ring.
Qed.

Lemma add_finite_args (x y : Number) :
  isFinite (add x y) = true -> isFinite x = true /\ isFinite y = true.
Proof.
  destruct x as [|a| |v], y as [|b| |w]; cbn [add isFinite];
    try discriminate; try (now split).
  destruct (Bool.eqb a b); discriminate.
Qed.

(** The sum of two Numbers is the sum of the reals up to rounding. *)
Lemma add_uptoRounding (x y : Number) :
  isFinite (add x y) = true ->
  uptoRounding (realOf x + realOf y) (realOf (add x y)).
Proof.
  intros Hf. destruct (add_finite_args x y Hf) as [Hx Hy].
  destruct x as [|a| |v], y as [|b| |w]; try discriminate;
    apply F_uptoRounding; exact Hf.
Qed.

Lemma Qle_bool_comp (a b : Q) : a == b -> Qle_bool 0 a = Qle_bool 0 b.
Proof.
  intros H. destruct (Qle_bool 0 a) eqn:A, (Qle_bool 0 b) eqn:B; try reflexivity.
  - apply Qle_bool_iff in A. rewrite H in A. apply Qle_bool_iff in A. congruence.
  - apply Qle_bool_iff in B. rewrite <- H in B. apply Qle_bool_iff in B. congruence.
Qed.

Lemma isDecimalOf_comp (f : nat) (v w : Q) (text : string) :
  v == w -> isDecimalOf f v text -> isDecimalOf f w text.
Proof.
  intros H (ip & fp & E & H1 & H2 & H3 & H4 & H5).
  exists ip, fp. rewrite <- (Qle_bool_comp v w H).
  repeat split; try assumption.
  rewrite H5. unfold roundedTo. now rewrite H.
Qed.

(** What [toFixed] writes for a finite Number below 10^21 in magnitude is
    the decimal for the Number rounded to the fraction digits asked for. *)
Lemma toFixed_isDecimalOf (f : nat) (x : Number) :
  isFinite x = true -> Qabs (realOf x) < inject_Z (10 ^ 21) ->
  isDecimalOf (S f) (realOf x) (toFixed (S f) x).
Proof.
  intros Hf Hlt. destruct x as [|neg| |v]; try discriminate; cbn [realOf] in *.
  - cbn [toFixed].
    destruct (fixedDigits_spec f 0 (Z.le_refl 0)) as (ip & fp & E & Hne & Hip & Hfp & Hl & Hv).
    exists ip, fp. rewrite E. repeat split; try assumption.
    rewrite (MV_fixed ip fp (S f) 0 Hl Hv). unfold roundedTo.
    change (Qabs 0) with 0.
    assert (Hz : 0 * inject_Z (10 ^ Z.of_nat (S f)) + (1 # 2) == 1 # 2) by ring.
    rewrite Hz. reflexivity.
  - unfold toFixed.
    assert (Hb : Qle_bool (inject_Z (10 ^ 21)) (Qabs v) = false).
    { destruct (Qle_bool _ _) eqn:E; [|reflexivity]. apply Qle_bool_iff in E. lra. }
    rewrite Hb.
    assert (Hn : (0 <= Qfloor (Qabs v * inject_Z (10 ^ Z.of_nat (S f)) + (1 # 2)))%Z).
    { change 0%Z with (Qfloor 0). apply Qfloor_resp_le.
      pose proof (Qabs_nonneg v).
      assert (0 <= inject_Z (10 ^ Z.of_nat (S f))).
      { change 0 with (inject_Z 0). rewrite <- Zle_Qle. apply Z.pow_nonneg. lia. }
      assert (0 <= Qabs v * inject_Z (10 ^ Z.of_nat (S f)))
        by now apply Qmult_le_0_compat.
      lra. }
    destruct (fixedDigits_spec f _ Hn) as (ip & fp & E & Hne & Hip & Hfp & Hl & Hv).
    exists ip, fp. rewrite E. repeat split; try assumption.
    now rewrite (MV_fixed ip fp (S f) _ Hl Hv).
Qed.

End Decimals.

(** ** The cost and the metric in the terms of the specification *)

Section Specification.
Local Open Scope Q_scope.

Lemma uptoRounding_refl (x : Q) : uptoRounding x x.
Proof.
  unfold uptoRounding. assert (Hz : x - x == 0) by ring. rewrite Hz.
  change (Qabs 0) with 0.
  pose proof (two_pow_pos (-1075)). pose proof (two_pow_pos 53).
  pose proof (Qabs_nonneg x).
  assert (0 <= Qabs x / 2 ^ 53) by (apply Qle_shift_div_l; lra). lra.
Qed.

(** C2 as amended: an input event of an hours field of the loaded page runs
    the listener of that field; when the modal of the field has an info text
    with a rate sentence and a cost element, and the product of the value of
    the field, as a Number, and the rate is a finite Number below 10^21 in
    magnitude, the listener writes 'Total cost: D credits', where D is the
    decimal with exactly two fraction digits for the product rounded to two
    decimals; the rate is the numeral of the sentence and the product is
    hours times rate, each up to the rounding of binary64. Hours 3 at rate
    2.5 give 'Total cost: 7.50 credits', and hours 2 with 'Cost: 4
    credits/hour' give 'Total cost: 8.00 credits'. *)
Theorem hours_input_writes_total_cost :
  (forall (s : State) (i : nat) (key : string),
      (i < List.length (hoursInputs s))%nat ->
      step (Dispatch (mkEvent (HoursInputEl i) input key)) (loaded s)
      = (stateOf (hoursInputListener i (loaded s)),
         [RanListener (hoursInputFn i)
            (snd (outcome (hoursInputListener i (loaded s))))]))
  /\ (forall (s : State) (i j : nat) (this : HoursInput) (modal : Modal)
          (info num ip fp old : string),
      nth_error (hoursInputs s) i = Some this ->
      closest this s = Some (j, modal) ->
      alertInfo modal = Some info ->
      firstRateSentence info num ->
      isNumeral num ip fp ->
      calculatedCost modal = Some old ->
      isFinite (multiply (StringToNumber (hoursValue this)) (F (MV ip fp 0))) = true ->
      Qabs (realOf (multiply (StringToNumber (hoursValue this)) (F (MV ip fp 0))))
      < inject_Z (10 ^ 21) ->
      exists (total : string) (rate product : Q),
        hoursInputListener i s =
        Normal tt
          (withModals
             (updateNth j (setCost ("Total cost: " ++ total ++ " credits"))
                (modals s)) s) /\
        uptoRounding (MV ip fp 0) rate /\
        uptoRounding (realOf (StringToNumber (hoursValue this)) * rate) product /\
        isDecimalOf 2 product total)
  /\ modals (stateOf (hoursInputListener 0 (costPage "3" "Cost: 2.5 credits/hour")))
     = [mkModal (Some "Cost: 2.5 credits/hour") (Some "Total cost: 7.50 credits")]
  /\ modals (stateOf (hoursInputListener 0 (costPage "2" "Cost: 4 credits/hour")))
     = [mkModal (Some "Cost: 4 credits/hour") (Some "Total cost: 8.00 credits")].
Proof.
  split; [exact input_event_runs_listener|].
  split; [|split; vm_compute; reflexivity].
  intros s i j this modal info num ip fp old Hi Hc Ha Hf Hn Ho Hfin Hlt.
  destruct (multiply_finite_args _ _ Hfin) as [_ Hrate].
  exists (toFixed 2 (multiply (StringToNumber (hoursValue this)) (F (MV ip fp 0)))),
         (realOf (F (MV ip fp 0))),
         (realOf (multiply (StringToNumber (hoursValue this)) (F (MV ip fp 0)))).
  split; [eapply hoursInputListener_eq; eassumption|].
  split; [apply F_uptoRounding; exact Hrate|].
  split; [apply multiply_uptoRounding; exact Hfin|].
  apply toFixed_isDecimalOf; assumption.
Qed.

(** Hours 1.5 at 'Cost: 2.5 credits/hour', in a text with more around the
    sentence: the cost is 3.75. *)
Lemma hours_input_writes_total_cost_example :
  modals (stateOf (hoursInputListener 0
                     (costPage "1.5" "Note. Cost: 2.5 credits/hour, billed monthly")))
  = [mkModal (Some "Note. Cost: 2.5 credits/hour, billed monthly")
       (Some "Total cost: 3.75 credits")]
  /\ exists (total : string) (rate product : Q),
    hoursInputListener 0 (costPage "1.5" "Note. Cost: 2.5 credits/hour, billed monthly")
    = Normal tt
        (withModals
           (updateNth 0 (setCost ("Total cost: " ++ total ++ " credits"))
              (modals (costPage "1.5" "Note. Cost: 2.5 credits/hour, billed monthly")))
           (costPage "1.5" "Note. Cost: 2.5 credits/hour, billed monthly")) /\
    uptoRounding (MV "2" "5" 0) rate /\
    uptoRounding (realOf (StringToNumber "1.5") * rate) product /\
    isDecimalOf 2 product total.
Proof.
  split; [vm_compute; reflexivity|].
  assert (Hn : isNumeral "2.5" "2" "5").
  { split; [discriminate|]. split; [reflexivity|]. split; [reflexivity|].
    right. split; [discriminate | reflexivity]. }
  refine (proj1 (proj2 hours_input_writes_total_cost)
            (costPage "1.5" "Note. Cost: 2.5 credits/hour, billed monthly")
            0%nat 0%nat (mkHoursInput "1.5" (Some 0%nat))
            (mkModal (Some "Note. Cost: 2.5 credits/hour, billed monthly") (Some ""))
            "Note. Cost: 2.5 credits/hour, billed monthly" "2.5" "2" "5" ""
            eq_refl eq_refl eq_refl _ Hn eq_refl _ _).
  - exists "Note. ". split.
    + exists "2", "5", ", billed monthly". split; [exact Hn | reflexivity].
    + intros pre' num' [ip [fp [rest [_ H]]]].
      destruct pre' as [|c0 [|c1 [|c2 [|c3 [|c4 [|c5 pre']]]]]]; cbn [length];
        try lia; exfalso; cbn [append] in H; congruence.
  - vm_compute. reflexivity.
  - vm_compute. reflexivity.
Defined.

(** C2, where the product is not a finite Number below 10^21: 10^21 hours
    at one credit an hour are written in exponent notation, and three hours
    at a rate of 10^309 credits, which is Infinity as a Number, as
    'Infinity'. *)
Lemma hours_beyond_fixed_notation :
  firstRateSentence "Cost: 1 credits/hour" "1" /\
  modals (stateOf (hoursInputListener 0 (costPage sextillion "Cost: 1 credits/hour")))
  = [mkModal (Some "Cost: 1 credits/hour") (Some "Total cost: 1e+21 credits")] /\
  firstRateSentence hugeRateInfo hugeRate /\
  modals (stateOf (hoursInputListener 0 (costPage "3" hugeRateInfo)))
  = [mkModal (Some hugeRateInfo) (Some "Total cost: Infinity credits")].
Proof.
  split; [|split; [vm_compute; reflexivity|split; [|vm_compute; reflexivity]]].
  - apply (firstRateSentence_head "1" "1" "" "").
    split; [discriminate|]. split; [reflexivity|]. split; [reflexivity | now left].
  - apply (firstRateSentence_head hugeRate hugeRate "" "").
    split; [discriminate|]. split; [vm_compute; reflexivity|].
    split; [reflexivity | now left].
Qed.

Lemma F_negative_infinity (q : Q) : F q = Infinity true -> q < 0.
Proof.
  unfold F. destruct (round64 (Qabs q)) as [m|]; cbn [signed].
  - destruct (negb (Qle_bool 0 q)); [destruct (Qeq_bool m 0)|]; discriminate.
  - intros H. injection H as H. apply negb_true_iff in H.
    apply Qnot_le_lt. intros H'. apply Qle_bool_iff in H'. congruence.
Qed.

Lemma add_negative_infinity (x y : Number) :
  isFinite x = true -> isFinite y = true -> add x y = Infinity true ->
  realOf x + realOf y < 0.
Proof.
  destruct x as [|a| |v], y as [|b| |w]; try discriminate; intros _ _ H;
    try discriminate H; apply F_negative_infinity; exact H.
Qed.

(** The sum of a text that parses up to [maxFixed] and a fluctuation. *)
Lemma add_fluctuation_upper (text : string) (r : Number) :
  parsesUpToMaxFixed text -> unitInterval r ->
  add (parseFloat text) (fluctuationOf r) <> NaN /\
  add (parseFloat text) (fluctuationOf r) <> Infinity false /\
  realOf (add (parseFloat text) (fluctuationOf r)) <= maxFixed.
Proof.
  intros Ht Hr. destruct (fluctuation_bounds r Hr) as [Hf [Hlo Hhi]].
  set (delta := fluctuationOf r) in *. unfold parsesUpToMaxFixed in Ht.
  pose proof maxFixed_nonneg as H0.
  destruct (parseFloat text) as [|neg| |v]; [contradiction| | |].
  - subst neg. destruct delta; try discriminate Hf; cbn [add Bool.eqb realOf];
      repeat split; try discriminate; exact H0.
  - destruct delta as [|neg| |d]; try discriminate Hf.
    + cbn [add realOf]. repeat split; try discriminate; exact H0.
    + cbn [realOf] in Hlo, Hhi.
      apply (F_upper (realOf NegZero + realOf (Real d)) (maxFixed + 5) maxFixed);
        [cbn [realOf]; lra | exact round64_maxFixed_plus_5].
  - destruct delta as [|neg| |d]; try discriminate Hf.
    + apply (F_upper (realOf (Real v) + realOf NegZero) (maxFixed + 5) maxFixed);
        [cbn [realOf]; lra | exact round64_maxFixed_plus_5].
    + cbn [realOf] in Hlo, Hhi.
      apply (F_upper (realOf (Real v) + realOf (Real d)) (maxFixed + 5) maxFixed);
        [cbn [realOf]; lra | exact round64_maxFixed_plus_5].
Qed.

(** [Math.max(0, y)] for a [y] that is not NaN and not +Infinity, in terms
    of a real [x] that is [y] when [y] is finite and is negative when [y]
    is -Infinity. *)
Lemma Math_max_zero_value (y : Number) (x : Q) :
  y <> NaN -> y <> Infinity false ->
  (isFinite y = true -> x = realOf y) ->
  (y = Infinity true -> x < 0) ->
  exists u, Math_max [Real 0; y] = Real u /\ u == Qmax 0 x /\ 0 <= u /\
            (u <= 0 \/ u = realOf y).
Proof.
  intros Hn Hi Hfin Hinf. rewrite (Math_max_zero y Hn).
  destruct y as [|[]| |w]; [contradiction | | contradiction | |].
  - specialize (Hinf eq_refl). exists 0. cbn [lessThan].
    split; [reflexivity|]. split; [|split; [lra | left; lra]].
    symmetry. apply Q.max_l. lra.
  - rewrite (Hfin eq_refl). exists 0. split; [reflexivity|]. cbn [realOf].
    split; [|split; [lra | left; lra]]. symmetry. apply Q.max_l. lra.
  - rewrite (Hfin eq_refl). cbn [lessThan realOf].
    destruct (Qle_bool w 0) eqn:E; cbn [negb].
    + apply Qle_bool_iff in E. exists 0. split; [reflexivity|].
      split; [|split; [lra | left; lra]]. symmetry. now apply Q.max_l.
    + assert (Hw : 0 < w).
      { apply Qnot_le_lt. intros H. apply Qle_bool_iff in H. congruence. }
      exists w. split; [reflexivity|].
      split; [|split; [lra | now right]]. symmetry. apply Q.max_r. lra.
Qed.

(** C4 as amended: a round of [updateResourceMetrics] returns; for a metric
    element whose text parses to a finite Number v below 10^21, and the
    draw r of [Math.random] for it in [0, 1), the new text is the decimal
    with exactly one fraction digit for max(0, x) rounded to one decimal,
    where x is v + delta and delta is (r - 0.5) * 10, each operation up to
    the rounding of binary64; delta lies between -5 and 5; when v is zero
    and delta negative, the text is '0.0'. *)
Theorem metric_update_new_value
  (s : State) (i : nat) (element : Metric) (r : Q) :
  prng s (randomCalls s + i)%nat = Real r ->
  0 <= r -> r < 1 ->
  nth_error (metricElements s) i = Some element ->
  isFinite (parseFloat (textContent element)) = true ->
  realOf (parseFloat (textContent element)) < inject_Z (10 ^ 21) ->
  exists (s' : State) (element' : Metric) (a delta x : Q),
    updateResourceMetrics s = Normal tt s' /\
    nth_error (metricElements s') i = Some element' /\
    uptoRounding (r - (1 # 2)) a /\
    uptoRounding (a * 10) delta /\
    -5 <= delta /\ delta <= 5 /\
    uptoRounding (realOf (parseFloat (textContent element)) + delta) x /\
    isDecimalOf 1 (Qmax 0 x) (textContent element') /\
    (realOf (parseFloat (textContent element)) == 0 -> delta < 0 ->
     textContent element' = "0.0").
Proof.
  intros Hr H0 H1 Hn Hfin Hlt.
  assert (Hu : unitInterval (Real r)) by (exists r; now repeat split).
  destruct (fluctuation_bounds _ Hu) as [Hff [Hlo Hhi]].
  assert (Hp : parsesUpToMaxFixed (textContent element)).
  { apply parsesBelowLimit_upToMaxFixed. unfold parsesBelowLimit.
    destruct (parseFloat (textContent element)); try discriminate Hfin;
      [exact I | exact Hlt]. }
  destruct (add_fluctuation_upper _ _ Hp Hu) as (Yn & Yi & Yle).
  assert (Ha : isFinite (F (r + - (1 # 2))) = true).
  { assert (Hq : Qabs (r + - (1 # 2)) <= 1 # 2) by (apply Qabs_Qle_condition; lra).
    now destruct (F_abs_le _ _ _ Hq round64_half). }
  set (v := parseFloat (textContent element)) in *.
  set (delta := fluctuationOf (Real r)) in *.
  assert (Hx : exists x, uptoRounding (realOf v + realOf delta) x /\
                         (isFinite (add v delta) = true -> x = realOf (add v delta)) /\
                         (add v delta = Infinity true -> x < 0)).
  { destruct (isFinite (add v delta)) eqn:E.
    - exists (realOf (add v delta)). split; [now apply add_uptoRounding|].
      split; [reflexivity|]. intros H. rewrite H in E. discriminate.
    - exists (realOf v + realOf delta). split; [apply uptoRounding_refl|].
      split; [discriminate|]. now apply add_negative_infinity. }
  destruct Hx as (x & Hx1 & Hx2 & Hx3).
  destruct (Math_max_zero_value (add v delta) x Yn Yi Hx2 Hx3)
    as (u & Hmax & Hux & Hu0 & Hu1).
  assert (Htext : textContent (tickElement (prng s (randomCalls s + i)%nat) element)
                  = toFixed 1 (Real u)).
  { rewrite textContent_tickElement, Hr. fold v. fold delta.
    unfold newValueOf. now rewrite Hmax. }
  eexists. exists (tickElement (prng s (randomCalls s + i)%nat) element),
             (realOf (F (r + - (1 # 2)))), (realOf delta), x.
  split; [apply updateResourceMetrics_eq|].
  split; [cbn [metricElements]; now apply nth_error_tickElements|].
  split; [exact (F_uptoRounding (r + - (1 # 2)) Ha)|].
  split; [exact (multiply_uptoRounding (F (r + - (1 # 2))) (Real 10) Hff)|].
  split; [exact Hlo|]. split; [exact Hhi|]. split; [exact Hx1|].
  rewrite Htext. split.
  - apply (isDecimalOf_comp 1 u _ _ Hux).
    apply (toFixed_isDecimalOf 0 (Real u) eq_refl). cbn [realOf].
    rewrite Qabs_pos by exact Hu0. pose proof maxFixed_lt_limit.
    pose proof maxFixed_nonneg.
    destruct Hu1 as [Hu1 | Hu1]; [|rewrite Hu1]; lra.
  - intros Hz Hneg.
    assert (Hzero : isZero v = true).
    { destruct v as [|neg| |w]; try discriminate Hfin; [reflexivity|].
      cbn [isZero]. now apply Qeq_bool_iff. }
    pose proof (add_zero_negative v delta Hzero Hff Hneg) as Hm.
    rewrite Hmax in Hm. apply Some_eq. f_equal.
    injection Hm as Hm. rewrite Hm. reflexivity.
Qed.

(** A dashboard showing 42.0 and 0, and a generator that draws 1/4: the
    fluctuation is -2.5, and the texts become 39.5 and 0.0. *)
Lemma metric_update_new_value_example :
  map textContent
    (metricElements (stateOf (updateResourceMetrics (dashboard ["42.0"; "0"]))))
  = ["39.5"; "0.0"]
  /\ exists (s' : State) (element' : Metric) (a delta x : Q),
    updateResourceMetrics (dashboard ["42.0"; "0"]) = Normal tt s' /\
    nth_error (metricElements s') 0 = Some element' /\
    uptoRounding ((1 # 4) - (1 # 2)) a /\
    uptoRounding (a * 10) delta /\
    -5 <= delta /\ delta <= 5 /\
    uptoRounding (realOf (parseFloat "42.0") + delta) x /\
    isDecimalOf 1 (Qmax 0 x) (textContent element') /\
    (realOf (parseFloat "42.0") == 0 -> delta < 0 -> textContent element' = "0.0").
Proof.
  split; [vm_compute; reflexivity|].
  refine (metric_update_new_value (dashboard ["42.0"; "0"]) 0 (mkMetric "42.0" [])
            (1 # 4) eq_refl _ _ eq_refl _ _).
  - discriminate.
  - reflexivity.
  - vm_compute. reflexivity.
  - vm_compute. reflexivity.
Defined.

(** C4, at 10^21: a metric that shows 10^21, written out or as '1e21',
    parses to a finite Number, and the round writes it in exponent
    notation. *)
Lemma tick_beyond_fixed_notation :
  isFinite (parseFloat sextillion) = true /\
  isFinite (parseFloat "1e21") = true /\
  map textContent
    (metricElements (stateOf (updateResourceMetrics (dashboard [sextillion; "1e21"]))))
  = ["1e+21"; "1e+21"].
Proof. repeat split; vm_compute; reflexivity. Qed.

End Specification.
